(** * Channel multiplexer of the Sonic contact-centre gateway

    A shallow embedding of the WebSocket server (main and legacy
    variants), of the provider integrations at hand (Browser, Vonage,
    Genesys, Twilio) and of the audio framing they share, followed by
    the properties of the natural-language specification settled on it.

    Conventions
    - a [WebSocket] object is represented by its identity (a number);
      its [readyState] is read from the world;
    - a JS [Map] keyed by strings or sockets is a [gmap]; a JS
      [Set<WebSocket>] is a duplicate-free list in insertion order,
      because [forEach] visits it in that order;
    - every observable action (a frame sent on a socket, a call on the
      engine client, a console line) is recorded in an effect trace;
    - a handler is a computation in the monad [M]: it transforms the
      world, emits effects, and returns, throws or stays suspended;
      an [async] function that other handlers can interleave with is
      cut into the segments between its [await]s;
    - the engine client ([./client], not part of the sources at hand) is
      an oracle: how its calls turn out is read from a tape held in the
      world, so that every statement quantifies over every behaviour of
      the engine;
    - the main server takes its Twilio and Vonage integrations as
      parameters; the Twilio integration is the one of
      [telephony/twilio.ts]; the Vonage integration of the main server
      is not part of the sources, and where a statement is about it, it
      is modelled from the specification and marked as such.

    Layout: the model (platform, integrations, main server, legacy
    server), the vocabulary of the properties, the concrete worlds of
    the examples, then the properties. *)

From Stdlib Require Import ZArith List String Ascii Lia Bool.
From stdpp Require Import base gmap list strings.

Local Open Scope Z_scope.
Local Open Scope string_scope.
Local Open Scope list_scope.
Set Warnings "-register-all".

(** ** Values exchanged on the wire *)

Inductive Json : Type :=
| JNull
| JBool (b : bool)
| JNum (n : Z)
| JStr (s : string)
| JArr (items : list Json)
| JObj (fields : list (string * Json)).

(** A frame written to a socket: text produced by [JSON.stringify]
    (modelled by the value that was serialised) or a binary
    [Int16Array] chunk. *)
Inductive Wire : Type :=
| WText (j : Json)
| WPcm (samples : list Z).

(** An inbound frame: its bytes, and what [JSON.parse(msg.toString())]
    makes of them ([None] when it raises [SyntaxError]). *)
Record Inbound : Type := {
  raw : list Z;
  parsed : option Json;
}.

Definition WebSocket := nat.

Module ReadyState.
Definition CONNECTING : Z := 0.
Definition OPEN : Z := 1.
Definition CLOSING : Z := 2.
Definition CLOSED : Z := 3.
End ReadyState.

(** ** The engine client

    [Conversation] objects are handed out by
    [bedrockClient.createConversation]; two objects created for the
    same channel id are different objects, told apart by [handle]. *)
Record Conversation : Type := {
  handle : nat;
  id : string;
  twilioStreamSid : option string;
}.

Inductive EngineCall : Type :=
| createConversation (conversationId : string) (ws : WebSocket) (h : nat)
| startSession (h : nat)
| createStreamSession (sessionId : string)
| initiateSession (sessionId : string)
| setupPromptStart (h : nat)
| setupSystemPrompt (h : nat) (text : option Json)
| setupStartAudio (h : nat)
| streamAudio (h : nat) (audio : list Z)
| endAudioContent (h : nat)
| endPrompt (h : nat)
| close (h : nat)
| closeSession (sessionId : string)
| forceCloseSession (sessionId : string).

(** How a call on the engine turns out: it settles after [d]
    milliseconds, it rejects (throws) after [d] milliseconds with an
    error, or its promise never settles. *)
Inductive Outcome : Type :=
| Settles (d : N)
| Rejects (d : N) (e : string)
| Never.

Inductive LogLine : Type :=
| LNoChannelToCleanUp
| LClientDisconnected (channel : string) (remaining : nat)
| LLastClientLeft (channel : string)
| LCleanedUp (channel : string)
| LErrorCleaningUp (channel : string) (e : string)
| LForceClosed (channel : string)
| LFailedForceClose (channel : string) (e : string)
| LCleanupCheck
| LClosingInactive (sessionId : string)
| LErrorForceClosing (sessionId : string) (e : string)
| LJoiningExisting (channel : string)
| LCreatingNew (channel : string)
| LChannelHas (channel : string) (n : nat)
| LSendingError (message details : string)
| LEvent (eventName : string) (isError : bool)
| LStreamCompleted (channel : string)
| LBrowser29
| LGenesysResponse (response : Json)
| LGenesysOutputError (e : string)
| LGenesysStarted (streamId : option Json)
| LGenesysInvalidPayload (msg : Json)
| LGenesysError (e : option Json)
| LGenesysUnclassified (msg : Json)
| LGenesysInputError (e : string)
| LVonageError (e : string)
| LEventReceived (type : option Json)
| LSessionCleanupComplete.

Inductive Effect : Type :=
| ELog (l : LogLine)
| ESend (ws : WebSocket) (m : Wire)
| EWsClose (ws : WebSocket)
| EEngine (c : EngineCall)
| EAssign (h : nat) (field : string) (value : option Json).

(** ** The world

    [server] is the module-level state of the server file: the three
    registries.  The remaining fields are its environment. *)
Record Server : Type := {
  channelConversations : gmap string Conversation;
  channelClients : gmap string (list WebSocket);
  clientChannels : gmap WebSocket string;
}.

(** An [async] function that no handler waits for any more: it lost
    a [Promise.race] against a timer while it was suspended on an engine
    call.  It is not cancelled.  [pendingOutcome] is how the promise it
    is suspended on turns out, counted from [issuedAt], the instant the
    call was issued; [remaining] are the calls it awaits next, in
    order. *)
Record Detached : Type := {
  pendingOutcome : Outcome;
  issuedAt : Z;
  remaining : list EngineCall;
}.

Record World : Type := {
  server : Server;
  readyState : WebSocket -> Z;
  (* answers of the engine client's queries *)
  isSessionActive : string -> bool;
  getActiveSessions : list string;
  getLastActivityTime : string -> Z;
  (* outcomes of the engine calls still to come *)
  tape : list Outcome;
  (* allocation counter of [createConversation] *)
  nextHandle : nat;
  (* [Date.now()] *)
  now : Z;
  (* instant at which a pending [setTimeout] of a [Promise.race] fires *)
  deadline : option Z;
  (* the [async] functions left running by a race they lost *)
  detached : list Detached;
}.

(** ** A monad for handlers

    A handler transforms the world, emits effects and either returns,
    throws, or stays suspended on a promise that never settles. *)
Inductive Result (A : Type) : Type :=
| Done (a : A)
| Thrown (e : string)
| Blocked.
Arguments Done {A} a.
Arguments Thrown {A} e.
Arguments Blocked {A}.

Definition M (A : Type) : Type := World -> Result A * World * list Effect.

Definition ret {A} (a : A) : M A := fun w => (Done a, w, []).

Definition bind {A B} (m : M A) (k : A -> M B) : M B :=
  fun w =>
    match m w with
    | (Done a, w1, t1) =>
        match k a w1 with
        | (r, w2, t2) => (r, w2, t1 ++ t2)
        end
    | (Thrown e, w1, t1) => (Thrown e, w1, t1)
    | (Blocked, w1, t1) => (Blocked, w1, t1)
    end.

Declare Scope handler_scope.
Delimit Scope handler_scope with handler.
Notation "x <- m ;; k" := (bind m (fun x => k))
  (at level 100, m at next level, right associativity) : handler_scope.
Notation "m ;; k" := (bind m (fun _ => k))
  (at level 100, right associativity) : handler_scope.
Local Open Scope handler_scope.

Definition throw {A} (e : string) : M A := fun w => (Thrown e, w, []).
Definition emit (e : Effect) : M unit := fun w => (Done tt, w, [e]).
Definition log (l : LogLine) : M unit := emit (ELog l).
Definition gets {A} (f : World -> A) : M A := fun w => (Done (f w), w, []).
Definition modify (f : World -> World) : M unit := fun w => (Done tt, f w, []).
Definition when (b : bool) (m : M unit) : M unit := if b then m else ret tt.

(** [try { m } catch (e) { h e }] *)
Definition try_catch {A} (m : M A) (h : string -> M A) : M A :=
  fun w =>
    match m w with
    | (Thrown e, w1, t1) =>
        match h e w1 with
        | (r, w2, t2) => (r, w2, t1 ++ t2)
        end
    | other => other
    end.

Definition set_server (f : Server -> Server) (w : World) : World :=
  {| server := f (server w); readyState := readyState w;
     isSessionActive := isSessionActive w;
     getActiveSessions := getActiveSessions w;
     getLastActivityTime := getLastActivityTime w;
     tape := tape w; nextHandle := nextHandle w; now := now w;
     deadline := deadline w; detached := detached w |}.

Definition set_tape (t : list Outcome) (w : World) : World :=
  {| server := server w; readyState := readyState w;
     isSessionActive := isSessionActive w;
     getActiveSessions := getActiveSessions w;
     getLastActivityTime := getLastActivityTime w;
     tape := t; nextHandle := nextHandle w; now := now w;
     deadline := deadline w; detached := detached w |}.

Definition set_now (t : Z) (w : World) : World :=
  {| server := server w; readyState := readyState w;
     isSessionActive := isSessionActive w;
     getActiveSessions := getActiveSessions w;
     getLastActivityTime := getLastActivityTime w;
     tape := tape w; nextHandle := nextHandle w; now := t;
     deadline := deadline w; detached := detached w |}.

Definition set_deadline (d : option Z) (w : World) : World :=
  {| server := server w; readyState := readyState w;
     isSessionActive := isSessionActive w;
     getActiveSessions := getActiveSessions w;
     getLastActivityTime := getLastActivityTime w;
     tape := tape w; nextHandle := nextHandle w; now := now w;
     deadline := d; detached := detached w |}.

Definition set_nextHandle (n : nat) (w : World) : World :=
  {| server := server w; readyState := readyState w;
     isSessionActive := isSessionActive w;
     getActiveSessions := getActiveSessions w;
     getLastActivityTime := getLastActivityTime w;
     tape := tape w; nextHandle := n; now := now w;
     deadline := deadline w; detached := detached w |}.

Definition set_detached (ds : list Detached) (w : World) : World :=
  {| server := server w; readyState := readyState w;
     isSessionActive := isSessionActive w;
     getActiveSessions := getActiveSessions w;
     getLastActivityTime := getLastActivityTime w;
     tape := tape w; nextHandle := nextHandle w; now := now w;
     deadline := deadline w; detached := ds |}.

(** The next outcome on the tape; an exhausted tape answers at once. *)
Definition outcome_at (i : nat) (w : World) : Outcome :=
  nth i (tape w) (Settles 0).

Definition next_outcome (w : World) : Outcome * World :=
  (outcome_at 0 w, set_tape (tl (tape w)) w).

(** Has the timer of the enclosing [Promise.race] fired by instant [t]? *)
Definition timer_fired (w : World) (t : Z) : bool :=
  match deadline w with
  | Some dl => (dl <=? t)%Z
  | None => false
  end.

(** [await c]: the call is issued, then the handler is suspended until
    the promise settles.  Inside a [Promise.race] with a timer, a
    promise that has not settled when the timer fires leaves the
    handler [Blocked] at the instant of the timer. *)
Definition await (c : EngineCall) : M unit :=
  fun w =>
    let '(o, w1) := next_outcome w in
    match o with
    | Settles d =>
        let t := now w1 + Z.of_N d in
        if timer_fired w1 t
        then (Blocked, w1, [EEngine c])
        else (Done tt, set_now t w1, [EEngine c])
    | Rejects d e =>
        let t := now w1 + Z.of_N d in
        if timer_fired w1 t
        then (Blocked, w1, [EEngine c])
        else (Thrown e, set_now t w1, [EEngine c])
    | Never => (Blocked, w1, [EEngine c])
    end.

(** A call whose promise is not awaited: only a synchronous exception
    reaches the caller, and no time passes. *)
Definition call (c : EngineCall) : M unit :=
  fun w =>
    let '(o, w1) := next_outcome w in
    match o with
    | Rejects _ e => (Thrown e, w1, [EEngine c])
    | _ => (Done tt, w1, [EEngine c])
    end.

(** The [async] function raced against the timer in [handleClose],
    [(async () => { await c1; await c2; ... })()], given by the calls
    it awaits in turn.  [racing] is its run while the timer of the
    race is pending: it returns when every call has settled, it throws
    when a call rejects, and when the timer fires while it is suspended
    on a call it is [Blocked] there -- and left running: the race does
    not cancel it, and it is recorded among the [detached] functions
    with the promise it waits for and the calls it has still to
    make. *)
Fixpoint racing (calls : list EngineCall) : M unit :=
  match calls with
  | [] => ret tt
  | c :: rest =>
      fun w =>
        match await c w with
        | (Done _, w1, t1) =>
            match racing rest w1 with
            | (r, w2, t2) => (r, w2, t1 ++ t2)
            end
        | (Thrown e, w1, t1) => (Thrown e, w1, t1)
        | (Blocked, w1, t1) =>
            let running := {| pendingOutcome := outcome_at 0 w; issuedAt := now w;
                              remaining := rest |} in
            (Blocked, set_detached (detached w1 ++ [running]) w1, t1)
        end
  end.

(** [await Promise.race([(async () => { ... })(), timeout(ms)])]: when
    the function has not completed by the time the timer fires, the
    race rejects with the timer's error at that instant, and the
    handler goes on while the function is left running. *)
Definition race_timeout (ms : Z) (timeoutError : string) (calls : list EngineCall)
    : M unit :=
  fun w =>
    let dl := now w + ms in
    let saved := deadline w in
    match racing calls (set_deadline (Some dl) w) with
    | (Blocked, w1, t1) =>
        (Thrown timeoutError, set_deadline saved (set_now dl w1), t1)
    | (r, w1, t1) => (r, set_deadline saved w1, t1)
    end.

(** A call of an [async] function that is not awaited: the caller goes
    on; a rejection of the returned promise does not reach it. *)
Definition spawn (m : M unit) : M unit :=
  fun w =>
    match m w with
    | (_, w1, t1) => (Done tt, w1, t1)
    end.

(** [Array.prototype.forEach] / [Set.prototype.forEach] with a callback
    in the handler monad. *)
Fixpoint forEach {A} (f : A -> M unit) (l : list A) : M unit :=
  match l with
  | [] => ret tt
  | x :: rest => f x;; forEach f rest
  end.

(** What a function left running does once the promise it is
    suspended on has settled, at the earliest at the instant it
    settles: it awaits its remaining calls, outside any race.  When
    that promise rejects or never settles it makes no further call.
    Nobody waits for the function: how it ends reaches no handler. *)
Definition resume (d : Detached) : M unit :=
  match pendingOutcome d with
  | Settles n =>
      spawn (modify (fun w => set_now (Z.max (now w) (issuedAt d + Z.of_N n)) w);;
             forEach await (remaining d))
  | Rejects _ _ | Never => ret tt
  end.

(** The event loop lets the functions left running go on, in the order
    in which they were left. *)
Definition runDetached : M unit :=
  running <- gets detached;;
  modify (set_detached []);;
  forEach resume running.

(** [if (client.readyState === WebSocket.OPEN) client.send(message)] *)
Definition sendIfOpen (message : Wire) (client : WebSocket) : M unit :=
  state <- gets (fun w => readyState w client);;
  when (state =? ReadyState.OPEN)%Z (emit (ESend client message)).

(** [clients.forEach((client) => { if (...OPEN) client.send(message) })] *)
Definition sendToOpen (clients : list WebSocket) (message : Wire) : M unit :=
  forEach (sendIfOpen message) clients.

(** ** The platform: JS values, [Buffer], base64, typed arrays *)

(** A JS value read out of a parsed message: [None] is [undefined]. *)
Definition JsValue := option Json.

Fixpoint assoc {V} (k : string) (fields : list (string * V)) : option V :=
  match fields with
  | [] => None
  | (k', v) :: rest => if decide (k' = k) then Some v else assoc k rest
  end.

(** [map.get(key)] on a [Map] with string keys: a key that is not a
    string finds nothing. *)
Definition Map_get {V} (entries : list (string * V)) (key : JsValue) : option V :=
  match key with
  | Some (JStr k) => assoc k entries
  | _ => None
  end.

(** Property access [v.k] for the keys the handlers read (none of them
    is a built-in property of strings, numbers, booleans or arrays):
    [TypeError] on [undefined] and [null], the field of an object,
    [undefined] otherwise. *)
Definition prop (v : JsValue) (k : string) : M JsValue :=
  match v with
  | None | Some JNull =>
      throw ("TypeError: Cannot read properties of undefined (reading '" ++ k ++ "')")%string
  | Some (JObj fields) => ret (assoc k fields)
  | Some _ => ret None
  end.

Definition truthy (v : JsValue) : bool :=
  match v with
  | None | Some JNull => false
  | Some (JBool b) => b
  | Some (JNum n) => negb (n =? 0)%Z
  | Some (JStr s) => negb (bool_decide (s = ""))
  | Some (JArr _) | Some (JObj _) => true
  end.

(** [a || b] on JS values. *)
Definition js_or (a b : JsValue) : JsValue := if truthy a then a else b.

(** *** base64

    [toBase64] is [buf.toString("base64")]; [fromBase64] is the decoder
    of [Buffer.from(s, "base64")], which skips the characters outside
    the alphabet (the URL-safe [-] and [_] included in it) and stops at
    the first [=]. *)
Definition b64char (i : Z) : ascii :=
  ascii_of_N (Z.to_N (if (i <? 26)%Z then 65 + i
                       else if (i <? 52)%Z then 71 + i
                       else if (i <? 62)%Z then i - 4
                       else if (i =? 62)%Z then 43 else 47)).

Definition unbase64 (c : ascii) : option Z :=
  let n := Z.of_N (N_of_ascii c) in
  if ((65 <=? n) && (n <=? 90))%Z then Some (n - 65)
  else if ((97 <=? n) && (n <=? 122))%Z then Some (n - 71)
  else if ((48 <=? n) && (n <=? 57))%Z then Some (n + 4)
  else if ((n =? 43) || (n =? 45))%Z then Some 62
  else if ((n =? 47) || (n =? 95))%Z then Some 63
  else None.

Fixpoint toBase64 (bytes : list Z) : string :=
  match bytes with
  | [] => ""
  | [a] =>
      String (b64char (a / 4)) (String (b64char (a mod 4 * 16)) "==")
  | [a; b] =>
      String (b64char (a / 4))
        (String (b64char (a mod 4 * 16 + b / 16))
           (String (b64char (b mod 16 * 4)) "="))
  | a :: b :: c :: rest =>
      String (b64char (a / 4))
        (String (b64char (a mod 4 * 16 + b / 16))
           (String (b64char (b mod 16 * 4 + c / 64))
              (String (b64char (c mod 64)) (toBase64 rest))))
  end.

Fixpoint sextets (s : string) : list Z :=
  match s with
  | EmptyString => []
  | String c rest =>
      if Ascii.eqb c "="%char then []
      else match unbase64 c with
           | Some v => v :: sextets rest
           | None => sextets rest
           end
  end.

Fixpoint pack (l : list Z) : list Z :=
  match l with
  | s0 :: s1 :: s2 :: s3 :: rest =>
      (s0 * 4 + s1 / 16) :: (s1 mod 16 * 16 + s2 / 4) :: (s2 mod 4 * 64 + s3)
        :: pack rest
  | [s0; s1; s2] => [s0 * 4 + s1 / 16; s1 mod 16 * 16 + s2 / 4]
  | [s0; s1] => [s0 * 4 + s1 / 16]
  | _ => []
  end.

Definition fromBase64 (s : string) : list Z := pack (sextets s).

(** *** Typed arrays *)

Definition toInt16 (v : Z) : Z :=
  let u := v mod 65536 in if (u <? 32768)%Z then u else u - 65536.

(** [new Int16Array(buffer.buffer, buffer.byteOffset, buffer.length / 2)]:
    little-endian pairs; a trailing odd byte is not part of the view. *)
Fixpoint int16View (bytes : list Z) : list Z :=
  match bytes with
  | lo :: hi :: rest => toInt16 (lo + 256 * hi) :: int16View rest
  | _ => []
  end.

(** [Buffer.from(int16Array.buffer)]: two bytes per sample. *)
Definition bytesOfInt16 (samples : list Z) : list Z :=
  flat_map (fun v => [v mod 256; (v / 256) mod 256]) samples.

(** [typedArray.slice(start, end)] with [start <= end]. *)
Definition slice {A} (l : list A) (start stop : nat) : list A :=
  take (stop - start) (drop start l).

(** What the server takes from libraries outside the repository: the
    mu-law sample coders of [alawmulaw], and [Buffer.from] applied to a
    JSON value that is not a string ([None] when it raises
    [TypeError]). *)
Class Platform : Type := {
  mulaw_encodeSample : Z -> Z;
  mulaw_decodeSample : Z -> Z;
  Buffer_from_object : Json -> option (list Z);
}.

Section WithPlatform.
Context {P : Platform}.

(** [mulaw.encode]: one byte per sample, stored in a [Uint8Array]. *)
Definition mulaw_encode (samples : list Z) : list Z :=
  map (fun s => mulaw_encodeSample s mod 256) samples.

(** [mulaw.decode]: one sample per byte, stored in an [Int16Array]. *)
Definition mulaw_decode (bytes : list Z) : list Z :=
  map (fun b => toInt16 (mulaw_decodeSample b)) bytes.

(** [Buffer.from(v, "base64")] *)
Definition Buffer_from_base64 (v : JsValue) : M (list Z) :=
  match v with
  | Some (JStr s) => ret (fromBase64 s)
  | Some j =>
      match Buffer_from_object j with
      | Some bytes => ret bytes
      | None => throw "TypeError [ERR_INVALID_ARG_TYPE]: The first argument must be of type string or an instance of Buffer, ArrayBuffer, or Array or an Array-like Object."
      end
  | None => throw "TypeError [ERR_INVALID_ARG_TYPE]: The first argument must be of type string or an instance of Buffer, ArrayBuffer, or Array or an Array-like Object."
  end.
End WithPlatform.

(** A mu-law coder after G.711, to run the examples. *)
Definition g711_encodeSample (sample : Z) : Z :=
  let sign := if (sample <? 0)%Z then 128 else 0 in
  let magnitude := Z.min (Z.abs sample + 132) 32635 in
  let exponent := Z.log2 (magnitude / 128) in
  let mantissa := (magnitude / 2 ^ (exponent + 3)) mod 16 in
  255 - (sign + exponent * 16 + mantissa).

Definition g711_decodeSample (byte : Z) : Z :=
  let u := 255 - byte mod 256 in
  let sign := u / 128 in
  let exponent := (u / 16) mod 8 in
  let mantissa := u mod 16 in
  let magnitude := (mantissa * 2 + 33) * 2 ^ (exponent + 2) - 132 in
  if (sign =? 1)%Z then - magnitude else magnitude.

Definition node : Platform :=
  {| mulaw_encodeSample := g711_encodeSample;
     mulaw_decodeSample := g711_decodeSample;
     Buffer_from_object := fun _ => None |}.

(** * Audio framing and the provider integrations *)

Definition CHUNK_SIZE_BYTES : nat := 640.
Definition SAMPLES_PER_CHUNK : nat := CHUNK_SIZE_BYTES / 2.

(** [JSON.parse(msg.toString())] *)
Definition JSON_parse (msg : Inbound) : M JsValue :=
  match parsed msg with
  | Some j => ret (Some j)
  | None => throw "SyntaxError: Unexpected token in JSON"
  end.

(** The framing loop shared by both servers:
    [while (offset + SAMPLES_PER_CHUNK <= samples.length)], each chunk
    sent to every open client; it returns the final [offset].  The loop
    is run on fuel; [Blocked] stands for fuel that ran out. *)
Fixpoint sendChunks (fuel : nat) (samples : list Z) (clients : list WebSocket)
    (offset : nat) : M nat :=
  match fuel with
  | O => fun w => (Blocked, w, [])
  | S fuel =>
      if (offset + SAMPLES_PER_CHUNK <=? length samples)%nat then
        let chunk := slice samples offset (offset + SAMPLES_PER_CHUNK) in
        sendToOpen clients (WPcm chunk);;
        sendChunks fuel samples clients (offset + SAMPLES_PER_CHUNK)
      else ret offset
  end.

(** [resample16kHzTo8kHz], the same private method in the Genesys and
    Twilio integrations. *)
Definition resample16kHzTo8kHz (pcmSamples : list Z) : list Z :=
  let outputLength := Nat.div2 (S (length pcmSamples)) in
  map (fun i => nth (i * 2) pcmSamples 0%Z) (seq 0 outputLength).

Module Browser.
Section WithPlatform.
Context {P : Platform}.

Definition tryProcessAudioInput (isOn : bool) (msg : Inbound)
    (conversation : Conversation) : M unit :=
  if negb isOn then ret tt else
  try_catch
    (jsonMsg <- JSON_parse msg;;
     event <- prop jsonMsg "event";;
     audioInput <- prop event "audioInput";;
     content <- prop audioInput "content";;
     audioBuffer <- Buffer_from_base64 content;;
     await (streamAudio (handle conversation) audioBuffer))
    (fun e => ret tt).

Definition audioOutputEnvelope (data : list (string * Json)) : Wire :=
  WText (JObj [("event", JObj [("audioOutput", JObj data)])]).

Definition tryProcessAudioOutput (isOn : bool) (data : list (string * Json))
    (clients : list WebSocket) : M unit :=
  if negb isOn then ret tt else
  log LBrowser29;;
  sendToOpen clients (audioOutputEnvelope data).
End WithPlatform.
End Browser.

Module Vonage.

Definition processAudioData (isOn : bool) (message : Inbound)
    (session : Conversation) : M unit :=
  if negb isOn then ret tt else
  try_catch
    (let audioBuffer := raw message in
     await (streamAudio (handle session) audioBuffer))
    (fun error => log (LVonageError error)).

End Vonage.

Module Genesys.
Section WithPlatform.
Context {P : Platform}.

Definition onConnect (jsonMsg : JsValue) (session : Conversation) : M unit :=
  streamId <- prop jsonMsg "streamId";;
  callId <- prop jsonMsg "callId";;
  emit (EAssign (handle session) "streamId" (js_or streamId callId));;
  log (LGenesysStarted (js_or streamId callId)).

Definition onAudio (jsonMsg : JsValue) (session : Conversation) : M unit :=
  audio <- prop jsonMsg "audio";;
  payload <- (if truthy audio then prop audio "payload" else ret audio);;
  if truthy audio && truthy payload then
    audioInput <- Buffer_from_base64 payload;;
    let pcmSamples := mulaw_decode audioInput in
    let audioBuffer := bytesOfInt16 pcmSamples in
    await (streamAudio (handle session) audioBuffer)
  else
    log (LGenesysInvalidPayload (default JNull jsonMsg)).

Definition onError (jsonMsg : JsValue) (session : Conversation) : M unit :=
  error <- prop jsonMsg "error";;
  log (LGenesysError (js_or error (Some (JStr "Unknown error")))).

Definition messageHandlers : list (string * (JsValue -> Conversation -> M unit)) :=
  [("connect", onConnect); ("audio", onAudio); ("error", onError)].

Definition tryProcessAudioInput (isOn : bool) (msg : Inbound)
    (session : Conversation) : M unit :=
  if negb isOn then ret tt else
  try_catch
    (data <- JSON_parse msg;;
     event <- prop data "event";;
     type <- prop data "type";;
     let eventType := js_or event type in
     match Map_get messageHandlers eventType with
     | Some handler => handler data session
     | None => log (LGenesysUnclassified (default JNull data))
     end)
    (fun error => log (LGenesysInputError error)).

Definition response (payload : string) (streamId : option string) : Json :=
  JObj ([("event", JStr "audio");
         ("audio", JObj [("track", JStr "outbound"); ("payload", JStr payload)])]
        ++ match streamId with
           | Some sid => [("streamId", JStr sid)]
           | None => []
           end).

Definition encodeOutbound (pcmSamples : list Z) (streamId : option string) : Json :=
  let resampledPcmSamples := resample16kHzTo8kHz pcmSamples in
  let mulawSamples := mulaw_encode resampledPcmSamples in
  let payload := toBase64 mulawSamples in
  response payload streamId.

Definition tryProcessAudioOutput (isOn : bool) (pcmSamples : list Z)
    (clients : list WebSocket) (streamId : option string) : M unit :=
  if negb isOn then ret tt else
  try_catch
    (let response := encodeOutbound pcmSamples streamId in
     log (LGenesysResponse response);;
     sendToOpen clients (WText response))
    (fun e => log (LGenesysOutputError e)).
End WithPlatform.
End Genesys.

(** The Twilio and Vonage integrations as the main server sees them:
    the members it uses. *)
Record TwilioIntegration : Type := {
  twilio_isOn : bool;
  twilio_tryProcessAudioInput : Inbound -> Conversation -> M unit;
  twilio_tryProcessAudioOutput : list Z -> list WebSocket -> option string -> M unit;
}.

Record VonageIntegration : Type := {
  vonage_isOn : bool;
  vonage_tryProcessAudioInput : Inbound -> Conversation -> M unit;
}.


(** Modelled from the spec: the Vonage adapter of the main server
    ("raw binary canonical PCM frames, no resampling"); its inbound
    operation is the [processAudioData] of the Vonage integration at
    hand under the name the main server calls. *)
Definition vonage_modelled (isOn : bool) : VonageIntegration :=
  {| vonage_isOn := isOn;
     vonage_tryProcessAudioInput := Vonage.processAudioData isOn |}.
(** ** [Set<WebSocket>] *)

Definition set_add (ws : WebSocket) (s : list WebSocket) : list WebSocket :=
  if decide (ws ∈ s) then s else s ++ [ws].

Definition set_delete (ws : WebSocket) (s : list WebSocket) : list WebSocket :=
  filter (fun c => c ≠ ws) s.

(** JS truthiness of a channel id read from a [Map]: [undefined] and the
    empty string are falsy. *)
Definition truthy_id (o : option string) : option string :=
  match o with
  | Some "" => None
  | other => other
  end.

(** * The main server *)
Module Main.

Definition set_channelConversations (f : gmap string Conversation -> gmap string Conversation)
    (s : Server) : Server :=
  {| channelConversations := f (channelConversations s);
     channelClients := channelClients s;
     clientChannels := clientChannels s |}.

Definition set_channelClients (f : gmap string (list WebSocket) -> gmap string (list WebSocket))
    (s : Server) : Server :=
  {| channelConversations := channelConversations s;
     channelClients := f (channelClients s);
     clientChannels := clientChannels s |}.

Definition set_clientChannels (f : gmap WebSocket string -> gmap WebSocket string)
    (s : Server) : Server :=
  {| channelConversations := channelConversations s;
     channelClients := channelClients s;
     clientChannels := f (clientChannels s) |}.

(** [sendError] of the socket handler. *)
Definition errorEvent (message details : string) : Wire :=
  WText (JObj [("event", JStr "error");
               ("data", JObj [("message", JStr message); ("details", JStr details)])]).

Definition sendError (ws : WebSocket) (message details : string) : M unit :=
  log (LSendingError message details);;
  emit (ESend ws (errorEvent message details)).

(** Modelled from the spec: [bedrockClient.createConversation] of
    [./client], which is not among the sources.  Following "allocate a
    Conversation Handle via the Lifecycle Controller", every call
    hands out a new object for the id it is given. *)
Definition newConversation (conversationId : string) (ws : WebSocket) : M Conversation :=
  h <- gets nextHandle;;
  modify (set_nextHandle (S h));;
  call (createConversation conversationId ws h);;
  ret {| handle := h; id := conversationId; twilioStreamSid := None |}.

Definition sessionReady (conversationId : string) (isNewChannel : bool) : Wire :=
  WText (JObj [("event", JStr "sessionReady");
               ("message", JStr ("Connected to channel " ++ conversationId)%string);
               ("isNewChannel", JBool isNewChannel)]).

(** [channelConversations.set(...); channelClients.set(..., new Set())] *)
Definition register (conversation : Conversation) : M unit :=
  modify (set_server (set_channelConversations <[id conversation := conversation]>));;
  modify (set_server (set_channelClients <[id conversation := []]>)).

(** "Add this client to the channel" and the [sessionReady] notice. *)
Definition attach (ws : WebSocket) (conversation : Conversation) (isNewChannel : bool)
    : M unit :=
  clients <- gets (fun w => channelClients (server w) !! id conversation);;
  match clients with
  | None => throw "TypeError: Cannot read properties of undefined (reading 'add')"
  | Some clients =>
      let clients := set_add ws clients in
      modify (set_server (set_channelClients <[id conversation := clients]>));;
      modify (set_server (set_clientChannels <[ws := id conversation]>));;
      log (LChannelHas (id conversation) (length clients));;
      emit (ESend ws (sessionReady (id conversation) isNewChannel))
  end.

(** The [catch] of [initializeOrJoinChannel]. *)
Definition joinFailed (ws : WebSocket) (error : string) : M unit :=
  sendError ws "Failed to initialize or join channel" error;;
  emit (EWsClose ws).

(** [initializeOrJoinChannel], run without interruption. *)
Definition initializeOrJoinChannel (ws : WebSocket) (conversationId : string) : M unit :=
  try_catch
    (existing <- gets (fun w => channelConversations (server w) !! conversationId);;
     match existing with
     | Some conversation =>
         log (LJoiningExisting conversationId);;
         attach ws conversation false
     | None =>
         log (LCreatingNew conversationId);;
         conversation <- newConversation conversationId ws;;
         await (startSession (handle conversation));;
         register conversation;;
         attach ws conversation true
     end)
    (joinFailed ws).

(** *** Interleaved joins

    [initializeOrJoinChannel] is an [async] function with a single
    suspension point, [await conversation.startSession()].  Handlers
    of other connections run while it is suspended there.  A join is
    therefore a task of two segments: from the arrival of the
    connection to the suspension, and from the settlement of the
    promise to the end. *)
Inductive JoinTask : Type :=
| Arrived (ws : WebSocket) (conversationId : string)
| Starting (ws : WebSocket) (conversation : Conversation)
| Stuck (ws : WebSocket) (conversation : Conversation)
| Joined (ws : WebSocket) (conversation : Conversation)
| Failed (ws : WebSocket).

(** First segment: up to and including the call of [startSession]. *)
Definition begin (ws : WebSocket) (conversationId : string) : M JoinTask :=
  try_catch
    (existing <- gets (fun w => channelConversations (server w) !! conversationId);;
     match existing with
     | Some conversation =>
         log (LJoiningExisting conversationId);;
         attach ws conversation false;;
         ret (Joined ws conversation)
     | None =>
         log (LCreatingNew conversationId);;
         conversation <- newConversation conversationId ws;;
         emit (EEngine (startSession (handle conversation)));;
         ret (Starting ws conversation)
     end)
    (fun error => joinFailed ws error;; ret (Failed ws)).

(** Second segment: the promise of [startSession] settles. *)
Definition resume (ws : WebSocket) (conversation : Conversation) : M JoinTask :=
  fun w =>
    let '(o, w1) := next_outcome w in
    match o with
    | Settles d =>
        try_catch
          (register conversation;;
           attach ws conversation true;;
           ret (Joined ws conversation))
          (fun error => joinFailed ws error;; ret (Failed ws))
          (set_now (now w1 + Z.of_N d) w1)
    | Rejects d e =>
        (joinFailed ws e;; ret (Failed ws)) (set_now (now w1 + Z.of_N d) w1)
    | Never => (Done (Stuck ws conversation), w1, [])
    end.

Definition runTask (task : JoinTask) : M JoinTask :=
  match task with
  | Arrived ws conversationId => begin ws conversationId
  | Starting ws conversation => resume ws conversation
  | other => ret other
  end.

(** The event loop: the world, the joins in flight, the effects so
    far. *)
Record Loop : Type := {
  world : World;
  tasks : list JoinTask;
  history : list Effect;
}.

(** The event loop runs the next segment of task [i]. *)
Definition turn (i : nat) (l : Loop) : Loop :=
  match tasks l !! i with
  | None => l
  | Some task =>
      match runTask task (world l) with
      | (Done task', w, t) =>
          {| world := w; tasks := <[i := task']> (tasks l); history := history l ++ t |}
      | (_, w, t) =>
          {| world := w; tasks := tasks l; history := history l ++ t |}
      end
  end.

Definition turns (schedule : list nat) (l : Loop) : Loop :=
  fold_left (fun l i => turn i l) schedule l.

(** The graceful sequence raced against the timer in [handleClose]:
    the calls that the [async] function of the race awaits in turn. *)
Definition graceful (session : Conversation) : list EngineCall :=
  [endAudioContent (handle session);
   endPrompt (handle session);
   close (handle session)].

(** The [catch] block of the teardown: the close by id on the engine
    client, itself in a [try] that only logs. *)
Definition fallback (conversationId : string) (error : string) : M unit :=
  log (LErrorCleaningUp conversationId error);;
  try_catch
    (call (closeSession conversationId);;
     log (LForceClosed conversationId))
    (fun e => log (LFailedForceClose conversationId e)).

(** The [try { await Promise.race([...]) } catch { ... }] block of
    [handleClose]: the graceful sequence against a 3000 ms timer. *)
Definition cleanup (conversationId : string) (session : Conversation) : M unit :=
  try_catch
    (race_timeout 3000 "Error: Session cleanup timeout" (graceful session);;
     log (LCleanedUp conversationId))
    (fallback conversationId).

(** The body of [if (clients.size === 0) { ... }] in [handleClose]. *)
Definition lastClientLeft (conversationId : string) : M unit :=
  log (LLastClientLeft conversationId);;
  session <- gets (fun w => channelConversations (server w) !! conversationId);;
  match session with
  | Some session =>
      active <- gets (fun w => isSessionActive w conversationId);;
      when active (cleanup conversationId session)
  | None => ret tt
  end;;
  modify (set_server (set_channelConversations (delete conversationId)));;
  modify (set_server (set_channelClients (delete conversationId))).

(** [handleClose], the [close] listener of a socket. *)
Definition handleClose (ws : WebSocket) : M unit :=
  conversationId <- gets (fun w => truthy_id (clientChannels (server w) !! ws));;
  match conversationId with
  | None => log LNoChannelToCleanUp
  | Some conversationId =>
      clients <- gets (fun w => channelClients (server w) !! conversationId);;
      match clients with
      | Some clients =>
          let clients := set_delete ws clients in
          modify (set_server (set_channelClients <[conversationId := clients]>));;
          log (LClientDisconnected conversationId (length clients));;
          when (length clients =? 0)%nat (lastClientLeft conversationId)
      | None => ret tt
      end;;
      modify (set_server (set_clientChannels (delete ws)))
  end.

(** The idle sweep: the callback of [setInterval(..., 60000)]. *)
Definition sweepPeriodMs : Z := 60000.
Definition fiveMinsInMs : Z := 5 * 60 * 1000.

Definition sweep_one (now : Z) (sessionId : string) : M unit :=
  lastActivity <- gets (fun w => getLastActivityTime w sessionId);;
  when (fiveMinsInMs <? now - lastActivity)%Z (
    log (LClosingInactive sessionId);;
    try_catch
      (call (closeSession sessionId))
      (fun error => log (LErrorForceClosing sessionId error))).

Definition sweep : M unit :=
  log LCleanupCheck;;
  now <- gets now;;
  sessions <- gets getActiveSessions;;
  forEach (sweep_one now) sessions.

Section Integrations.
Context {P : Platform}.
(** [browser.isOn], and the two integrations that the server is given. *)
Variable browser_isOn : bool.
Variable vonage : VonageIntegration.
Variable twilio : TwilioIntegration.

(** [channelClients.get(conversation.id) || new Set()] *)
Definition clientsOf (conversationId : string) : M (list WebSocket) :=
  gets (fun w => default [] (channelClients (server w) !! conversationId)).

(** The listener installed by [handleConversationEvent]. *)
Definition onConversationEvent (conversation : Conversation) (eventName : string)
    (isError : bool) (data : list (string * Json)) : M unit :=
  log (LEvent eventName isError);;
  clients <- clientsOf (id conversation);;
  let message := WText (JObj [("event", JObj [(eventName, JObj data)])]) in
  sendToOpen clients message.

(** The listener of [streamComplete]. *)
Definition onStreamComplete (conversation : Conversation) : M unit :=
  log (LStreamCompleted (id conversation));;
  clients <- clientsOf (id conversation);;
  let message := WText (JObj [("event", JStr "streamComplete")]) in
  sendToOpen clients message.

(** The listener of [audioOutput]. *)
Definition onAudioOutput (conversation : Conversation)
    (data : list (string * Json)) : M unit :=
  clients <- clientsOf (id conversation);;
  buffer <- Buffer_from_base64 (assoc "content" data);;
  let pcmSamples := int16View buffer in
  sendChunks (S (length pcmSamples)) pcmSamples clients 0;;
  when (twilio_isOn twilio)
    (spawn (twilio_tryProcessAudioOutput twilio pcmSamples clients
              (twilioStreamSid conversation)));;
  when browser_isOn
    (spawn (Browser.tryProcessAudioOutput browser_isOn data clients)).

Definition handlePromptStart (jsonMsg : JsValue) (conversation : Conversation) : M unit :=
  await (setupPromptStart (handle conversation)).

Definition handleSystemPrompt (jsonMsg : JsValue) (conversation : Conversation) : M unit :=
  data <- prop jsonMsg "data";;
  await (setupSystemPrompt (handle conversation) data).

Definition handleAudioStart (jsonMsg : JsValue) (conversation : Conversation) : M unit :=
  await (setupStartAudio (handle conversation)).

Definition handleStopAudio (jsonMsg : JsValue) (conversation : Conversation) : M unit :=
  await (endAudioContent (handle conversation));;
  await (endPrompt (handle conversation)).

Definition novaSonicHandlers : list (string * (JsValue -> Conversation -> M unit)) :=
  [("promptStart", handlePromptStart); ("systemPrompt", handleSystemPrompt);
   ("audioStart", handleAudioStart); ("stopAudio", handleStopAudio)].

Definition tryProcessNovaSonicMessage (msg : Inbound) (conversation : Conversation)
    : M unit :=
  try_catch
    (jsonMsg <- JSON_parse msg;;
     type <- prop jsonMsg "type";;
     match Map_get novaSonicHandlers type with
     | Some handler => handler jsonMsg conversation
     | None => ret tt
     end)
    (fun e => ret tt).

(** [handleMessage], the [message] listener of a socket. *)
Definition handleMessage (ws : WebSocket) (msg : Inbound) : M unit :=
  conversationId <- gets (fun w => truthy_id (clientChannels (server w) !! ws));;
  match conversationId with
  | None => sendError ws "Channel not found" "No active channel for this connection"
  | Some conversationId =>
      conversation <- gets (fun w => channelConversations (server w) !! conversationId);;
      match conversation with
      | None =>
          sendError ws "Conversation not found"
            "No active conversation for this channel"
      | Some conversation =>
          try_catch
            (when browser_isOn
               (Browser.tryProcessAudioInput browser_isOn msg conversation);;
             when (vonage_isOn vonage)
               (vonage_tryProcessAudioInput vonage msg conversation);;
             when (twilio_isOn twilio)
               (twilio_tryProcessAudioInput twilio msg conversation);;
             tryProcessNovaSonicMessage msg conversation)
            (fun error => sendError ws "Error processing message" error)
      end
  end.
End Integrations.

End Main.

(** * The legacy server *)
Module Legacy.

(** The idle sweep: the callback of [setInterval(..., 60000)]. *)
Definition sweepPeriodMs : Z := 60000.
Definition fiveMinsInMs : Z := 5 * 60 * 1000.

Definition sweep_one (now : Z) (sessionId : string) : M unit :=
  lastActivity <- gets (fun w => getLastActivityTime w sessionId);;
  when (fiveMinsInMs <? now - lastActivity)%Z (
    log (LClosingInactive sessionId);;
    try_catch
      (call (forceCloseSession sessionId))
      (fun error => log (LErrorForceClosing sessionId error))).

Definition sweep : M unit :=
  log LCleanupCheck;;
  now <- gets now;;
  sessions <- gets getActiveSessions;;
  forEach (sweep_one now) sessions.

(** [sendError] of the socket handler (its console line is commented
    out in this server). *)
Definition sendError (ws : WebSocket) (message details : string) : M unit :=
  emit (ESend ws (Main.errorEvent message details)).

Definition joinFailed (ws : WebSocket) (error : string) : M unit :=
  sendError ws "Failed to initialize or join channel" error;;
  emit (EWsClose ws).

Definition systemPrompt : string :=
  "You are Telly, an AI assistant having a voice conversation. Keep responses concise and conversational. You can help this customer with lots of things, including getting their account info, managing billing, and doing device trade-ins".

(** [bedrockClient.createStreamSession(channelId)]: the session object
    of [./client], told apart by [handle] like a conversation. *)
Definition newStreamSession (channelId : string) : M Conversation :=
  h <- gets nextHandle;;
  modify (set_nextHandle (S h));;
  call (createStreamSession channelId);;
  ret {| handle := h; id := channelId; twilioStreamSid := None |}.

(** The synchronous part of the creation branch: the session is put
    into [channelStreams] (held in the field [channelConversations])
    before the first [await]. *)
Definition create (channelId : string) : M Conversation :=
  log (LCreatingNew channelId);;
  session <- newStreamSession channelId;;
  call (initiateSession channelId);;
  Main.register session;;
  ret session.

(** [initializeOrJoinChannel], run without interruption. *)
Definition initializeOrJoinChannel (ws : WebSocket) (channelId : string) : M unit :=
  try_catch
    (existing <- gets (fun w => channelConversations (server w) !! channelId);;
     match existing with
     | Some session =>
         log (LJoiningExisting channelId);;
         Main.attach ws session false
     | None =>
         session <- create channelId;;
         await (setupPromptStart (handle session));;
         await (setupSystemPrompt (handle session) (Some (JStr systemPrompt)));;
         await (setupStartAudio (handle session));;
         Main.attach ws session true
     end)
    (joinFailed ws).

(** *** Interleaved joins

    The creation branch has three suspension points; [Awaiting k]
    is a join suspended on the [k]-th of them. *)
Inductive JoinTask : Type :=
| Arrived (ws : WebSocket) (channelId : string)
| Awaiting (k : nat) (ws : WebSocket) (session : Conversation)
| Stuck (ws : WebSocket) (session : Conversation)
| Joined (ws : WebSocket) (session : Conversation)
| Failed (ws : WebSocket).

Definition begin (ws : WebSocket) (channelId : string) : M JoinTask :=
  try_catch
    (existing <- gets (fun w => channelConversations (server w) !! channelId);;
     match existing with
     | Some session =>
         log (LJoiningExisting channelId);;
         Main.attach ws session false;;
         ret (Joined ws session)
     | None =>
         session <- create channelId;;
         emit (EEngine (setupPromptStart (handle session)));;
         ret (Awaiting 0 ws session)
     end)
    (fun error => joinFailed ws error;; ret (Failed ws)).

(** What follows the [k]-th suspension point once its promise has
    settled. *)
Definition continue (k : nat) (ws : WebSocket) (session : Conversation) : M JoinTask :=
  match k with
  | 0%nat =>
      emit (EEngine (setupSystemPrompt (handle session) (Some (JStr systemPrompt))));;
      ret (Awaiting 1 ws session)
  | 1%nat =>
      emit (EEngine (setupStartAudio (handle session)));;
      ret (Awaiting 2 ws session)
  | _ =>
      try_catch
        (Main.attach ws session true;; ret (Joined ws session))
        (fun error => joinFailed ws error;; ret (Failed ws))
  end.

Definition resume (k : nat) (ws : WebSocket) (session : Conversation) : M JoinTask :=
  fun w =>
    let '(o, w1) := next_outcome w in
    match o with
    | Settles d => continue k ws session (set_now (now w1 + Z.of_N d) w1)
    | Rejects d e =>
        (joinFailed ws e;; ret (Failed ws)) (set_now (now w1 + Z.of_N d) w1)
    | Never => (Done (Stuck ws session), w1, [])
    end.

Definition runTask (task : JoinTask) : M JoinTask :=
  match task with
  | Arrived ws channelId => begin ws channelId
  | Awaiting k ws session => resume k ws session
  | other => ret other
  end.

Record Loop : Type := {
  world : World;
  tasks : list JoinTask;
  history : list Effect;
}.

Definition turn (i : nat) (l : Loop) : Loop :=
  match tasks l !! i with
  | None => l
  | Some task =>
      match runTask task (world l) with
      | (Done task', w, t) =>
          {| world := w; tasks := <[i := task']> (tasks l); history := history l ++ t |}
      | (_, w, t) =>
          {| world := w; tasks := tasks l; history := history l ++ t |}
      end
  end.

Definition turns (schedule : list nat) (l : Loop) : Loop :=
  fold_left (fun l i => turn i l) schedule l.

Section WithPlatform.
Context {P : Platform}.

Definition useVonage : bool := true.
Definition useJson : bool := true.

(** The listener of [audioOutput].  [audioBuffer] is a variable of
    the listener itself; the value it holds when the listener
    returns is the result here. *)
Definition onAudioOutput (channelId : string) (data : list (string * Json))
    : M (option (list Z)) :=
  let audioBuffer : option (list Z) := None in
  buffer <- Buffer_from_base64 (assoc "content" data);;
  let newPcmSamples := int16View buffer in
  clients <- gets (fun w => default [] (channelClients (server w) !! channelId));;
  when useJson
    (sendToOpen clients (WText (JObj [("event", JObj [("audioOutput", JObj data)])])));;
  if useVonage then
    let combinedSamples :=
      match audioBuffer with
      | Some audioBuffer => audioBuffer ++ newPcmSamples
      | None => newPcmSamples
      end in
    offset <- sendChunks (S (length combinedSamples)) combinedSamples clients 0;;
    ret (if (offset <? length combinedSamples)%nat
         then Some (slice combinedSamples offset (length combinedSamples))
         else None)
  else ret audioBuffer.
End WithPlatform.

End Legacy.

(** * Vocabulary of the properties *)

(** The engine calls of a trace, in order. *)
Definition engine_calls (t : list Effect) : list EngineCall :=
  omap (fun e => match e with EEngine c => Some c | _ => None end) t.

(** The frames sent in a trace, in order, with their destination. *)
Definition sends (t : list Effect) : list (WebSocket * Wire) :=
  omap (fun e => match e with ESend ws m => Some (ws, m) | _ => None end) t.

(** The console lines of a trace. *)
Definition logs (t : list Effect) : list LogLine :=
  omap (fun e => match e with ELog l => Some l | _ => None end) t.

(** The sockets closed by the server in a trace. *)
Definition closes (t : list Effect) : list WebSocket :=
  omap (fun e => match e with EWsClose ws => Some ws | _ => None end) t.

(** The graceful sequence of a conversation. *)
Definition graceful_calls (session : Conversation) : list EngineCall :=
  [endAudioContent (handle session); endPrompt (handle session);
   close (handle session)].

(** What is left of a time budget once a call has settled, if it
    settles before the budget is spent. *)
Definition within (budget : Z) (o : Outcome) : option Z :=
  match o with
  | Settles d => if (Z.of_N d <? budget)%Z then Some (budget - Z.of_N d) else None
  | _ => None
  end.

(** The next three engine calls all settle, in less than 3000 ms
    together. *)
Definition graceful_completes (w : World) : bool :=
  match within 3000 (outcome_at 0 w) with
  | Some b1 =>
      match within b1 (outcome_at 1 w) with
      | Some b2 => bool_decide (is_Some (within b2 (outcome_at 2 w)))
      | None => false
      end
  | None => false
  end.



(** Two worlds that differ at most in the outcomes still to come. *)
Definition same_but_tape (w w' : World) : Prop :=
  server w' = server w /\ readyState w' = readyState w /\
  isSessionActive w' = isSessionActive w /\
  getActiveSessions w' = getActiveSessions w /\
  getLastActivityTime w' = getLastActivityTime w /\
  nextHandle w' = nextHandle w /\ now w' = now w /\ deadline w' = deadline w /\
  detached w' = detached w.

(** The conversations created for a channel id in a trace: the handles
    handed out by [createConversation]. *)
Definition created (channel : string) (t : list Effect) : list nat :=
  omap (fun e =>
          match e with
          | EEngine (createConversation c _ h) =>
              if decide (c = channel) then Some h else None
          | _ => None
          end) t.

(** The stream sessions created for a channel id in a trace (legacy
    server). *)
Definition created_sessions (channel : string) (t : list Effect) : nat :=
  length (List.filter (fun e =>
            match e with
            | EEngine (createStreamSession c) => bool_decide (c = channel)
            | _ => false
            end) t).

(** The clients of a set whose socket is open, in the order of the set. *)
Definition openClients (w : World) (clients : list WebSocket) : list WebSocket :=
  List.filter (fun c => (readyState w c =? ReadyState.OPEN)%Z) clients.

(** Each message of a list, in order, delivered to each open client. *)
Definition deliveries (w : World) (clients : list WebSocket) (messages : list Wire)
    : list (WebSocket * Wire) :=
  flat_map (fun m => map (fun c => (c, m)) (openClients w clients)) messages.

(** The [i]-th complete 320-sample chunk of an array, and all of them. *)
Definition chunkAt (samples : list Z) (i : nat) : list Z :=
  slice samples (i * SAMPLES_PER_CHUNK) (i * SAMPLES_PER_CHUNK + SAMPLES_PER_CHUNK).

Definition chunksOf (samples : list Z) : list (list Z) :=
  map (chunkAt samples) (seq 0 (length samples / SAMPLES_PER_CHUNK)).

Definition isByte (b : Z) : Prop := (0 <= b < 256)%Z.

(** The clients of a channel as the listeners read them. *)
Definition clientsIn (w : World) (channel : string) : list WebSocket :=
  default [] (channelClients (server w) !! channel).

(** The binary PCM frames sent to client [c] in a trace, in order. *)
Definition pcmFramesTo (c : WebSocket) (t : list Effect) : list (list Z) :=
  omap (fun '(c', m) =>
          match m with
          | WPcm frame => if decide (c' = c) then Some frame else None
          | WText _ => None
          end) (sends t).

(** The text frames sent to client [c] in a trace, in order. *)
Definition textFramesTo (c : WebSocket) (t : list Effect) : list Json :=
  omap (fun '(c', m) =>
          match m with
          | WText j => if decide (c' = c) then Some j else None
          | WPcm _ => None
          end) (sends t).

(** The trace of a run. *)
Definition trace_of {A} (run : Result A * World * list Effect) : list Effect := run.2.

(** The output framer as the specification words it: the samples that
    do not fill a frame are kept in one buffer per channel and come
    first when the next event is framed. *)
Fixpoint spec_framer (carry : list Z) (events : list (list Z)) : list (list Z) :=
  match events with
  | [] => []
  | newSamples :: rest =>
      let combined := carry ++ newSamples in
      let sent := (length combined / SAMPLES_PER_CHUNK * SAMPLES_PER_CHUNK)%nat in
      chunksOf combined ++ spec_framer (drop sent combined) rest
  end.

(** The [audioOutput] payload that carries the given samples. *)
Definition audioOutputOf (samples : list Z) : list (string * Json) :=
  [("content", JStr (toBase64 (bytesOfInt16 samples)))].

(** Every frame of the trace went to a socket that was open. *)
Definition onlyToOpen (w : World) (t : list Effect) : Prop :=
  forall c m, (c, m) ∈ sends t -> readyState w c = ReadyState.OPEN.

(** Every message of the trace reached every open client of the set. *)
Definition reachesAllOpen (w : World) (clients : list WebSocket) (t : list Effect) : Prop :=
  forall c m, (c, m) ∈ sends t ->
    forall c', c' ∈ clients -> readyState w c' = ReadyState.OPEN -> (c', m) ∈ sends t.

(** The result of a run. *)
Definition result_of {A} (run : Result A * World * list Effect) : Result A := run.1.1.

(** A handler that lets no exception out, whatever the world. *)
Definition noThrow {A} (m : M A) : Prop :=
  forall w e, result_of (m w) <> Thrown e.

(** A handler that closes no socket, whatever the world. *)
Definition noClose {A} (m : M A) : Prop :=
  forall w, closes (trace_of (m w)) = [].

(** An engine that refuses no call. *)
Definition neverRejects (w : World) : Prop :=
  Forall (fun o => match o with Rejects _ _ => False | _ => True end) (tape w).

(** A join of the legacy server for channel [c] that is consistent with
    the session registered for [c], if any. *)
Definition legacyTaskOf (c : string) (registered : option Conversation)
    (task : Legacy.JoinTask) : Prop :=
  match task with
  | Legacy.Arrived _ c' => c' = c
  | Legacy.Awaiting _ _ s | Legacy.Stuck _ s | Legacy.Joined _ s => registered = Some s
  | Legacy.Failed _ => False
  end.

(** The invariant of the joins to one channel in the legacy server: as
    long as the channel is not registered no session has been created
    for it, and from then on exactly one has, which every join that is
    past its first segment holds. *)
Definition legacyJoins (c : string) (l : Legacy.Loop) : Prop :=
  let w := Legacy.world l in
  neverRejects w /\
  Forall (legacyTaskOf c (channelConversations (server w) !! c)) (Legacy.tasks l) /\
  match channelConversations (server w) !! c with
  | None => created_sessions c (Legacy.history l) = 0%nat
  | Some s =>
      id s = c /\ is_Some (channelClients (server w) !! c) /\
      created_sessions c (Legacy.history l) = 1%nat
  end.

(** * Concrete worlds used by the examples *)

Definition conv (h : nat) (channel : string) : Conversation :=
  {| handle := h; id := channel; twilioStreamSid := None |}.

Definition empty_server : Server :=
  {| channelConversations := ∅; channelClients := ∅; clientChannels := ∅ |}.

(** Channel ["c1"] with conversation 0 and the single client 7. *)
Definition one_client_server : Server :=
  {| channelConversations := {[ "c1" := conv 0 "c1" ]};
     channelClients := {[ "c1" := [7%nat] ]};
     clientChannels := {[ 7%nat := "c1" ]} |}.

Definition world_of (s : Server) (active : string -> bool) (outcomes : list Outcome) : World :=
  {| server := s;
     readyState := fun _ => ReadyState.OPEN;
     isSessionActive := active;
     getActiveSessions := [];
     getLastActivityTime := fun _ => 0;
     tape := outcomes;
     nextHandle := 1;
     now := 1000000;
     deadline := None;
     detached := [] |}.


(** Sockets 1 and 2 both ask for channel c1, which does not exist; the
    engine answers every call at once. *)
Definition two_joins : Main.Loop :=
  {| Main.world := world_of empty_server (fun _ => true) [];
     Main.tasks := [Main.Arrived 1%nat "c1"; Main.Arrived 2%nat "c1"];
     Main.history := [] |}.

Definition two_joins_legacy : Legacy.Loop :=
  {| Legacy.world := world_of empty_server (fun _ => true) [];
     Legacy.tasks := [Legacy.Arrived 1%nat "c1"; Legacy.Arrived 2%nat "c1"];
     Legacy.history := [] |}.

(** Two events of 480 samples each: 0, 1, ..., 479 and 1000, ..., 1479. *)
Definition samples1 : list Z := map Z.of_nat (seq 0 480).
Definition samples2 : list Z := map Z.of_nat (seq 1000 480).

(** One event of 640 samples (1280 bytes): two canonical frames. *)
Definition samples640 : list Z := map Z.of_nat (seq 0 640).

(** Channel c1 with conversation 0 and the clients 1 and 2. *)
Definition two_client_server : Server :=
  {| channelConversations := {[ "c1" := conv 0 "c1" ]};
     channelClients := {[ "c1" := [1%nat; 2%nat] ]};
     clientChannels := {[ 1%nat := "c1"; 2%nat := "c1" ]} |}.

(** The providers of the specification's data model, and a channel in
    which socket 1 is a Twilio caller and socket 2 a Vonage caller. *)
Inductive Provider : Type := BrowserClient | VonageClient | TwilioClient | GenesysClient.

(** Vonage takes the raw canonical frames; the others need framing of
    their own. *)
Definition consumesCanonical (p : Provider) : bool :=
  match p with VonageClient => true | _ => false end.

Definition providerOf (c : WebSocket) : Provider :=
  if decide (c = 1%nat) then TwilioClient else VonageClient.

(** A frame that [JSON.parse] rejects. *)
Definition garbage : Inbound := {| raw := [1; 2; 3]; parsed := None |}.

(** A frame that parses but has none of the expected fields. *)
Definition mismatched : Inbound :=
  {| raw := []; parsed := Some (JObj [("hello", JStr "world")]) |}.

(** Channel c1 with clients 1 and 2, of which socket 2 is closed. *)
Definition one_closed_world : World :=
  {| server := two_client_server;
     readyState := fun c => if decide (c = 2%nat) then ReadyState.CLOSED else ReadyState.OPEN;
     isSessionActive := fun _ => true;
     getActiveSessions := ["c1"];
     getLastActivityTime := fun _ => 0;
     tape := [];
     nextHandle := 1;
     now := 0;
     deadline := None;
     detached := [] |}.

(** The same two joins against an engine that refuses the second
    [startSession] (outcomes in the order of the calls: the two
    [createConversation], then the two [startSession]). *)
Definition two_joins_second_refused : Main.Loop :=
  {| Main.world :=
       world_of empty_server (fun _ => true)
         [Settles 0; Settles 0; Settles 0; Rejects 0 "Error: session exists"];
     Main.tasks := [Main.Arrived 1%nat "c1"; Main.Arrived 2%nat "c1"];
     Main.history := [] |}.

(** * The Twilio integration, from its source

    [telephony/twilio.ts].  The main server takes the integration as a
    parameter; [TwilioSource.integration] is the instance made of the
    source.

    A console line of this part is recorded by its label and its
    stream ([LEvent label true] for [console.error], [LEvent label
    false] otherwise); the values printed after the label, or
    interpolated into it, are not recorded. *)
Module TwilioSource.
Section WithPlatform.
Context {P : Platform}.

(** The handler of ["start"]. *)
Definition onStart (jsonMsg : JsValue) (conversation : Conversation) : M unit :=
  streamSid <- prop jsonMsg "streamSid";;
  emit (EAssign (handle conversation) "twilioStreamSid" streamSid);;
  log (LEvent "Started twilio with streamId=" false).

(** The handler of ["media"]. *)
Definition onMedia (jsonMsg : JsValue) (conversation : Conversation) : M unit :=
  media <- prop jsonMsg "media";;
  payload <- prop media "payload";;
  audioInput <- Buffer_from_base64 payload;;
  let pcmSamples := mulaw_decode audioInput in
  let audioBuffer := bytesOfInt16 pcmSamples in
  await (streamAudio (handle conversation) audioBuffer).

Definition messageHandlers : list (string * (JsValue -> Conversation -> M unit)) :=
  [("start", onStart); ("media", onMedia)].

(** [tryProcessAudioInput]: [JSON.parse] stands before the [try]. *)
Definition tryProcessAudioInput (isOn : bool) (msg : Inbound)
    (conversation : Conversation) : M unit :=
  if negb isOn then ret tt else
  data <- JSON_parse msg;;
  try_catch
    (event <- prop data "event";;
     match Map_get messageHandlers event with
     | Some handler => handler data conversation
     | None => log (LEvent "Caught unclassified Twilio message:" true)
     end)
    (fun error => log (LEvent "Error processing Twilio audio data:" true)).

(** The message of [tryProcessAudioOutput]; [JSON.stringify] leaves
    out a [streamSid] that is [undefined]. *)
Definition response (payload : string) (streamSid : option string) : Json :=
  JObj ([("event", JStr "media");
         ("media", JObj [("track", JStr "outbound"); ("payload", JStr payload)])]
        ++ match streamSid with
           | Some sid => [("streamSid", JStr sid)]
           | None => []
           end).

Definition encodeOutbound (pcmSamples : list Z) (streamSid : option string) : Json :=
  let resampledPcmSamples := resample16kHzTo8kHz pcmSamples in
  let mulawSamples := mulaw_encode resampledPcmSamples in
  let payload := toBase64 mulawSamples in
  response payload streamSid.

Definition tryProcessAudioOutput (isOn : bool) (pcmSamples : list Z)
    (clients : list WebSocket) (streamSid : option string) : M unit :=
  if negb isOn then ret tt else
  try_catch
    (let response := encodeOutbound pcmSamples streamSid in
     log (LEvent "response" false);;
     sendToOpen clients (WText response))
    (fun e => log (LEvent "An error occurred processing Twilio audio output:" false)).

(** The object the main server holds in [twilio]. *)
Definition integration (isOn : bool) : TwilioIntegration :=
  {| twilio_isOn := isOn;
     twilio_tryProcessAudioInput := tryProcessAudioInput isOn;
     twilio_tryProcessAudioOutput := tryProcessAudioOutput isOn |}.
End WithPlatform.
End TwilioSource.

(** * The socket handlers of the legacy server *)

(** [try { m } finally { f }]: [f] runs however [m] ends, unless [m]
    stays suspended; when [f] ends normally the outcome of [m] stands,
    otherwise the outcome of [f] takes its place. *)
Definition try_finally {A} (m : M A) (f : M unit) : M A :=
  fun w =>
    match m w with
    | (Blocked, w1, t1) => (Blocked, w1, t1)
    | (r, w1, t1) =>
        match f w1 with
        | (Done _, w2, t2) => (r, w2, t1 ++ t2)
        | (Thrown e, w2, t2) => (Thrown e, w2, t1 ++ t2)
        | (Blocked, w2, t2) => (Blocked, w2, t1 ++ t2)
        end
    end.

(** [v === s] for a string literal [s]. *)
Definition strictEq (v : JsValue) (s : string) : bool :=
  match v with
  | Some (JStr s') => bool_decide (s' = s)
  | _ => false
  end.

Module LegacySocket.
Section WithPlatform.
Context {P : Platform}.

(** The inner [try] block of [handleMessage]: the control messages. *)
Definition control (msg : Inbound) (session : Conversation) : M unit :=
  jsonMsg <- JSON_parse msg;;
  type <- prop jsonMsg "type";;
  log (LEventReceived type);;
  if strictEq type "promptStart" then
    await (setupPromptStart (handle session))
  else if strictEq type "systemPrompt" then
    data <- prop jsonMsg "data";;
    await (setupSystemPrompt (handle session) data)
  else if strictEq type "audioStart" then
    await (setupStartAudio (handle session))
  else if strictEq type "stopAudio" then
    await (endAudioContent (handle session));;
    await (endPrompt (handle session));;
    log LSessionCleanupComplete
  else ret tt.

(** Its [catch] block: the frame taken as raw audio. *)
Definition rawAudio (msg : Inbound) (session : Conversation) : M unit :=
  when Legacy.useVonage (
    let audioBuffer := raw msg in
    await (streamAudio (handle session) audioBuffer)).

(** Its [finally] block: the frame taken as a JSON audio message. *)
Definition jsonAudio (msg : Inbound) (session : Conversation) : M unit :=
  when Legacy.useJson (
    msgJson <- JSON_parse msg;;
    event <- prop msgJson "event";;
    audioInput <- prop event "audioInput";;
    content <- prop audioInput "content";;
    audioBuffer <- Buffer_from_base64 content;;
    await (streamAudio (handle session) audioBuffer)).

(** [handleMessage], the [message] listener of a socket. *)
Definition handleMessage (ws : WebSocket) (msg : Inbound) : M unit :=
  channelId <- gets (fun w => truthy_id (clientChannels (server w) !! ws));;
  match channelId with
  | None =>
      Legacy.sendError ws "Channel not found" "No active channel for this connection"
  | Some channelId =>
      session <- gets (fun w => channelConversations (server w) !! channelId);;
      match session with
      | None =>
          Legacy.sendError ws "Session not found" "No active session for this channel"
      | Some session =>
          try_catch
            (try_finally
               (try_catch (control msg session) (fun e => rawAudio msg session))
               (jsonAudio msg session))
            (fun error => Legacy.sendError ws "Error processing message" error)
      end
  end.
End WithPlatform.

(** The [catch] block of the teardown in [handleClose]. *)
Definition fallback (channelId : string) (error : string) : M unit :=
  log (LErrorCleaningUp channelId error);;
  try_catch
    (call (forceCloseSession channelId);;
     log (LForceClosed channelId))
    (fun e => log (LFailedForceClose channelId e)).

Definition cleanup (channelId : string) (session : Conversation) : M unit :=
  try_catch
    (race_timeout 3000 "Error: Session cleanup timeout" (Main.graceful session);;
     log (LCleanedUp channelId))
    (fallback channelId).

Definition lastClientLeft (channelId : string) : M unit :=
  log (LLastClientLeft channelId);;
  session <- gets (fun w => channelConversations (server w) !! channelId);;
  match session with
  | Some session =>
      active <- gets (fun w => isSessionActive w channelId);;
      when active (cleanup channelId session)
  | None => ret tt
  end;;
  modify (set_server (Main.set_channelConversations (delete channelId)));;
  modify (set_server (Main.set_channelClients (delete channelId))).

(** [handleClose], the [close] listener of a socket. *)
Definition handleClose (ws : WebSocket) : M unit :=
  channelId <- gets (fun w => truthy_id (clientChannels (server w) !! ws));;
  match channelId with
  | None => log LNoChannelToCleanUp
  | Some channelId =>
      clients <- gets (fun w => channelClients (server w) !! channelId);;
      match clients with
      | Some clients =>
          let clients := set_delete ws clients in
          modify (set_server (Main.set_channelClients <[channelId := clients]>));;
          log (LClientDisconnected channelId (length clients));;
          when (length clients =? 0)%nat (lastClientLeft channelId)
      | None => ret tt
      end;;
      modify (set_server (Main.set_clientChannels (delete ws)))
  end.

End LegacySocket.

(** * The next-best-offer tool

    [tools/get-nbo.ts]. *)
Module GetNbo.

(** The attribute values of [sampleData]: [{ S: ... }] and [{ M: ... }]. *)
Inductive AttributeValue : Type :=
| AttrS (s : string)
| AttrM (fields : list (string * AttributeValue)).

Definition offer (promotion reason : string) : AttributeValue :=
  AttrM [("promotion", AttrS promotion); ("reason", AttrS reason)].

Definition sampleData : list (string * AttributeValue) :=
  [("phone_number", AttrS "5101234567");
   ("billing",
    offer "$10 credit applied to their next billing cycle"
          "Customer was overcharged on previous bill");
   ("outage",
    offer "$20 credit toward their internet bill"
          "Neighborhood connectivity outage");
   ("trade_in",
    offer "Trade in iPhone 14 for iPhone 15 at no extra cost. Customer will pay $20 per month"
          "Customer eligible for upgrade promotion")].

(** The properties every object literal inherits from
    [Object.prototype]. *)
Definition Object_prototype : list string :=
  ["constructor"; "__defineGetter__"; "__defineSetter__"; "hasOwnProperty";
   "__lookupGetter__"; "__lookupSetter__"; "isPrototypeOf";
   "propertyIsEnumerable"; "toString"; "valueOf"; "__proto__"; "toLocaleString"].

(** What [sampleData[intentType]] evaluates to. *)
Inductive Item : Type :=
| Own (v : AttributeValue)
| Inherited
| Undefined.

Definition lookup (intentType : string) : Item :=
  match assoc intentType sampleData with
  | Some v => Own v
  | None => if bool_decide (intentType ∈ Object_prototype) then Inherited else Undefined
  end.

Definition undefinedRead (k : string) : string :=
  ("TypeError: Cannot read properties of undefined (reading '" ++ k ++ "')")%string.

(** [item.M.<k>.S]; [Some None] is [undefined]. *)
Definition attribute (item : AttributeValue) (k : string) : Result (option string) :=
  match item with
  | AttrS _ => Thrown (undefinedRead k)
  | AttrM fields =>
      match assoc k fields with
      | None => Thrown (undefinedRead "S")
      | Some (AttrS s) => Done (Some s)
      | Some (AttrM _) => Done None
      end
  end.

(** A field of the object returned; [JSON] has no [undefined]: the key
    is left out. *)
Definition field (k : string) (v : option string) : list (string * Json) :=
  match v with
  | Some s => [(k, JStr s)]
  | None => []
  end.

(** [getNbo]: the object the promise resolves to, or the error it
    rejects with. *)
Definition getNbo (phoneNumber intentType : string) : Result Json :=
  if negb (bool_decide (phoneNumber = "5101234567")) then Done (JObj []) else
  match lookup intentType with
  | Undefined =>
      Done (JObj [("error",
                   JStr ("No " ++ intentType ++ " offer found for phone number: "
                           ++ phoneNumber)%string)])
  | Inherited => Thrown (undefinedRead "promotion")
  | Own item =>
      match attribute item "promotion" with
      | Thrown e => Thrown e
      | Blocked => Blocked
      | Done promotion =>
          match attribute item "reason" with
          | Thrown e => Thrown e
          | Blocked => Blocked
          | Done reason =>
              Done (JObj (field "Best Customer Offer" promotion ++ field "Reason" reason))
          end
      end
  end.

End GetNbo.

(** * A leave interleaved with other handlers

    [handleClose] of the main server is an [async] function; its first
    suspension point is inside the teardown, where the graceful
    sequence has called [session.endAudioContent()] and waits for it,
    raced against the 3000 ms timer.  Handlers of other connections
    run while it is suspended there.  A leave is therefore cut at that
    point: [leaveBegin] runs up to the suspension, [leaveResume] from
    the settlement of the promise to the end. *)
Module Leave.

Inductive LeaveTask : Type :=
| Tearing (ws : WebSocket) (conversationId : string) (session : Conversation) (timer : Z)
| Left (ws : WebSocket).

(** The end of [handleClose] once the teardown is over or was not
    needed: the deletions of the last client. *)
Definition forget (conversationId : string) : M unit :=
  modify (set_server (Main.set_channelConversations (delete conversationId)));;
  modify (set_server (Main.set_channelClients (delete conversationId))).

Definition unbind (ws : WebSocket) : M unit :=
  modify (set_server (Main.set_clientChannels (delete ws))).

(** First segment: up to the call of [endAudioContent]; [Tearing]
    records the instant at which the timer of the race fires. *)
Definition leaveBegin (ws : WebSocket) : M LeaveTask :=
  conversationId <- gets (fun w => truthy_id (clientChannels (server w) !! ws));;
  match conversationId with
  | None => log LNoChannelToCleanUp;; ret (Left ws)
  | Some conversationId =>
      clients <- gets (fun w => channelClients (server w) !! conversationId);;
      match clients with
      | Some clients =>
          let clients := set_delete ws clients in
          modify (set_server (Main.set_channelClients <[conversationId := clients]>));;
          log (LClientDisconnected conversationId (length clients));;
          if (length clients =? 0)%nat then
            log (LLastClientLeft conversationId);;
            session <- gets (fun w => channelConversations (server w) !! conversationId);;
            match session with
            | Some session =>
                active <- gets (fun w => isSessionActive w conversationId);;
                if active then
                  start <- gets now;;
                  emit (EEngine (endAudioContent (handle session)));;
                  ret (Tearing ws conversationId session (start + 3000))
                else forget conversationId;; unbind ws;; ret (Left ws)
            | None => forget conversationId;; unbind ws;; ret (Left ws)
            end
          else unbind ws;; ret (Left ws)
      | None => unbind ws;; ret (Left ws)
      end
  end.

(** The promise of a call that was issued before the suspension
    settles: [await] without the call. *)
Definition settle : M unit :=
  fun w =>
    let '(o, w1) := next_outcome w in
    match o with
    | Settles d =>
        let t := now w1 + Z.of_N d in
        if timer_fired w1 t then (Blocked, w1, []) else (Done tt, set_now t w1, [])
    | Rejects d e =>
        let t := now w1 + Z.of_N d in
        if timer_fired w1 t then (Blocked, w1, []) else (Thrown e, set_now t w1, [])
    | Never => (Blocked, w1, [])
    end.

(** The function of the race from the settlement of the call it was
    suspended on: the calls that remain are awaited in turn; when the
    timer fires first the function is left running, as in [racing]. *)
Definition resumed (calls : list EngineCall) : M unit :=
  fun w =>
    match settle w with
    | (Done _, w1, t1) =>
        match racing calls w1 with
        | (r, w2, t2) => (r, w2, t1 ++ t2)
        end
    | (Thrown e, w1, t1) => (Thrown e, w1, t1)
    | (Blocked, w1, t1) =>
        let running := {| pendingOutcome := outcome_at 0 w; issuedAt := now w;
                          remaining := calls |} in
        (Blocked, set_detached (detached w1 ++ [running]) w1, t1)
    end.

(** A [Promise.race] against a timer that was set before the
    suspension and fires at instant [timer]. *)
Definition race_until (timer : Z) (timeoutError : string) (calls : list EngineCall)
    : M unit :=
  fun w =>
    let saved := deadline w in
    match resumed calls (set_deadline (Some timer) w) with
    | (Blocked, w1, t1) =>
        (Thrown timeoutError, set_deadline saved (set_now (Z.max timer (now w1)) w1), t1)
    | (r, w1, t1) => (r, set_deadline saved w1, t1)
    end.

(** Second segment: the rest of the graceful sequence, the fallback,
    the deletions. *)
Definition leaveResume (ws : WebSocket) (conversationId : string)
    (session : Conversation) (timer : Z) : M unit :=
  try_catch
    (race_until timer "Error: Session cleanup timeout"
       [endPrompt (handle session); close (handle session)];;
     log (LCleanedUp conversationId))
    (Main.fallback conversationId);;
  forget conversationId;;
  unbind ws.

Definition runTask (task : LeaveTask) : M unit :=
  match task with
  | Tearing ws conversationId session timer =>
      leaveResume ws conversationId session timer
  | Left _ => ret tt
  end.

End Leave.

(** * Further vocabulary *)

(** The world in which a run ends. *)
Definition world_after {A} (run : Result A * World * list Effect) : World := run.1.2.

(** A handler all of whose effects satisfy [ok], whatever the world. *)
Definition emitsOnly {A} (ok : Effect -> Prop) (m : M A) : Prop :=
  forall w, Forall ok (trace_of (m w)).

(** The effects that reach no client: no frame is sent and no socket
    is closed. *)
Definition notToClients (e : Effect) : Prop :=
  match e with
  | ESend _ _ | EWsClose _ => False
  | _ => True
  end.

(** The effects that close no socket. *)
Definition notAClose (e : Effect) : Prop :=
  match e with
  | EWsClose _ => False
  | _ => True
  end.

(** The effects of a handler that talks to the engine only: no frame,
    no socket closed, no console line, no field assigned. *)
Definition engineOnly (e : Effect) : Prop :=
  match e with
  | EEngine _ => True
  | _ => False
  end.

(** A handler that leaves the three registries as they are. *)
Definition keepsServer {A} (m : M A) : Prop :=
  forall w, server (world_after (m w)) = server w.

(** An engine that settles every call. *)
Definition engineAnswers (w : World) : Prop :=
  Forall (fun o => match o with Settles _ => True | _ => False end) (tape w).

(** The control messages and the engine calls each stands for, on the
    conversation of handle [h]. *)
Definition controlTypes : list string :=
  ["promptStart"; "systemPrompt"; "audioStart"; "stopAudio"].

Definition controlCalls (type : string) (data : JsValue) (h : nat) : list EngineCall :=
  if decide (type = "promptStart") then [setupPromptStart h]
  else if decide (type = "systemPrompt") then [setupSystemPrompt h data]
  else if decide (type = "audioStart") then [setupStartAudio h]
  else if decide (type = "stopAudio") then [endAudioContent h; endPrompt h]
  else [].

(** ** The registries *)

(** The registries once [conversation] has been registered
    ([channelConversations.set], [channelClients.set(..., new Set())]). *)
Definition registered (conversation : Conversation) (s : Server) : Server :=
  Main.set_channelClients <[id conversation := []]>
    (Main.set_channelConversations <[id conversation := conversation]> s).

(** The registries once [ws] has been added to the clients [clients] of
    the channel of [conversation]. *)
Definition attachedTo (ws : WebSocket) (conversation : Conversation)
    (clients : list WebSocket) (s : Server) : Server :=
  Main.set_clientChannels <[ws := id conversation]>
    (Main.set_channelClients <[id conversation := set_add ws clients]> s).

(** The registries once [ws] has left. *)
Definition without (ws : WebSocket) (s : Server) : Server :=
  match truthy_id (clientChannels s !! ws) with
  | None => s
  | Some c =>
      Main.set_clientChannels (delete ws)
        match channelClients s !! c with
        | None => s
        | Some clients =>
            let s' := Main.set_channelClients <[c := set_delete ws clients]> s in
            if (length (set_delete ws clients) =? 0)%nat
            then Main.set_channelClients (delete c)
                   (Main.set_channelConversations (delete c) s')
            else s'
        end
  end.

(** The three registries agree with one another: a conversation is
    kept under its own id and has a client set; a client set is
    duplicate-free, not empty, belongs to a registered conversation and
    holds only sockets bound to its channel; a socket is bound to a
    channel, not the empty id, whose client set holds it. *)
Definition consistent (s : Server) : Prop :=
  (forall c conversation,
     channelConversations s !! c = Some conversation ->
     id conversation = c /\ is_Some (channelClients s !! c)) /\
  (forall c clients,
     channelClients s !! c = Some clients ->
     NoDup clients /\ clients <> [] /\ is_Some (channelConversations s !! c) /\
     forall ws, ws ∈ clients -> clientChannels s !! ws = Some c) /\
  (forall ws c,
     clientChannels s !! ws = Some c ->
     c <> "" /\ exists clients, channelClients s !! c = Some clients /\ ws ∈ clients).

(** ** The two servers side by side *)

(** Where the main server closes a session by id with
    [bedrockClient.closeSession], the legacy server calls
    [bedrockClient.forceCloseSession]. *)
Definition legacyEffect (e : Effect) : Effect :=
  match e with
  | EEngine (closeSession sessionId) => EEngine (forceCloseSession sessionId)
  | other => other
  end.

(** [m'] runs like [m], with every effect passed through [f]. *)
Definition sameUpTo (f : Effect -> Effect) {A} (m m' : M A) : Prop :=
  forall w, m' w = (let '(r, w1, t) := m w in (r, w1, map f t)).

(** ** Inbound operations *)

(** What the inbound operation of a telephony integration may do on the
    session of handle [h]: print a console line, assign a field of the
    session, or stream to the engine the PCM that [mulaw.decode] makes
    of some bytes; it may not send a frame or close a socket. *)
Definition narrowbandInput {P : Platform} (h : nat) (e : Effect) : Prop :=
  match e with
  | ELog _ => True
  | EAssign h' _ _ => h' = h
  | EEngine c => exists bytes, c = streamAudio h (bytesOfInt16 (mulaw_decode bytes))
  | ESend _ _ | EWsClose _ => False
  end.

(** An inbound operation that reports whatever it does not pass on: a
    run that prints no console line has handed the frame to the engine,
    as one [streamAudio] call on the session of handle [h] and nothing
    else, and outside a race the engine has not rejected that call. *)
Definition reportsOrStreams (h : nat) (m : M unit) : Prop :=
  forall w,
    logs (trace_of (m w)) = [] ->
    (exists audio, trace_of (m w) = [EEngine (streamAudio h audio)]) /\
    (deadline w = None -> forall d e, outcome_at 0 w <> Rejects d e).

(** * Further messages and worlds of the examples *)

(** The audio message of a browser client: [{ event: { audioInput:
    { content } } }] with the bytes in base64. *)
Definition audioInputMessage (bytes : list Z) : Json :=
  JObj [("event", JObj [("audioInput", JObj [("content", JStr (toBase64 bytes))])])].

(** A control message [{ type }]. *)
Definition controlMessage (type : string) : Inbound :=
  {| raw := [123; 125]; parsed := Some (JObj [("type", JStr type)]) |}.

(** The Twilio integration switched off. *)
Definition noTwilio : TwilioIntegration := TwilioSource.integration (P := node) false.

(** * Properties *)

(** ** base64 and typed arrays *)

Ltac divlia := Z.div_mod_to_equations; lia.

Lemma unbase64_b64char_nat (k : nat) :
  (k < 64)%nat ->
  unbase64 (b64char (Z.of_nat k)) = Some (Z.of_nat k) /\
  Ascii.eqb (b64char (Z.of_nat k)) "="%char = false.
Proof.
  intros Hk.
  do 64 (destruct k as [ | k]; [vm_compute; split; reflexivity | ]).
  lia.
Qed.

Lemma unbase64_b64char (i : Z) :
  0 <= i < 64 ->
  unbase64 (b64char i) = Some i /\ Ascii.eqb (b64char i) "="%char = false.
Proof.
  intros Hi. rewrite <- (Z2Nat.id i) by lia. apply unbase64_b64char_nat. lia.
Qed.

Lemma sextets_b64char (i : Z) (rest : string) :
  0 <= i < 64 -> sextets (String (b64char i) rest) = i :: sextets rest.
Proof.
  intros Hi. destruct (unbase64_b64char i Hi) as [Hu He].
  cbn [sextets]. by rewrite He, Hu.
Qed.

(** Decoding what [toString("base64")] produced gives the bytes back. *)
Lemma fromBase64_toBase64 (bytes : list Z) :
  Forall isByte bytes -> fromBase64 (toBase64 bytes) = bytes.
Proof.
  unfold fromBase64, isByte.
  induction bytes as [bytes IH] using (induction_ltof1 _ (@length Z)).
  unfold ltof in IH. intros Hb.
  destruct bytes as [ | a [ | b [ | c rest]]].
  - reflexivity.
  - apply Forall_cons in Hb as [Ha _].
    cbn [toBase64]. rewrite !sextets_b64char by divlia.
    cbn. f_equal. divlia.
  - apply Forall_cons in Hb as [Ha Hb]. apply Forall_cons in Hb as [Hb _].
    cbn [toBase64]. rewrite !sextets_b64char by divlia.
    cbn. f_equal; [divlia | f_equal; divlia].
  - apply Forall_cons in Hb as [Ha Hb]. apply Forall_cons in Hb as [Hb Hc].
    apply Forall_cons in Hc as [Hc Hrest].
    cbn [toBase64]. rewrite !sextets_b64char by divlia.
    cbn [pack]. rewrite IH by (cbn; lia || done).
    f_equal; [divlia | f_equal; [divlia | f_equal; divlia]].
Qed.

Lemma int16View_length (bytes : list Z) :
  length (int16View bytes) = (length bytes / 2)%nat.
Proof.
  induction bytes as [bytes IH] using (induction_ltof1 _ (@length Z)).
  unfold ltof in IH.
  destruct bytes as [ | lo [ | hi rest]]; [done | done | ].
  cbn [int16View length]. rewrite IH by (cbn; lia).
  change (S (S (length rest))) with (1 * 2 + length rest)%nat.
  rewrite Nat.div_add_l by lia. lia.
Qed.

Lemma bytesOfInt16_length (samples : list Z) :
  length (bytesOfInt16 samples) = (2 * length samples)%nat.
Proof.
  unfold bytesOfInt16. induction samples as [ | s samples IH]; [done | ].
  cbn [flat_map length app]. rewrite IH. lia.
Qed.

Lemma bytesOfInt16_bytes (samples : list Z) : Forall isByte (bytesOfInt16 samples).
Proof.
  unfold bytesOfInt16, isByte. induction samples as [ | s samples IH]; [constructor | ].
  cbn [flat_map app]. constructor; [divlia | ]. constructor; [divlia | exact IH].
Qed.

Lemma resample16kHzTo8kHz_length (pcmSamples : list Z) :
  length (resample16kHzTo8kHz pcmSamples) = Nat.div2 (S (length pcmSamples)).
Proof. unfold resample16kHzTo8kHz. by rewrite length_map, length_seq. Qed.

(** Every output sample is the input sample at twice its index. *)
Lemma resample16kHzTo8kHz_lookup (pcmSamples : list Z) (i : nat) :
  (i < Nat.div2 (S (length pcmSamples)))%nat ->
  resample16kHzTo8kHz pcmSamples !! i = pcmSamples !! (i * 2)%nat.
Proof.
  intros Hi. unfold resample16kHzTo8kHz.
  rewrite list_lookup_fmap, lookup_seq_lt by done. cbn.
  assert (i * 2 < length pcmSamples)%nat as Hlt.
  { rewrite Nat.div2_div in Hi.
    pose proof (Nat.Div0.mul_div_le (S (length pcmSamples)) 2). lia. }
  destruct (lookup_lt_is_Some_2 pcmSamples (i * 2) Hlt) as [x Hx].
  rewrite Hx. f_equal. by apply nth_lookup_Some with (d := 0) in Hx.
Qed.

Section Codec.
Context {P : Platform}.

Lemma mulaw_encode_length samples : length (mulaw_encode samples) = length samples.
Proof. apply length_map. Qed.

Lemma mulaw_decode_length bytes : length (mulaw_decode bytes) = length bytes.
Proof. apply length_map. Qed.

Lemma mulaw_encode_bytes samples : Forall isByte (mulaw_encode samples).
Proof.
  unfold mulaw_encode, isByte.
  induction samples as [ | s samples IH]; constructor; [ | exact IH].
  apply Z.mod_pos_bound. lia.
Qed.
End Codec.



(** ** Reasoning about handlers *)


(** Running a [bind] whose first half is known. *)
Lemma bind_gets {A B} (f : World -> A) (k : A -> M B) w :
  bind (gets f) k w = k (f w) w.
Proof. unfold bind, gets. by destruct (k (f w) w) as [[r w2] t2]. Qed.

Lemma bind_modify {B} (f : World -> World) (k : unit -> M B) w :
  bind (modify f) k w = k tt (f w).
Proof. unfold bind, modify. by destruct (k tt (f w)) as [[r w2] t2]. Qed.

Lemma bind_ret {A B} (a : A) (k : A -> M B) w :
  bind (ret a) k w = k a w.
Proof. unfold bind, ret. by destruct (k a w) as [[r w2] t2]. Qed.

Lemma bind_done {A B} (m : M A) (k : A -> M B) w a w1 t1 :
  m w = (Done a, w1, t1) ->
  bind m k w = (let '(r, w2, t2) := k a w1 in (r, w2, t1 ++ t2)).
Proof. intros E. unfold bind. by rewrite E. Qed.

Lemma bind_log {B} (l : LogLine) (k : unit -> M B) w :
  bind (log l) k w = (let '(r, w2, t2) := k tt w in (r, w2, ELog l :: t2)).
Proof. reflexivity. Qed.

Lemma bind_assoc {A B C} (m : M A) (k1 : A -> M B) (k2 : B -> M C) w :
  bind (bind m k1) k2 w = bind m (fun a => bind (k1 a) k2) w.
Proof.
  unfold bind. destruct (m w) as [[[a | e | ] w1] t1]; try done.
  destruct (k1 a w1) as [[[b | e | ] w2] t2]; try done.
  destruct (k2 b w2) as [[r w3] t3]. by rewrite app_assoc.
Qed.

Ltac mstep :=
  first [ rewrite bind_assoc | rewrite bind_gets | rewrite bind_modify
        | rewrite bind_ret ];
  cbn beta.
Ltac mnorm := repeat mstep.

(** ** Leaving a channel: [handleClose] *)

Lemma engine_calls_app t1 t2 :
  engine_calls (t1 ++ t2) = engine_calls t1 ++ engine_calls t2.
Proof. apply omap_app. Qed.

(** What one [await] does: one engine call, registries and timer
    untouched, the clock moves forward and stays short of a pending
    timer. *)
Lemma await_inv c w r w1 t :
  await c w = (r, w1, t) ->
  t = [EEngine c] /\ server w1 = server w /\ deadline w1 = deadline w /\
  tape w1 = tl (tape w) /\
  now w <= now w1 /\
  (forall dl, deadline w = Some dl -> now w <= dl -> now w1 <= dl).
Proof.
  unfold await, next_outcome, timer_fired.
  destruct (outcome_at 0 w) as [d | d e | ]; simpl;
    (destruct (deadline w) as [dl | ] eqn:Hd; [try case_match | ]);
    intros [= <- <- <-]; simpl; rewrite ?Hd; repeat split; try lia; try done;
    intros ? [= <-]; lia.
Qed.

Lemma call_inv c w r w1 t :
  call c w = (r, w1, t) ->
  t = [EEngine c] /\ server w1 = server w /\ deadline w1 = deadline w /\
  now w1 = now w /\ r <> Blocked.
Proof.
  unfold call, next_outcome.
  destruct (outcome_at 0 w); intros [= <- <- <-]; done.
Qed.

(** An [await] outside any [Promise.race]. *)
Lemma await_run c w :
  deadline w = None ->
  await c w =
    match outcome_at 0 w with
    | Settles d =>
        (Done tt, set_now (now w + Z.of_N d) (set_tape (tl (tape w)) w), [EEngine c])
    | Rejects d e =>
        (Thrown e, set_now (now w + Z.of_N d) (set_tape (tl (tape w)) w), [EEngine c])
    | Never => (Blocked, set_tape (tl (tape w)) w, [EEngine c])
    end.
Proof.
  intros Hd. unfold await, next_outcome, timer_fired. cbn [deadline set_tape].
  rewrite Hd. by destruct (outcome_at 0 w).
Qed.

Lemma engineAnswers_await c w :
  engineAnswers w -> deadline w = None ->
  exists w1,
    await c w = (Done tt, w1, [EEngine c]) /\
    engineAnswers w1 /\ deadline w1 = None /\ server w1 = server w.
Proof.
  intros Ha Hd. rewrite (await_run c w Hd).
  unfold engineAnswers, outcome_at in *.
  destruct (tape w) as [ | o rest]; cbn [nth tl].
  - eexists. split; [reflexivity | ]. cbn. by repeat split.
  - apply Forall_cons in Ha as [Ho Hrest]. destruct o as [d | d e | ]; try done.
    eexists. split; [reflexivity | ]. cbn. by repeat split.
Qed.

Lemma await_detached c w r w1 t :
  await c w = (r, w1, t) -> detached w1 = detached w.
Proof.
  unfold await, next_outcome.
  destruct (outcome_at 0 w) as [d | d e | ]; cbn;
    try destruct (timer_fired _ _); by intros [= <- <- <-].
Qed.

Lemma call_detached c w r w1 t :
  call c w = (r, w1, t) -> detached w1 = detached w /\ tape w1 = tl (tape w).
Proof.
  unfold call, next_outcome.
  destruct (outcome_at 0 w) as [d | d e | ]; by intros [= <- <- <-].
Qed.

Lemma outcome_at_tl (w w1 : World) i :
  tape w1 = tl (tape w) -> outcome_at i w1 = outcome_at (S i) w.
Proof.
  unfold outcome_at. intros ->. destruct (tape w); [by destruct i | done].
Qed.

(** One [await] while a timer is pending, by the outcome of the call. *)
Lemma await_racing c w dl r w1 t :
  deadline w = Some dl ->
  await c w = (r, w1, t) ->
  match r with
  | Done _ => exists d, outcome_at 0 w = Settles d /\ now w + Z.of_N d < dl
  | Thrown e => exists d, outcome_at 0 w = Rejects d e /\ now w + Z.of_N d < dl
  | Blocked =>
      now w1 = now w /\
      match outcome_at 0 w with
      | Settles d | Rejects d _ => dl <= now w + Z.of_N d
      | Never => True
      end
  end.
Proof.
  intros Hd. unfold await, next_outcome, timer_fired. cbn. rewrite Hd.
  destruct (outcome_at 0 w) as [d | d e | ];
    try destruct (Z.leb_spec dl (now w + Z.of_N d));
    intros [= <- <- <-]; cbn; eauto.
Qed.

(** The function of a race while its timer is pending: the calls issued
    are a prefix of its calls -- all of them when it returns; when a
    call rejects in time it throws and nothing is left running; when
    the timer fires first it is left running, suspended on the last
    call issued. *)
Lemma racing_inv calls : forall w r w1 t dl,
  deadline w = Some dl -> now w <= dl ->
  racing calls w = (r, w1, t) ->
  server w1 = server w /\ deadline w1 = Some dl /\
  now w <= now w1 <= dl /\
  exists k, (k <= length calls)%nat /\ engine_calls t = take k calls /\
    match r with
    | Done _ => k = length calls /\ detached w1 = detached w
    | Thrown e =>
        (1 <= k)%nat /\ detached w1 = detached w /\
        exists d, outcome_at (k - 1) w = Rejects d e
    | Blocked =>
        (1 <= k)%nat /\
        exists s, now w <= s <= dl /\ s = now w1 /\
          detached w1 =
            detached w ++ [{| pendingOutcome := outcome_at (k - 1) w;
                              issuedAt := s; remaining := drop k calls |}] /\
          match outcome_at (k - 1) w with
          | Settles d | Rejects d _ => dl <= s + Z.of_N d
          | Never => True
          end
    end.
Proof.
  induction calls as [ | c rest IH]; intros w r w1 t dl Hd Hle.
  - intros [= <- <- <-]. repeat split; try lia; try done.
    exists 0%nat. by repeat split.
  - cbn [racing].
    destruct (await c w) as [[r1 w2] t1] eqn:E1.
    pose proof (await_racing _ _ _ _ _ _ Hd E1) as Hcase.
    pose proof (await_detached _ _ _ _ _ E1) as Hdet.
    apply await_inv in E1 as (-> & Hs1 & Hd1 & Ht1 & Hn1 & Hb1).
    specialize (Hb1 _ Hd Hle). rewrite Hd in Hd1.
    destruct r1 as [[] | e | ].
    + destruct (racing rest w2) as [[r2 w3] t2] eqn:E2.
      apply (IH _ _ _ _ dl Hd1 Hb1) in E2
        as (Hs2 & Hd2 & Hn2 & k & Hk & Ht & Hr).
      intros [= <- <- <-].
      split; [congruence | ]. split; [done | ]. split; [lia | ].
      exists (S k). split; [cbn; lia | ].
      split; [cbn [take]; rewrite <- Ht; reflexivity | ].
      destruct r2 as [[] | e | ].
      * destruct Hr as [-> Hr]. split; [done | congruence].
      * destruct Hr as (Hk1 & Hr & d & Ho). split; [lia | ]. split; [congruence | ].
        exists d. rewrite <- Ho.
        replace (S k - 1)%nat with (S (k - 1)) by lia.
        by rewrite (outcome_at_tl w w2 _ Ht1).
      * destruct Hr as (Hk1 & s & Hs & Hsn & Hr & Ho). split; [lia | ].
        exists s. split; [lia | ]. split; [done | ].
        replace (S k - 1)%nat with (S (k - 1)) by lia.
        rewrite <- (outcome_at_tl w w2 _ Ht1). cbn [drop].
        split; [by rewrite Hr, Hdet | exact Ho].
    + intros [= <- <- <-]. destruct Hcase as (d & Ho & _).
      split; [done | ]. split; [done | ]. split; [lia | ].
      exists 1%nat. split; [cbn; lia | ]. split; [done | ].
      split; [done | ]. split; [done | ]. by exists d.
    + intros [= <- <- <-]. destruct Hcase as (Hnow & Ho).
      split; [done | ]. split; [done | ]. split; [cbn; lia | ].
      exists 1%nat. split; [cbn; lia | ]. split; [done | ].
      split; [done | ]. exists (now w). split; [lia | ].
      split; [by cbn | ].
      split; [cbn; by rewrite Hdet, drop_0 | exact Ho].
Qed.

Section Graceful.
Variable session : Conversation.

(** The graceful sequence under a pending timer: the calls issued are
    a non-empty prefix of audio-end, prompt-end, close, and all three
    when it returns. *)
Lemma graceful_inv w r w1 t dl :
  deadline w = Some dl -> now w <= dl ->
  racing (Main.graceful session) w = (r, w1, t) ->
  server w1 = server w /\ deadline w1 = Some dl /\
  now w <= now w1 <= dl /\
  (exists k, (1 <= k <= 3)%nat /\ engine_calls t = take k (graceful_calls session) /\
             (r = Done tt -> k = 3%nat)).
Proof.
  intros Hd Hle E.
  apply (racing_inv _ _ _ _ _ dl Hd Hle) in E as (Hs & Hd1 & Hn & k & Hk & Ht & Hr).
  split; [done | ]. split; [done | ]. split; [done | ].
  exists k. cbn [length Main.graceful] in Hk.
  destruct r as [[] | e | ].
  - destruct Hr as [Hk3 _]. cbn in Hk3. subst k. repeat split; try done; lia.
  - destruct Hr as (Hk1 & _). repeat split; try done; lia.
  - destruct Hr as (Hk1 & _). repeat split; try done; lia.
Qed.
End Graceful.

(** The [catch] branch: the console line of the error, then one close
    by id; no time passes, nothing is left running, and neither an
    exception nor a suspension escapes. *)
Lemma fallback_run conversationId e w :
  exists w1 t,
    Main.fallback conversationId e w =
      (Done tt, w1, ELog (LErrorCleaningUp conversationId e) :: t) /\
    server w1 = server w /\ now w1 = now w /\ deadline w1 = deadline w /\
    detached w1 = detached w /\
    engine_calls t = [closeSession conversationId].
Proof.
  unfold Main.fallback, bind, try_catch, log, emit.
  destruct (call _ w) as [[rc wc] tc] eqn:Ec.
  pose proof (call_detached _ _ _ _ _ Ec) as [Hdet _].
  apply call_inv in Ec as (-> & Hsc & Hdc & Hnc & Hrc).
  destruct rc as [[] | e' | ]; [ | | done ]; simpl;
    eexists _, _; (split; [reflexivity | ]); done.
Qed.

Lemma fallback_inv conversationId e w :
  exists w1 t,
    Main.fallback conversationId e w = (Done tt, w1, t) /\
    server w1 = server w /\ now w1 = now w /\
    engine_calls t = [closeSession conversationId].
Proof.
  destruct (fallback_run conversationId e w) as (w1 & t & E & Hs & Hn & _ & _ & Ht).
  by eexists _, _.
Qed.

(** The outcome of the teardown block of [handleClose]: it always
    returns, within 3000 ms, with the registries untouched; by the time
    it returns, either the three graceful calls were issued and nothing
    else, or a non-empty prefix of them followed by the close by id. *)
Lemma cleanup_inv conversationId session w :
  exists w1 t,
    Main.cleanup conversationId session w = (Done tt, w1, t) /\
    server w1 = server w /\
    now w <= now w1 <= now w + 3000 /\
    (engine_calls t = graceful_calls session \/
     exists k, (1 <= k <= 3)%nat /\
       engine_calls t = take k (graceful_calls session) ++ [closeSession conversationId]).
Proof.
  unfold Main.cleanup, try_catch, bind at 1, race_timeout.
  destruct (racing (Main.graceful session) _) as [[r w1] t] eqn:E.
  apply graceful_inv with (dl := now w + 3000) in E as (Hs & Hd & Hn & k & Hk & Ht & Hr);
    [ | done | simpl; lia ].
  simpl in Hs, Hn.
  destruct r as [[] | e | ].
  - simpl. eexists _, _. split; [reflexivity | ]. simpl.
    repeat split; try lia; try done.
    left. rewrite engine_calls_app, Ht, (Hr eq_refl). reflexivity.
  - destruct (fallback_inv conversationId e (set_deadline (deadline w) w1))
      as (w3 & t3 & E3 & Hs3 & Hn3 & Ht3).
    rewrite E3. eexists _, _. split; [reflexivity | ].
    simpl in Hs3, Hn3.
    repeat split; try lia; try congruence.
    right. exists k. split; [done | ]. by rewrite engine_calls_app, Ht, Ht3.
  - destruct (fallback_inv conversationId "Error: Session cleanup timeout"
                (set_deadline (deadline w) (set_now (now w + 3000) w1)))
      as (w3 & t3 & E3 & Hs3 & Hn3 & Ht3).
    rewrite E3. eexists _, _. split; [reflexivity | ].
    simpl in Hs3, Hn3.
    repeat split; try lia; try congruence.
    right. exists k. split; [done | ]. by rewrite engine_calls_app, Ht, Ht3.
Qed.

(** The part of [handleClose] that runs when the client set has become
    empty always returns, within 3000 ms, and deletes the channel from
    both registries; it calls the engine only when the channel has a
    conversation that the engine client reports active. *)
Lemma lastClientLeft_inv conversationId w r w1 t :
  Main.lastClientLeft conversationId w = (r, w1, t) ->
  r = Done tt /\
  server w1 =
    Main.set_channelClients (delete conversationId)
      (Main.set_channelConversations (delete conversationId) (server w)) /\
  now w <= now w1 <= now w + 3000 /\
  match channelConversations (server w) !! conversationId with
  | Some session =>
      if isSessionActive w conversationId
      then engine_calls t = graceful_calls session \/
           exists k, (1 <= k <= 3)%nat /\
             engine_calls t =
               take k (graceful_calls session) ++ [closeSession conversationId]
      else engine_calls t = []
  | None => engine_calls t = []
  end.
Proof.
  unfold Main.lastClientLeft. rewrite bind_log, bind_gets.
  destruct (channelConversations (server w) !! conversationId) as [session | ].
  - rewrite bind_assoc, bind_gets.
    destruct (isSessionActive w conversationId); simpl.
    + destruct (cleanup_inv conversationId session w) as (w2 & t2 & E & Hs & Hn & Ht).
      rewrite (bind_done _ _ _ _ _ _ E), bind_modify. unfold modify.
      intros [= <- <- <-]. simpl. rewrite Hs, app_nil_r.
      repeat split; try lia. exact Ht.
    + intros [= <- <- <-]. simpl. repeat split; lia.
  - simpl. intros [= <- <- <-]. simpl. repeat split; lia.
Qed.

(** [handleClose] always returns, and leaves the socket without a
    channel. *)
Lemma handleClose_detaches ws w r w1 t :
  Main.handleClose ws w = (r, w1, t) ->
  r = Done tt /\ truthy_id (clientChannels (server w1) !! ws) = None.
Proof.
  unfold Main.handleClose. rewrite bind_gets.
  destruct (truthy_id (clientChannels (server w) !! ws)) as [conversationId | ] eqn:Hid.
  - rewrite bind_gets.
    destruct (channelClients (server w) !! conversationId) as [clients | ]; cbn zeta.
    + mnorm. rewrite bind_log.
      destruct (length (set_delete ws clients) =? 0)%nat; cbn [when].
      * unfold bind.
        destruct (Main.lastClientLeft _ _) as [[r2 w2] t2] eqn:E.
        apply lastClientLeft_inv in E as (-> & _).
        unfold modify. intros [= <- <- <-]. simpl.
        by rewrite lookup_delete_eq.
      * rewrite bind_ret. unfold modify. intros [= <- <- <-]. simpl.
        by rewrite lookup_delete_eq.
    + rewrite bind_ret. unfold modify. intros [= <- <- <-]. simpl.
      by rewrite lookup_delete_eq.
  - intros [= <- <- <-]. done.
Qed.

(** On a socket without a channel [handleClose] prints one line and
    does nothing else. *)
Lemma handleClose_unattached ws w :
  truthy_id (clientChannels (server w) !! ws) = None ->
  Main.handleClose ws w = (Done tt, w, [ELog LNoChannelToCleanUp]).
Proof. intros H. unfold Main.handleClose. rewrite bind_gets, H. reflexivity. Qed.

(** C9 -- leaving is idempotent: [handleClose] on a socket that was never
    attached, and a second [handleClose] on a socket after a first one
    has completed, return without an error, change no registry, call
    the engine not at all and send nothing; their only effect is the
    console line "No channel to clean up for this connection". *)
Theorem handleClose_idempotent (ws : WebSocket) (w : World) :
  (clientChannels (server w) !! ws = None ->
   Main.handleClose ws w = (Done tt, w, [ELog LNoChannelToCleanUp])) /\
  (forall r w1 t, Main.handleClose ws w = (r, w1, t) ->
     r = Done tt /\
     forall w2, server w2 = server w1 ->
       Main.handleClose ws w2 = (Done tt, w2, [ELog LNoChannelToCleanUp])).
Proof.
  split.
  - intros H. apply handleClose_unattached. by rewrite H.
  - intros r w1 t E. apply handleClose_detaches in E as [-> Hnone].
    split; [done | ]. intros w2 Hs. apply handleClose_unattached. by rewrite Hs.
Qed.

(** One [await] against a time budget: it returns exactly when the call
    settles before the budget is spent, and what is left of the budget
    is what [within] computes. *)
Lemma await_within c w dl r w1 t :
  deadline w = Some dl ->
  await c w = (r, w1, t) ->
  match within (dl - now w) (outcome_at 0 w) with
  | Some b => r = Done tt /\ dl - now w1 = b
  | None => r <> Done tt
  end.
Proof.
  intros Hd. unfold await, next_outcome, timer_fired, within. simpl. rewrite Hd.
  destruct (outcome_at 0 w) as [d | d e | ].
  - destruct (Z.ltb_spec (Z.of_N d) (dl - now w)), (Z.leb_spec dl (now w + Z.of_N d));
      try lia; intros [= <- <- <-]; simpl; [split; [done | lia] | done].
  - case_match; intros [= <- <- <-]; done.
  - intros [= <- <- <-]; done.
Qed.

(** Which way the graceful sequence goes under a 3000 ms timer. *)
Lemma graceful_decided session w r w1 t :
  deadline w = Some (now w + 3000) ->
  racing (Main.graceful session) w = (r, w1, t) ->
  if graceful_completes w then r = Done tt else r <> Done tt.
Proof.
  intros Hd. unfold graceful_completes. cbn [Main.graceful racing].
  destruct (await (endAudioContent _) w) as [[r1 w2] t1] eqn:E1.
  pose proof (await_within _ _ _ _ _ _ Hd E1) as H1.
  apply await_inv in E1 as (_ & _ & Hd1 & Ht1 & _). rewrite Hd in Hd1.
  replace (now w + 3000 - now w) with 3000 in H1 by lia.
  destruct (within 3000 (outcome_at 0 w)) as [b1 | ];
    [destruct H1 as [-> Hb1] | destruct r1 as [[] | e | ]; [done | intros [= <- <- <-]; done ..]].
  destruct (await (endPrompt _) w2) as [[r2 w3] t2] eqn:E2.
  pose proof (await_within _ _ _ _ _ _ Hd1 E2) as H2.
  apply await_inv in E2 as (_ & _ & Hd2 & Ht2 & _). rewrite Hd1 in Hd2.
  rewrite Hb1, (outcome_at_tl w w2 0 Ht1) in H2.
  destruct (within b1 (outcome_at 1 w)) as [b2 | ];
    [destruct H2 as [-> Hb2] | destruct r2 as [[] | e | ]; [done | intros [= <- <- <-]; done ..]].
  destruct (await (close _) w3) as [[r3 w4] t3] eqn:E3.
  pose proof (await_within _ _ _ _ _ _ Hd2 E3) as H3.
  rewrite Hb2, (outcome_at_tl w2 w3 0 Ht2), (outcome_at_tl w w2 1 Ht1) in H3.
  destruct (within b2 (outcome_at 2 w)) as [b3 | ].
  - rewrite bool_decide_eq_true_2 by eauto. destruct H3 as [-> _].
    by intros [= <- <- <-].
  - rewrite bool_decide_eq_false_2 by (intros [? [=]]).
    destruct r3 as [[] | e | ]; [done | intros [= <- <- <-]; done ..].
Qed.

(** The awaits of a list of calls, outside any race, with an engine
    that settles every call: each call is issued, in order. *)
Lemma forEach_await_answers calls : forall w,
  engineAnswers w -> deadline w = None ->
  exists w1,
    forEach await calls w = (Done tt, w1, map EEngine calls) /\
    engineAnswers w1 /\ deadline w1 = None /\ server w1 = server w.
Proof.
  induction calls as [ | c rest IH]; intros w Ha Hd.
  - by exists w.
  - destruct (engineAnswers_await c w Ha Hd) as (w1 & E & Ha1 & Hd1 & Hs1).
    destruct (IH w1 Ha1 Hd1) as (w2 & E2 & Ha2 & Hd2 & Hs2).
    exists w2. cbn [forEach]. rewrite (bind_done _ _ _ _ _ _ E), E2.
    split; [reflexivity | ]. split; [done | ]. split; [done | congruence].
Qed.

Lemma engine_calls_map calls : engine_calls (map EEngine calls) = calls.
Proof.
  unfold engine_calls. induction calls as [ | c rest IH]; [done | ].
  cbn. by rewrite IH.
Qed.

(** A function left running, once resumed with an engine that settles
    every call: it issues the calls it had still to make when the
    promise it waited for settles, and none when that promise rejects
    or never settles; the registries are not touched. *)
Lemma resume_calls d w :
  engineAnswers w -> deadline w = None ->
  exists w1 t,
    resume d w = (Done tt, w1, t) /\ server w1 = server w /\
    engine_calls t =
      match pendingOutcome d with
      | Settles _ => remaining d
      | Rejects _ _ | Never => []
      end.
Proof.
  intros Ha Hd. unfold resume.
  destruct (pendingOutcome d) as [n | n e | ]; [ | by eexists _, _ ..].
  unfold spawn. rewrite bind_modify.
  destruct (forEach_await_answers (remaining d)
              (set_now (Z.max (now w) (issuedAt d + Z.of_N n)) w) Ha Hd)
    as (w1 & E & _ & _ & Hs).
  rewrite E. eexists _, _. split; [reflexivity | ]. split; [exact Hs | ].
  apply engine_calls_map.
Qed.

(** How the teardown block of [handleClose] ends.  It always returns,
    within 3000 ms.  When the three calls settle in time they are the
    only calls and nothing is left running.  Otherwise the [k] calls
    issued so far are followed by the close by id, and either the
    [k]-th call was rejected in time -- the error printed is the
    engine's and nothing is left running -- or the timer has fired
    while the [k]-th call was pending: the error printed is the
    timer's, the clock shows the instant of the timer, and the
    graceful sequence is left running, suspended on its [k]-th call
    with the calls after it still to make. *)
Lemma cleanup_fate conversationId session w :
  exists w1 t,
    Main.cleanup conversationId session w = (Done tt, w1, t) /\
    server w1 = server w /\ deadline w1 = deadline w /\
    now w <= now w1 <= now w + 3000 /\
    if graceful_completes w
    then engine_calls t = graceful_calls session /\ detached w1 = detached w
    else exists k, (1 <= k <= 3)%nat /\
         engine_calls t =
           take k (graceful_calls session) ++ [closeSession conversationId] /\
         ((exists d e,
             outcome_at (k - 1) w = Rejects d e /\
             In (ELog (LErrorCleaningUp conversationId e)) t /\
             detached w1 = detached w) \/
          (In (ELog (LErrorCleaningUp conversationId "Error: Session cleanup timeout")) t /\
           now w1 = now w + 3000 /\
           exists s, now w <= s <= now w + 3000 /\
             detached w1 =
               detached w ++ [{| pendingOutcome := outcome_at (k - 1) w;
                                 issuedAt := s;
                                 remaining := drop k (graceful_calls session) |}] /\
             match outcome_at (k - 1) w with
             | Settles d | Rejects d _ => now w + 3000 <= s + Z.of_N d
             | Never => True
             end)).
Proof.
  unfold Main.cleanup, try_catch, bind at 1, race_timeout.
  destruct (racing (Main.graceful session) _) as [[r w1] t] eqn:E.
  pose proof (graceful_decided session (set_deadline (Some (now w + 3000)) w)
                _ _ _ eq_refl E) as Hdec.
  change (graceful_completes (set_deadline (Some (now w + 3000)) w))
    with (graceful_completes w) in Hdec.
  apply (racing_inv _ _ _ _ _ (now w + 3000)) in E
    as (Hs & Hd & Hn & k & Hk & Ht & Hr); [ | done | cbn; lia].
  cbn [server now set_deadline detached length Main.graceful] in Hs, Hn, Hk, Hr.
  change (Main.graceful session) with (graceful_calls session) in Ht, Hr.
  change (outcome_at (k - 1) (set_deadline (Some (now w + 3000)) w))
    with (outcome_at (k - 1) w) in Hr.
  destruct r as [[] | e | ].
  - destruct Hr as [-> Hdet]. cbn [log emit].
    eexists _, _. split; [reflexivity | ]. cbn.
    split; [done | ]. split; [done | ]. split; [lia | ].
    destruct (graceful_completes w); [ | done].
    split; [by rewrite engine_calls_app, Ht | done].
  - destruct Hr as (Hk1 & Hdet & d & Ho).
    destruct (fallback_run conversationId e (set_deadline (deadline w) w1))
      as (w3 & t3 & E3 & Hs3 & Hn3 & Hd3 & Hdet3 & Ht3).
    rewrite E3. eexists _, _. split; [reflexivity | ].
    cbn in Hs3, Hn3, Hd3, Hdet3.
    split; [congruence | ]. split; [done | ]. split; [lia | ].
    destruct (graceful_completes w); [done | ].
    exists k. split; [lia | ].
    split; [rewrite engine_calls_app, Ht; f_equal; exact Ht3 | ].
    left. exists d, e. split; [done | ].
    split; [apply in_or_app; right; by left | congruence].
  - destruct Hr as (Hk1 & s & Hsb & Hsn & Hdet & Ho).
    destruct (fallback_run conversationId "Error: Session cleanup timeout"
                (set_deadline (deadline w) (set_now (now w + 3000) w1)))
      as (w3 & t3 & E3 & Hs3 & Hn3 & Hd3 & Hdet3 & Ht3).
    rewrite E3. eexists _, _. split; [reflexivity | ].
    cbn in Hs3, Hn3, Hd3, Hdet3.
    split; [congruence | ]. split; [done | ]. split; [lia | ].
    destruct (graceful_completes w); [done | ].
    exists k. split; [lia | ].
    split; [rewrite engine_calls_app, Ht; f_equal; exact Ht3 | ].
    right. split; [apply in_or_app; right; by left | ].
    split; [done | ]. exists s. split; [done | ].
    split; [congruence | exact Ho].
Qed.

Lemma lastClientLeft_active conversationId session w w1 t :
  channelConversations (server w) !! conversationId = Some session ->
  isSessionActive w conversationId = true ->
  Main.cleanup conversationId session w = (Done tt, w1, t) ->
  Main.lastClientLeft conversationId w =
    (Done tt,
     set_server (Main.set_channelClients (delete conversationId))
       (set_server (Main.set_channelConversations (delete conversationId)) w1),
     ELog (LLastClientLeft conversationId) :: t).
Proof.
  intros Hconv Hact E. unfold Main.lastClientLeft.
  rewrite bind_log, bind_gets, Hconv, bind_assoc, bind_gets, Hact. cbn [when].
  rewrite (bind_done _ _ _ _ _ _ E). unfold bind, modify. by rewrite app_nil_r.
Qed.

Lemma lastClientLeft_inactive conversationId session w :
  channelConversations (server w) !! conversationId = Some session ->
  isSessionActive w conversationId = false ->
  Main.lastClientLeft conversationId w =
    (Done tt,
     set_server (Main.set_channelClients (delete conversationId))
       (set_server (Main.set_channelConversations (delete conversationId)) w),
     [ELog (LLastClientLeft conversationId)]).
Proof.
  intros Hconv Hact. unfold Main.lastClientLeft.
  by rewrite bind_log, bind_gets, Hconv, bind_assoc, bind_gets, Hact.
Qed.

Lemma tl_drop {A} (l : list A) : forall n, tl (drop n l) = drop (S n) l.
Proof.
  induction l as [ | a l IH]; intros n; [by rewrite !drop_nil | ].
  destruct n as [ | n]; [by rewrite drop_0 | ]. cbn [drop]. apply IH.
Qed.

(** The teardown block only reads outcomes off the tape. *)
Lemma racing_tape calls : forall w r w1 t,
  racing calls w = (r, w1, t) -> exists n, tape w1 = drop n (tape w).
Proof.
  induction calls as [ | c rest IH]; intros w r w1 t.
  - intros [= <- <- <-]. by exists 0%nat.
  - cbn [racing]. destruct (await c w) as [[r1 w2] t1] eqn:E1.
    apply await_inv in E1 as (_ & _ & _ & Ht1 & _).
    destruct r1 as [[] | e | ].
    + destruct (racing rest w2) as [[r2 w3] t2] eqn:E2.
      apply IH in E2 as [n Hn]. intros [= <- <- <-].
      exists (S n). rewrite Hn, Ht1.
      destruct (tape w) as [ | o l]; cbn [tl]; [by rewrite !drop_nil | done].
    + intros [= <- <- <-]. exists 1%nat. rewrite Ht1. by destruct (tape w).
    + intros [= <- <- <-]. exists 1%nat. cbn [tape set_detached]. rewrite Ht1.
      by destruct (tape w).
Qed.

Lemma cleanup_tape conversationId session w r w1 t :
  Main.cleanup conversationId session w = (r, w1, t) ->
  exists n, tape w1 = drop n (tape w).
Proof.
  unfold Main.cleanup, try_catch, bind at 1, race_timeout.
  destruct (racing (Main.graceful session) _) as [[r0 w0] t0] eqn:E.
  apply racing_tape in E as [n Hn]. cbn [tape set_deadline] in Hn.
  assert (forall e w', tape w' = tape w0 ->
            exists n', tape (world_after (Main.fallback conversationId e w'))
                       = drop n' (tape w)) as Hfb.
  { intros e w' Hw'. unfold Main.fallback, world_after, bind, try_catch, log, emit.
    destruct (call _ w') as [[rc wc] tc] eqn:Ec.
    apply call_detached in Ec as [_ Htl].
    exists (S n).
    assert (tape wc = drop (S n) (tape w)) as Hwc
      by (rewrite Htl, Hw', Hn; apply tl_drop).
    by destruct rc as [[] | e' | ]. }
  destruct r0 as [[] | e | ].
  - cbn [log emit]. intros [= <- <- <-]. by exists n.
  - specialize (Hfb e (set_deadline (deadline w) w0) eq_refl). unfold world_after in Hfb.
    destruct (Main.fallback _ _ _) as [[r3 w3] t3]. by intros [= <- <- <-].
  - specialize (Hfb "Error: Session cleanup timeout"
                  (set_deadline (deadline w) (set_now (now w + 3000) w0)) eq_refl).
    unfold world_after in Hfb.
    destruct (Main.fallback _ _ _) as [[r3 w3] t3]. by intros [= <- <- <-].
Qed.

Lemma engineAnswers_suffix w w1 n :
  engineAnswers w -> tape w1 = drop n (tape w) -> engineAnswers w1.
Proof. unfold engineAnswers. intros H ->. by apply Forall_drop. Qed.

Lemma engineAnswers_outcome w i :
  engineAnswers w -> exists d, outcome_at i w = Settles d.
Proof.
  unfold engineAnswers, outcome_at. intros H.
  destruct (nth_in_or_default i (tape w) (Settles 0)) as [Hin | ->]; [ | by eexists].
  rewrite List.Forall_forall in H. specialize (H _ Hin).
  destruct (nth i (tape w) (Settles 0)) as [d | d e | ]; [by eexists | done | done].
Qed.

(** The leave of the last client of a channel that has a
    conversation. *)
Lemma handleClose_teardown (ws : WebSocket) (w : World)
    (conversationId : string) (clients : list WebSocket) (session : Conversation) :
  clientChannels (server w) !! ws = Some conversationId ->
  conversationId <> "" ->
  channelClients (server w) !! conversationId = Some clients ->
  set_delete ws clients = [] ->
  channelConversations (server w) !! conversationId = Some session ->
  exists w1 t,
    Main.handleClose ws w = (Done tt, w1, t) /\
    channelConversations (server w1) = delete conversationId (channelConversations (server w)) /\
    channelClients (server w1) = delete conversationId (channelClients (server w)) /\
    clientChannels (server w1) = delete ws (clientChannels (server w)) /\
    now w <= now w1 <= now w + 3000 /\
    deadline w1 = deadline w /\
    (exists n, tape w1 = drop n (tape w)) /\
    if isSessionActive w conversationId
    then if graceful_completes w
         then engine_calls t = graceful_calls session /\ detached w1 = detached w
         else exists k, (1 <= k <= 3)%nat /\
              engine_calls t =
                take k (graceful_calls session) ++ [closeSession conversationId] /\
              ((exists d e,
                  outcome_at (k - 1) w = Rejects d e /\
                  In (ELog (LErrorCleaningUp conversationId e)) t /\
                  detached w1 = detached w) \/
               (In (ELog (LErrorCleaningUp conversationId
                            "Error: Session cleanup timeout")) t /\
                now w1 = now w + 3000 /\
                exists running,
                  detached w1 = detached w ++ [running] /\
                  pendingOutcome running = outcome_at (k - 1) w /\
                  now w <= issuedAt running <= now w + 3000 /\
                  match pendingOutcome running with
                  | Settles d | Rejects d _ =>
                      now w + 3000 <= issuedAt running + Z.of_N d
                  | Never => True
                  end /\
                  remaining running = drop k (graceful_calls session) /\
                  forall w',
                    engineAnswers w' -> deadline w' = None ->
                    exists w2 t',
                      resume running w' = (Done tt, w2, t') /\
                      server w2 = server w' /\
                      engine_calls t' =
                        match outcome_at (k - 1) w with
                        | Settles _ => drop k (graceful_calls session)
                        | Rejects _ _ | Never => []
                        end))
    else engine_calls t = [] /\ detached w1 = detached w.
Proof.
  intros Hws Hne Hcl Hlast Hconv.
  unfold Main.handleClose. rewrite bind_gets, Hws.
  replace (truthy_id (Some conversationId)) with (Some conversationId)
    by (by destruct conversationId).
  rewrite bind_gets, Hcl. cbn zeta. mnorm. rewrite bind_log, Hlast. cbn [length Nat.eqb when].
  set (w0 := set_server (Main.set_channelClients <[conversationId := []]>) w).
  assert (channelConversations (server w0) !! conversationId = Some session) as Hconv0
    by exact Hconv.
  destruct (isSessionActive w conversationId) eqn:Hact.
  - destruct (cleanup_fate conversationId session w0)
      as (w1 & t & E & Hs & Hd & Hn & Hfate).
    pose proof (cleanup_tape _ _ _ _ _ _ E) as Htape.
    rewrite (bind_done _ _ _ _ _ _
               (lastClientLeft_active conversationId session w0 w1 t Hconv0 Hact E)).
    unfold modify. eexists _, _. split; [reflexivity | ].
    cbn [server set_server channelConversations channelClients clientChannels
         Main.set_channelConversations Main.set_channelClients Main.set_clientChannels
         now deadline detached].
    rewrite Hs. subst w0. cbn in Hn, Hd, Hfate |- *.
    rewrite delete_insert_eq, !app_nil_r.
    split; [done | ]. split; [done | ]. split; [done | ]. split; [lia | ].
    split; [done | ]. split; [exact Htape | ].
    change (graceful_completes (set_server _ w)) with (graceful_completes w) in Hfate.
    destruct (graceful_completes w); [exact Hfate | ].
    destruct Hfate as (k & Hk & Ht & Hcase).
    exists k. split; [done | ]. split; [exact Ht | ].
    destruct Hcase as [(d & e & Ho & Hin & Hdet) | (Hin & Hnow & s & Hsb & Hdet & Ho)].
    + left. exists d, e. split; [done | ]. split; [by do 2 right | done].
    + right. split; [by do 2 right | ]. split; [done | ].
      eexists. split; [exact Hdet | ]. cbn [pendingOutcome issuedAt remaining].
      split; [done | ]. split; [done | ]. split; [exact Ho | ]. split; [done | ].
      intros w' Ha' Hd'.
      destruct (resume_calls
                  {| pendingOutcome := outcome_at (k - 1) w; issuedAt := s;
                     remaining := drop k (graceful_calls session) |} w' Ha' Hd')
        as (w2 & t' & E' & Hs' & Ht').
      by exists w2, t'.
  - rewrite (bind_done _ _ _ _ _ _
               (lastClientLeft_inactive conversationId session w0 Hconv0 Hact)).
    unfold modify. eexists _, _. split; [reflexivity | ].
    subst w0. cbn. rewrite delete_insert_eq.
    repeat split; try done; try lia. by exists 0%nat.
Qed.

(** C4 -- teardown when the last client leaves.  When [ws] is the last
    client of a channel that has a conversation, [handleClose] returns
    (it neither throws nor hangs) at most 3000 ms later with the channel
    deleted from [channelConversations] and [channelClients] and the
    socket from [clientChannels].  If the engine client reports the
    session inactive, no engine call is made at all.  If it reports the
    session active, audio-end, prompt-end and close are issued in that
    order, raced against the timer.  When the three settle within the
    3000 ms nothing else is called and nothing is left running.  When
    one of them is rejected in time, the calls issued so far are
    followed by the close by id [bedrockClient.closeSession] and
    nothing is left running.  When the timer fires first, the calls
    issued so far are followed by the close by id and [handleClose]
    returns at the instant of the timer -- but the race does not cancel
    the graceful sequence: it is left running, suspended on the call it
    was waiting for, and once that call has settled it goes on to issue
    the calls that remain, after the close by id: with an engine that
    settles every call, the close event and the resumption of what it
    left running issue the three graceful calls in every case, with
    the close by id inserted after the [k]-th when the timer has fired
    during that call. *)
Theorem handleClose_last_client (ws : WebSocket) (w : World)
    (conversationId : string) (clients : list WebSocket) (session : Conversation) :
  clientChannels (server w) !! ws = Some conversationId ->
  conversationId <> "" ->
  channelClients (server w) !! conversationId = Some clients ->
  set_delete ws clients = [] ->
  channelConversations (server w) !! conversationId = Some session ->
  (exists w1 t,
    Main.handleClose ws w = (Done tt, w1, t) /\
    channelConversations (server w1) = delete conversationId (channelConversations (server w)) /\
    channelClients (server w1) = delete conversationId (channelClients (server w)) /\
    clientChannels (server w1) = delete ws (clientChannels (server w)) /\
    now w <= now w1 <= now w + 3000 /\
    deadline w1 = deadline w /\
    if isSessionActive w conversationId
    then if graceful_completes w
         then engine_calls t = graceful_calls session /\ detached w1 = detached w
         else exists k, (1 <= k <= 3)%nat /\
              engine_calls t =
                take k (graceful_calls session) ++ [closeSession conversationId] /\
              ((exists d e,
                  outcome_at (k - 1) w = Rejects d e /\
                  In (ELog (LErrorCleaningUp conversationId e)) t /\
                  detached w1 = detached w) \/
               (In (ELog (LErrorCleaningUp conversationId
                            "Error: Session cleanup timeout")) t /\
                now w1 = now w + 3000 /\
                exists running,
                  detached w1 = detached w ++ [running] /\
                  pendingOutcome running = outcome_at (k - 1) w /\
                  now w <= issuedAt running <= now w + 3000 /\
                  match pendingOutcome running with
                  | Settles d | Rejects d _ =>
                      now w + 3000 <= issuedAt running + Z.of_N d
                  | Never => True
                  end /\
                  remaining running = drop k (graceful_calls session) /\
                  forall w',
                    engineAnswers w' -> deadline w' = None ->
                    exists w2 t',
                      resume running w' = (Done tt, w2, t') /\
                      server w2 = server w' /\
                      engine_calls t' =
                        match outcome_at (k - 1) w with
                        | Settles _ => drop k (graceful_calls session)
                        | Rejects _ _ | Never => []
                        end))
    else engine_calls t = [] /\ detached w1 = detached w) /\
  (isSessionActive w conversationId = true ->
   engineAnswers w -> deadline w = None -> detached w = [] ->
   exists w1 t w2 t2,
     Main.handleClose ws w = (Done tt, w1, t) /\
     runDetached w1 = (Done tt, w2, t2) /\
     (Main.handleClose ws;; runDetached) w = (Done tt, w2, t ++ t2) /\
     server w2 = server w1 /\
     if graceful_completes w
     then engine_calls (t ++ t2) = graceful_calls session
     else exists k, (1 <= k <= 3)%nat /\
          engine_calls (t ++ t2) =
            take k (graceful_calls session) ++ [closeSession conversationId]
            ++ drop k (graceful_calls session)).
Proof.
  intros Hws Hne Hcl Hlast Hconv.
  destruct (handleClose_teardown ws w conversationId clients session Hws Hne Hcl Hlast Hconv)
    as (w1 & t & E & Hcc & Hclients & Hbound & Hnow & Hd & [n Htape] & Hfate).
  split; [by exists w1, t | ].
  intros Hact Ha Hd0 Hdet0. rewrite Hact in Hfate.
  assert (engineAnswers (set_detached [] w1)) as Ha1
    by (apply (engineAnswers_suffix w _ n Ha); exact Htape).
  assert (deadline (set_detached [] w1) = None) as Hd1 by (cbn; congruence).
  assert (forall running,
            detached w1 = running ->
            runDetached w1 = (forEach resume running) (set_detached [] w1)) as Hrun.
  { intros running Hr. unfold runDetached. rewrite bind_gets, Hr. by rewrite bind_modify. }
  destruct (graceful_completes w).
  - destruct Hfate as [Ht Hdet]. rewrite Hdet0 in Hdet.
    exists w1, t, (set_detached [] w1), [].
    split; [exact E | ]. rewrite (Hrun [] Hdet).
    split; [reflexivity | ].
    split; [by rewrite (bind_done _ _ _ _ _ _ E), (Hrun [] Hdet) | ].
    split; [reflexivity | by rewrite app_nil_r].
  - destruct Hfate as (k & Hk & Ht & [(d & e & Ho & _) | (_ & _ & running & Hdet & Hp & _ & _ & _ & Hres)]).
    { destruct (engineAnswers_outcome w (k - 1) Ha) as [d' Hd']. congruence. }
    rewrite Hdet0 in Hdet. cbn [app] in Hdet.
    destruct (Hres (set_detached [] w1) Ha1 Hd1) as (w2 & t2 & E2 & Hs2 & Ht2).
    destruct (engineAnswers_outcome w (k - 1) Ha) as [d' Hd']. rewrite Hd' in Ht2.
    assert (runDetached w1 = (Done tt, w2, t2)) as Er.
    { rewrite (Hrun _ Hdet). cbn [forEach]. rewrite (bind_done _ _ _ _ _ _ E2).
      unfold ret. by rewrite app_nil_r. }
    exists w1, t, w2, t2.
    split; [exact E | ]. split; [exact Er | ].
    split; [by rewrite (bind_done _ _ _ _ _ _ E), Er | ].
    split; [exact Hs2 | ].
    exists k. split; [done | ]. by rewrite engine_calls_app, Ht, Ht2, <- app_assoc.
Qed.

(** The hypotheses of [handleClose_idempotent] hold for socket 9, which
    never joined, and for socket 7 once it has left channel c1. *)
Lemma handleClose_idempotent_witness :
  let w := world_of one_client_server (fun _ => true) [] in
  Main.handleClose 9%nat w = (Done tt, w, [ELog LNoChannelToCleanUp]) /\
  exists w1 t,
    Main.handleClose 7%nat w = (Done tt, w1, t) /\
    Main.handleClose 7%nat w1 = (Done tt, w1, [ELog LNoChannelToCleanUp]).
Proof.
  intros w. split.
  - apply (proj1 (handleClose_idempotent 9%nat w)). reflexivity.
  - destruct (Main.handleClose 7%nat w) as [[r w1] t] eqn:E.
    destruct (proj2 (handleClose_idempotent 7%nat w) r w1 t E) as [-> H2].
    exists w1, t. split; [reflexivity | ]. apply H2. reflexivity.
Defined.

(** The hypotheses of [handleClose_last_client] hold for client 7 of
    channel c1: when the engine answers at once the three graceful
    calls are all that is issued; when the first call takes 3500 ms the
    close event and the resumption of the sequence it left running
    issue the three graceful calls with the close by id among them. *)
Lemma handleClose_last_client_witness :
  (exists w1 t,
     Main.handleClose 7%nat (world_of one_client_server (fun _ => true) []) = (Done tt, w1, t) /\
     engine_calls t = graceful_calls (conv 0 "c1")) /\
  (exists w1 t w2 t2,
     Main.handleClose 7%nat (world_of one_client_server (fun _ => true) [Settles 3500])
       = (Done tt, w1, t) /\
     runDetached w1 = (Done tt, w2, t2) /\
     exists k, (1 <= k <= 3)%nat /\
       engine_calls (t ++ t2) =
         take k (graceful_calls (conv 0 "c1")) ++ [closeSession "c1"]
         ++ drop k (graceful_calls (conv 0 "c1"))).
Proof.
  split.
  - destruct (handleClose_last_client 7%nat
                (world_of one_client_server (fun _ => true) [])
                "c1" [7%nat] (conv 0 "c1"))
      as [(w1 & t & E & _ & _ & _ & _ & _ & Ht) _];
      [ reflexivity | discriminate | reflexivity | reflexivity | reflexivity | ].
    exists w1, t. split; [exact E | exact (proj1 Ht)].
  - destruct (handleClose_last_client 7%nat
                (world_of one_client_server (fun _ => true) [Settles 3500])
                "c1" [7%nat] (conv 0 "c1"))
      as [_ H];
      [ reflexivity | discriminate | reflexivity | reflexivity | reflexivity | ].
    destruct H as (w1 & t & w2 & t2 & E & Er & _ & _ & Ht);
      [ reflexivity | repeat constructor | reflexivity | reflexivity | ].
    exists w1, t, w2, t2. split; [exact E | ]. split; [exact Er | exact Ht].
Defined.

(** The same leave when the first call of the graceful sequence takes
    3500 ms: the timer fires, [handleClose] closes the session by id
    and returns at the instant of the timer; the graceful sequence,
    left running, goes on to issue prompt-end and close when the event
    loop resumes it. *)
Lemma handleClose_timeout_sequence_goes_on :
  let w := world_of one_client_server (fun _ => true) [Settles 3500] in
  exists w1 t,
    Main.handleClose 7%nat w = (Done tt, w1, t) /\
    engine_calls t = [endAudioContent 0%nat; closeSession "c1"] /\
    now w1 = now w + 3000 /\
    detached w1 =
      [{| pendingOutcome := Settles 3500; issuedAt := now w;
          remaining := [endPrompt 0%nat; close 0%nat] |}] /\
    engine_calls (trace_of (runDetached w1)) = [endPrompt 0%nat; close 0%nat].
Proof.
  eexists _, _. split; [vm_compute; reflexivity | ].
  repeat split; reflexivity.
Qed.

(** C4 as stated fails: client 7 is the last client of channel c1, which
    has a conversation, but the engine client reports the session
    inactive; [handleClose] then makes no engine call -- neither
    audio-end, prompt-end, close nor a close by id -- and removes the
    channel all the same. *)
Lemma handleClose_inactive_session_no_teardown :
  clientChannels one_client_server !! 7%nat = Some "c1" /\
  channelClients one_client_server !! "c1" = Some [7%nat] /\
  channelConversations one_client_server !! "c1" = Some (conv 0 "c1") /\
  exists w1 t,
    Main.handleClose 7%nat (world_of one_client_server (fun _ => false) []) = (Done tt, w1, t) /\
    engine_calls t = [] /\
    channelConversations (server w1) !! "c1" = None.
Proof.
  repeat split; try reflexivity.
  eexists _, _. split; [vm_compute; reflexivity | ].
  split; reflexivity.
Qed.

(** ** The idle sweep *)


Lemma same_but_tape_trans w1 w2 w3 :
  same_but_tape w1 w2 -> same_but_tape w2 w3 -> same_but_tape w1 w3.
Proof. unfold same_but_tape. intros ? ?. destruct_and!. repeat split; congruence. Qed.


Lemma sends_app t1 t2 : sends (t1 ++ t2) = sends t1 ++ sends t2.
Proof. apply omap_app. Qed.

Lemma closes_app t1 t2 : closes (t1 ++ t2) = closes t1 ++ closes t2.
Proof. apply omap_app. Qed.

Lemma logs_app t1 t2 : logs (t1 ++ t2) = logs t1 ++ logs t2.
Proof. apply omap_app. Qed.




(** ** Joining a channel *)

(** C1 fails on the main server.  Sockets 1 and 2 ask for the new
    channel c1 and the handler of socket 2 runs while the join of
    socket 1 is suspended on [await conversation.startSession()]: the
    engine is asked for two conversations (handles 1 and 2); the second
    registration replaces the first conversation and the client set, so
    that socket 1, told [isNewChannel: true] like socket 2, is no longer
    among the clients of c1 and its conversation is in no registry. *)
Theorem join_race_creates_two_conversations :
  let l := Main.turns [0; 1; 0; 1]%nat two_joins in
  channelConversations (server (Main.world two_joins)) !! "c1" = None /\
  created "c1" (Main.history l) = [1; 2]%nat /\
  Main.tasks l = [Main.Joined 1%nat (conv 1 "c1"); Main.Joined 2%nat (conv 2 "c1")] /\
  channelConversations (server (Main.world l)) !! "c1" = Some (conv 2 "c1") /\
  channelClients (server (Main.world l)) !! "c1" = Some [2%nat] /\
  clientChannels (server (Main.world l)) !! 1%nat = Some "c1".
Proof. vm_compute. repeat split; reflexivity. Qed.

(** Should the engine refuse the second [startSession], the second
    socket is not attached to the channel of the first either: it is
    sent an error event and closed. *)
Lemma join_race_second_joiner_turned_away :
  let l := Main.turns [0; 1; 0; 1]%nat two_joins_second_refused in
  created "c1" (Main.history l) = [1; 2]%nat /\
  Main.tasks l = [Main.Joined 1%nat (conv 1 "c1"); Main.Failed 2%nat] /\
  channelClients (server (Main.world l)) !! "c1" = Some [1%nat] /\
  closes (Main.history l) = [2%nat].
Proof. vm_compute. repeat split; reflexivity. Qed.

(** The same two joins one after the other: one conversation, both
    sockets among its clients. *)
Lemma join_in_turn_creates_one_conversation :
  let l := Main.turns [0; 0; 1; 1]%nat two_joins in
  created "c1" (Main.history l) = [1%nat] /\
  Main.tasks l = [Main.Joined 1%nat (conv 1 "c1"); Main.Joined 2%nat (conv 1 "c1")] /\
  channelClients (server (Main.world l)) !! "c1" = Some [1; 2]%nat.
Proof. vm_compute. repeat split; reflexivity. Qed.

(** The legacy server registers the session before its first [await]:
    under the interleaving that breaks the main server, one session is
    created and both sockets end among its clients. *)
Lemma legacy_join_race_creates_one_session :
  let l := Legacy.turns [0; 1; 0; 0; 0; 1]%nat two_joins_legacy in
  created_sessions "c1" (Legacy.history l) = 1%nat /\
  Legacy.tasks l = [Legacy.Joined 1%nat (conv 1 "c1"); Legacy.Joined 2%nat (conv 1 "c1")] /\
  channelClients (server (Legacy.world l)) !! "c1" = Some [2; 1]%nat.
Proof. vm_compute. repeat split; reflexivity. Qed.


(** A socket that asks for a channel that is registered is attached to
    the conversation of that channel, at once and without a call to the
    engine. *)
Lemma begin_existing (ws : WebSocket) (conversationId : string) (w : World)
    (conversation : Conversation) (clients : list WebSocket) :
  channelConversations (server w) !! conversationId = Some conversation ->
  channelClients (server w) !! id conversation = Some clients ->
  exists w1 t,
    Main.begin ws conversationId w = (Done (Main.Joined ws conversation), w1, t) /\
    engine_calls t = [] /\
    channelConversations (server w1) = channelConversations (server w) /\
    channelClients (server w1) !! id conversation = Some (set_add ws clients) /\
    clientChannels (server w1) !! ws = Some (id conversation).
Proof.
  intros Hc Hcl.
  unfold Main.begin, Main.attach, try_catch. rewrite bind_gets, Hc, bind_log.
  rewrite bind_assoc, bind_gets, Hcl. cbn zeta. mnorm.
  cbn. eexists _, _. split; [reflexivity | ].
  cbn. repeat split; by rewrite lookup_insert_eq.
Qed.

(** The two segments of a join, run back to back, are
    [initializeOrJoinChannel]: same world, same effects; a join whose
    [startSession] never settles stays suspended after its first
    segment. *)
Lemma join_segments (ws : WebSocket) (conversationId : string) (w : World) :
  deadline w = None ->
  match Main.begin ws conversationId w with
  | (Done (Main.Starting ws' conversation), w1, t1) =>
      match outcome_at 0 w1 with
      | Never =>
          result_of (Main.initializeOrJoinChannel ws conversationId w) = Blocked /\
          trace_of (Main.initializeOrJoinChannel ws conversationId w) = t1
      | _ =>
          match Main.resume ws' conversation w1 with
          | (_, w2, t2) =>
              Main.initializeOrJoinChannel ws conversationId w = (Done tt, w2, t1 ++ t2)
          end
      end
  | (_, w1, t1) => Main.initializeOrJoinChannel ws conversationId w = (Done tt, w1, t1)
  end.
Proof.
  intros Hd.
  destruct w as [[cc cl chn] rs act sess last tp nh nw dl]. cbn in Hd. subst dl.
  unfold Main.begin, Main.initializeOrJoinChannel, Main.resume, Main.attach,
    Main.register, Main.newConversation, Main.joinFailed, Main.sendError,
    try_catch, bind, gets, modify, log, emit, ret, throw, call, await,
    next_outcome, timer_fired, outcome_at, result_of, trace_of.
  cbn.
  destruct (cc !! conversationId) as [conversation | ]; cbn.
  - destruct (cl !! id conversation) as [clients | ]; cbn; reflexivity.
  - destruct tp as [ | o0 [ | o1 tp]]; cbn;
      try destruct o0; cbn; try destruct o1; cbn;
      try rewrite !lookup_insert_eq; cbn; try reflexivity.
    all: try (split; reflexivity).
Qed.

(** A socket that asks for a channel that is not registered starts a
    conversation of its own and leaves the registries as they were:
    the next socket to ask for the same channel before this join
    resumes finds it unregistered as well. *)
Lemma begin_new (ws : WebSocket) (conversationId : string) (w : World) :
  channelConversations (server w) !! conversationId = None ->
  (forall d e, outcome_at 0 w <> Rejects d e) ->
  exists w1,
    Main.begin ws conversationId w =
      (Done (Main.Starting ws (conv (nextHandle w) conversationId)), w1,
       [ELog (LCreatingNew conversationId);
        EEngine (createConversation conversationId ws (nextHandle w));
        EEngine (startSession (nextHandle w))]) /\
    server w1 = server w /\
    nextHandle w1 = S (nextHandle w) /\
    tape w1 = tl (tape w).
Proof.
  intros Hc Hok.
  unfold Main.begin, Main.newConversation, try_catch. rewrite bind_gets, Hc, bind_log.
  mnorm. unfold bind, call, next_outcome.
  change (outcome_at 0 (set_nextHandle (S (nextHandle w)) w)) with (outcome_at 0 w).
  destruct (outcome_at 0 w) as [d | d e | ] eqn:Ho;
    [ | by destruct (Hok d e) | ]; cbn; eexists; done.
Qed.

(** *** The legacy server creates one session per channel *)

Lemma created_sessions_app c t1 t2 :
  created_sessions c (t1 ++ t2) = (created_sessions c t1 + created_sessions c t2)%nat.
Proof. unfold created_sessions. by rewrite List.filter_app, length_app. Qed.

Lemma neverRejects_outcome w :
  neverRejects w -> match outcome_at 0 w with Rejects _ _ => False | _ => True end.
Proof.
  unfold neverRejects, outcome_at. destruct (tape w) as [ | o rest]; [done | ].
  intros H. by apply Forall_cons in H as [H _].
Qed.

Lemma neverRejects_tl w w1 :
  neverRejects w -> tape w1 = tl (tape w) -> neverRejects w1.
Proof.
  unfold neverRejects. intros H ->. destruct (tape w) as [ | o rest]; [done | ].
  by apply Forall_cons in H as [_ H].
Qed.

Lemma legacyTaskOf_registered c s task :
  legacyTaskOf c None task -> legacyTaskOf c (Some s) task.
Proof. by destruct task. Qed.

Ltac legacy_unfold :=
  unfold Legacy.runTask, Legacy.begin, Legacy.resume, Legacy.continue, Legacy.create,
    Legacy.newStreamSession, Legacy.joinFailed, Legacy.sendError, Main.attach,
    Main.register, try_catch, bind, gets, modify, log, emit, ret, throw, call,
    next_outcome, outcome_at.

(** One turn of the event loop keeps the invariant. *)
Lemma legacy_turn_inv c i l : legacyJoins c l -> legacyJoins c (Legacy.turn i l).
Proof.
  intros (Hrej & Htasks & Hreg). unfold Legacy.turn.
  destruct (Legacy.tasks l !! i) as [task | ] eqn:Hi; [ | done].
  pose proof (Forall_lookup_1 _ _ _ _ Htasks Hi) as Htask.
  destruct l as [w tasks history]. cbn [Legacy.world Legacy.tasks Legacy.history] in *.
  destruct w as [[cc cl chn] rs act sess last tp nh nw dl].
  unfold neverRejects in Hrej.
  cbn [server channelConversations channelClients tape] in *.
  destruct task as [ws c' | k ws s | ws s | ws s | ws]; cbn in Htask.
  - subst c'. legacy_unfold. cbn.
    destruct (cc !! c) as [s | ] eqn:Hc; cbn.
    + destruct Hreg as (Hid & [cs Hcs] & Hcount). rewrite Hid, Hcs. cbn.
      unfold legacyJoins. cbn -[created_sessions]. rewrite Hc, lookup_insert_eq.
      split; [exact Hrej | ]. split.
      * apply Forall_insert; [exact Htasks | done].
      * split; [exact Hid | ]. split; [by eexists | ].
        rewrite created_sessions_app, Hcount. reflexivity.
    + assert (Htasks' : forall s, Forall (legacyTaskOf c (Some s)) tasks).
      { intros s. eapply Forall_impl; [exact Htasks | ].
        intros task. apply legacyTaskOf_registered. }
      destruct tp as [ | o0 [ | o1 tp]]; cbn;
        try (apply Forall_cons in Hrej as [Ho0 Hrej]);
        try (apply Forall_cons in Hrej as [Ho1 Hrej]);
        try destruct o0; try destruct o1; try done; cbn;
        unfold legacyJoins; cbn -[created_sessions];
        rewrite !lookup_insert_eq;
        (split; [first [exact Hrej | constructor] | ]);
        (split; [apply Forall_insert; [apply Htasks' | done] | ]);
        (split; [reflexivity | ]); (split; [by eexists | ]);
        rewrite created_sessions_app, Hreg; unfold created_sessions; cbn;
        rewrite bool_decide_eq_true_2 by done; reflexivity.
  - rewrite Htask in *. destruct Hreg as (Hid & [cs Hcs] & Hcount).
    legacy_unfold. cbn.
    destruct tp as [ | o tp]; cbn;
      try (apply Forall_cons in Hrej as [Ho Hrej]);
      try destruct o; try done;
      destruct k as [ | [ | k]]; cbn; rewrite ?Hid, ?Hcs; cbn;
      unfold legacyJoins; cbn -[created_sessions];
      rewrite ?lookup_insert_eq, Htask;
      (split; [first [exact Hrej | constructor] | ]);
      (split; [first [apply Forall_insert; [exact Htasks | done] | exact Htasks] | ]);
      (split; [exact Hid | ]); (split; [by eexists | ]);
      rewrite created_sessions_app, Hcount; reflexivity.
  - unfold legacyJoins. cbn -[created_sessions]. rewrite app_nil_r.
    rewrite list_insert_id by done. done.
  - unfold legacyJoins. cbn -[created_sessions]. rewrite app_nil_r.
    rewrite list_insert_id by done. done.
  - done.
Qed.

Lemma legacy_turns_inv c schedule l :
  legacyJoins c l -> legacyJoins c (Legacy.turns schedule l).
Proof.
  unfold Legacy.turns. revert l.
  induction schedule as [ | i schedule IH]; intros l Hl; [exact Hl | ].
  cbn [fold_left]. apply IH, legacy_turn_inv, Hl.
Qed.

(** In the legacy server, against an engine that refuses no call, any
    number of sockets that ask for one unregistered channel, under any
    interleaving of their joins, make the server create at most one
    session, and every socket that has joined holds the session that
    is registered for the channel. *)
Lemma legacy_joins_create_one_session (c : string) (sockets : list WebSocket)
    (w : World) (schedule : list nat) :
  channelConversations (server w) !! c = None ->
  neverRejects w ->
  let l := Legacy.turns schedule
             {| Legacy.world := w;
                Legacy.tasks := map (fun ws => Legacy.Arrived ws c) sockets;
                Legacy.history := [] |} in
  (created_sessions c (Legacy.history l) <= 1)%nat /\
  forall ws s, Legacy.Joined ws s ∈ Legacy.tasks l ->
    channelConversations (server (Legacy.world l)) !! c = Some s.
Proof.
  intros Hc Hrej l.
  assert (legacyJoins c l) as (_ & Htasks & Hreg).
  { apply legacy_turns_inv. unfold legacyJoins. cbn. rewrite Hc.
    split; [exact Hrej | ]. split; [ | reflexivity].
    apply Forall_forall. intros task Hin.
    apply list_elem_of_fmap in Hin as (ws & -> & _). reflexivity. }
  split.
  - destruct (channelConversations (server (Legacy.world l)) !! c); [ | lia].
    destruct Hreg as (_ & _ & ->). lia.
  - intros ws s Hin. by apply (proj1 (Forall_forall _ _) Htasks) in Hin.
Qed.

(** *** The main server creates one conversation per overlapping join *)

Lemma created_app c t1 t2 : created c (t1 ++ t2) = created c t1 ++ created c t2.
Proof. apply omap_app. Qed.

(** The first segments of any number of joins to one unregistered
    channel, run one after the other before any of them resumes, each
    create a conversation. *)
Lemma main_begins_create_each (c : string) (sockets : list WebSocket) :
  forall (before : list Main.JoinTask) (w : World) (history : list Effect),
    channelConversations (server w) !! c = None ->
    neverRejects w ->
    let l := Main.turns (seq (length before) (length sockets))
               {| Main.world := w;
                  Main.tasks := before ++ map (fun ws => Main.Arrived ws c) sockets;
                  Main.history := history |} in
    created c (Main.history l) = created c history ++ seq (nextHandle w) (length sockets) /\
    channelConversations (server (Main.world l)) !! c = None.
Proof.
  induction sockets as [ | ws sockets IH]; intros before w history Hc Hrej l.
  - subst l. cbn. by rewrite app_nil_r.
  - subst l. cbn [length seq map Main.turns fold_left].
    destruct (begin_new ws c w Hc) as (w1 & E & Hs & Hn & Ht).
    { intros d e Ho. pose proof (neverRejects_outcome w Hrej) as H. by rewrite Ho in H. }
    assert (Main.turn (length before)
              {| Main.world := w;
                 Main.tasks := before ++ Main.Arrived ws c
                                 :: map (fun ws => Main.Arrived ws c) sockets;
                 Main.history := history |}
            = {| Main.world := w1;
                 Main.tasks := before ++ Main.Starting ws (conv (nextHandle w) c)
                                 :: map (fun ws => Main.Arrived ws c) sockets;
                 Main.history := history ++
                   [ELog (LCreatingNew c);
                    EEngine (createConversation c ws (nextHandle w));
                    EEngine (startSession (nextHandle w))] |}) as Hturn.
    { unfold Main.turn. cbn [Main.tasks Main.world Main.history].
      rewrite list_lookup_middle by done. cbn [Main.runTask]. rewrite E.
      by rewrite insert_app_r_alt, Nat.sub_diag by done. }
    rewrite Hturn.
    specialize (IH (before ++ [Main.Starting ws (conv (nextHandle w) c)]) w1
                  (history ++ [ELog (LCreatingNew c);
                               EEngine (createConversation c ws (nextHandle w));
                               EEngine (startSession (nextHandle w))])).
    rewrite length_app, Nat.add_1_r, <- app_assoc in IH. cbn [app length] in IH.
    destruct IH as [IHc IHs].
    { by rewrite Hs. }
    { by apply (neverRejects_tl w). }
    unfold Main.turns in IHc, IHs |- *.
    split; [ | exact IHs].
    rewrite IHc, created_app, Hn, <- app_assoc.
    f_equal. unfold created. cbn. by rewrite decide_True.
Qed.

(** In the main server, against an engine that refuses no call, [n]
    sockets whose joins to one unregistered channel all start before
    the first of them resumes make the server create [n]
    conversations. *)
Lemma main_overlapping_joins_create_one_each (c : string) (sockets : list WebSocket)
    (w : World) :
  channelConversations (server w) !! c = None ->
  neverRejects w ->
  let l := Main.turns (seq 0 (length sockets))
             {| Main.world := w;
                Main.tasks := map (fun ws => Main.Arrived ws c) sockets;
                Main.history := [] |} in
  created c (Main.history l) = seq (nextHandle w) (length sockets).
Proof.
  intros Hc Hrej. apply (main_begins_create_each c sockets [] w [] Hc Hrej).
Qed.

(** ** Fan-out and framing *)

Lemma sendIfOpen_run message c w :
  sendIfOpen message c w =
    (Done tt, w,
     if (readyState w c =? ReadyState.OPEN)%Z then [ESend c message] else []).
Proof.
  unfold sendIfOpen. rewrite bind_gets.
  by destruct (readyState w c =? ReadyState.OPEN)%Z.
Qed.

Lemma sendToOpen_run clients message w :
  sendToOpen clients message w =
    (Done tt, w, map (fun c => ESend c message) (openClients w clients)).
Proof.
  unfold sendToOpen.
  induction clients as [ | c clients IH]; [reflexivity | ].
  cbn [forEach openClients List.filter]. unfold bind.
  rewrite sendIfOpen_run, IH. fold (openClients w clients).
  by destruct (readyState w c =? ReadyState.OPEN)%Z.
Qed.

Lemma sends_of_sends clients message :
  sends (map (fun c => ESend c message) clients) = map (fun c => (c, message)) clients.
Proof. induction clients as [ | c clients IH]; [done | ]. cbn. by rewrite <- IH. Qed.

Lemma flat_map_through_map {A B C} (f : B -> list C) (g : A -> B) (l : list A) :
  flat_map f (map g l) = flat_map (fun x => f (g x)) l.
Proof. induction l as [ | x l IH]; [done | ]. cbn. by rewrite IH. Qed.

(** The framing loop with [n] complete chunks ahead of [offset]: given
    more fuel than chunks it returns, having sent chunk after chunk to
    the open clients, with [offset] moved past the last complete chunk;
    the world is untouched. *)
Lemma sendChunks_run samples clients w n :
  forall fuel offset,
    (n < fuel)%nat ->
    (offset + n * SAMPLES_PER_CHUNK <= length samples)%nat ->
    (length samples < offset + n * SAMPLES_PER_CHUNK + SAMPLES_PER_CHUNK)%nat ->
    sendChunks fuel samples clients offset w =
      (Done (offset + n * SAMPLES_PER_CHUNK)%nat, w,
       flat_map
         (fun i => map (fun c => ESend c (WPcm (slice samples (offset + i * SAMPLES_PER_CHUNK)
                                                  (offset + i * SAMPLES_PER_CHUNK + SAMPLES_PER_CHUNK))))
                       (openClients w clients))
         (seq 0 n)).
Proof.
  induction n as [ | n IH]; intros fuel offset Hfuel Hlo Hhi.
  - destruct fuel as [ | fuel]; [lia | ]. cbn [sendChunks].
    destruct (Nat.leb_spec (offset + SAMPLES_PER_CHUNK) (length samples)); [lia | ].
    cbn. by rewrite Nat.add_0_r.
  - destruct fuel as [ | fuel]; [lia | ]. cbn [sendChunks].
    destruct (Nat.leb_spec (offset + SAMPLES_PER_CHUNK) (length samples)); [ | lia].
    unfold bind. rewrite sendToOpen_run.
    rewrite (IH fuel (offset + SAMPLES_PER_CHUNK)%nat) by lia.
    f_equal; [f_equal; f_equal; lia | ].
    cbn [seq flat_map]. rewrite Nat.mul_0_l, Nat.add_0_r. f_equal.
    rewrite <- seq_shift, flat_map_through_map.
    apply flat_map_ext. intros i.
    replace (offset + SAMPLES_PER_CHUNK + i * SAMPLES_PER_CHUNK)%nat
      with (offset + S i * SAMPLES_PER_CHUNK)%nat by lia.
    reflexivity.
Qed.

Lemma deliveries_app w clients m1 m2 :
  deliveries w clients (m1 ++ m2) = deliveries w clients m1 ++ deliveries w clients m2.
Proof. unfold deliveries. by rewrite flat_map_app. Qed.

Lemma sends_flat_map {A} (f : A -> list Effect) (l : list A) :
  sends (flat_map f l) = flat_map (fun x => sends (f x)) l.
Proof.
  induction l as [ | x l IH]; [done | ]. cbn [flat_map]. by rewrite sends_app, IH.
Qed.

(** The framing loop as both listeners start it, with one unit of fuel
    more than there are samples: it returns, and what it has sent is
    every complete 320-sample chunk, in order, to every open client. *)
Lemma sendChunks_all samples clients w :
  exists t,
    sendChunks (S (length samples)) samples clients 0 w =
      (Done (length samples / SAMPLES_PER_CHUNK * SAMPLES_PER_CHUNK)%nat, w, t) /\
    sends t = deliveries w clients (map WPcm (chunksOf samples)) /\
    engine_calls t = [] /\ logs t = [] /\ closes t = [].
Proof.
  pose proof (Nat.Div0.mul_div_le (length samples) SAMPLES_PER_CHUNK) as Hlo.
  pose proof (Nat.mul_succ_div_gt (length samples) SAMPLES_PER_CHUNK) as Hhi.
  change SAMPLES_PER_CHUNK with 320%nat in *.
  eexists. split.
  - rewrite (sendChunks_run samples clients w (length samples / 320))
      by (change SAMPLES_PER_CHUNK with 320%nat; lia).
    change SAMPLES_PER_CHUNK with 320%nat. reflexivity.
  - unfold deliveries, chunksOf, chunkAt. change SAMPLES_PER_CHUNK with 320%nat.
    rewrite flat_map_through_map, flat_map_through_map, sends_flat_map.
    repeat split.
    + apply flat_map_ext. intros i. by rewrite sends_of_sends.
    + generalize (seq 0 (length samples / 320)). intros l.
      induction l as [ | i l IH]; [done | ]. cbn [flat_map].
      rewrite engine_calls_app, IH, app_nil_r.
      generalize (openClients w clients). intros cs. by induction cs.
    + generalize (seq 0 (length samples / 320)). intros l.
      induction l as [ | i l IH]; [done | ]. cbn [flat_map].
      rewrite logs_app, IH, app_nil_r.
      generalize (openClients w clients). intros cs. by induction cs.
    + generalize (seq 0 (length samples / 320)). intros l.
      induction l as [ | i l IH]; [done | ]. cbn [flat_map].
      rewrite closes_app, IH, app_nil_r.
      generalize (openClients w clients). intros cs. by induction cs.
Qed.

Section Listeners.
Context {P : Platform}.

Lemma Buffer_from_base64_cases (v : JsValue) w :
  (exists bytes, Buffer_from_base64 v w = (Done bytes, w, [])) \/
  (exists e, Buffer_from_base64 (P := P) v w = (Thrown e, w, [])).
Proof.
  unfold Buffer_from_base64.
  destruct v as [[ | b | n | s | items | fields] | ];
    try destruct (Buffer_from_object _); eauto.
Qed.

(** What delivering a list of messages to the open clients means. *)
Lemma deliveries_sound w clients messages t :
  sends t = deliveries w clients messages ->
  onlyToOpen w t /\ reachesAllOpen w clients t.
Proof.
  intros Ht. unfold onlyToOpen, reachesAllOpen. rewrite Ht. unfold deliveries.
  split.
  - intros c m Hin. apply list_elem_of_In, in_flat_map in Hin as (m' & _ & Hin).
    apply in_map_iff in Hin as (c' & [= -> ->] & Hin).
    apply filter_In in Hin as [_ Hopen]. by apply Z.eqb_eq.
  - intros c m Hin c' Hc' Hopen.
    apply list_elem_of_In, in_flat_map in Hin as (m' & Hm' & Hin).
    apply in_map_iff in Hin as (c'' & [= -> ->] & Hin).
    apply list_elem_of_In, in_flat_map. exists m. split; [done | ].
    apply in_map_iff. exists c'. split; [done | ].
    apply filter_In. split; [by apply list_elem_of_In | by apply Z.eqb_eq].
Qed.

Lemma deliveries_nil w clients : deliveries w clients [] = [].
Proof. reflexivity. Qed.

Lemma deliveries_cons w clients m l :
  deliveries w clients (m :: l) =
    map (fun c => (c, m)) (openClients w clients) ++ deliveries w clients l.
Proof. reflexivity. Qed.

Lemma deliveries_one w clients m :
  deliveries w clients [m] = map (fun c => (c, m)) (openClients w clients).
Proof. unfold deliveries. cbn. by rewrite app_nil_r. Qed.

(** The legacy listener: the JSON envelope, then every complete chunk
    of this event's samples alone; what is left over is returned. *)
Lemma Legacy_onAudioOutput_run channelId data content w :
  assoc "content" data = Some (JStr content) ->
  let pcm := int16View (fromBase64 content) in
  let sent := (length pcm / SAMPLES_PER_CHUNK * SAMPLES_PER_CHUNK)%nat in
  exists t,
    Legacy.onAudioOutput channelId data w =
      (Done (if (sent <? length pcm)%nat then Some (slice pcm sent (length pcm)) else None),
       w, t) /\
    sends t =
      deliveries w (clientsIn w channelId)
        (WText (JObj [("event", JObj [("audioOutput", JObj data)])])
           :: map WPcm (chunksOf pcm)).
Proof.
  intros Hc pcm sent. unfold Legacy.onAudioOutput. rewrite Hc.
  cbn [Buffer_from_base64]. rewrite bind_ret, bind_gets.
  cbn [Legacy.useJson Legacy.useVonage when].
  fold (clientsIn w channelId). fold pcm.
  destruct (sendChunks_all pcm (clientsIn w channelId) w) as (tc & Ec & Hs & _).
  unfold bind. rewrite sendToOpen_run, Ec. unfold ret.
  eexists. split; [reflexivity | ].
  by rewrite app_nil_r, sends_app, sends_of_sends, Hs, deliveries_cons.
Qed.
End Listeners.

Section MainListeners.
Context {P : Platform}.
Variable browser_isOn : bool.
Variable vonage : VonageIntegration.
Variable twilio : TwilioIntegration.

Lemma Browser_tryProcessAudioOutput_run isOn data clients w :
  Browser.tryProcessAudioOutput isOn data clients w =
    (Done tt, w,
     if isOn
     then ELog LBrowser29
            :: map (fun c => ESend c (Browser.audioOutputEnvelope data))
                   (openClients w clients)
     else []).
Proof.
  unfold Browser.tryProcessAudioOutput. destruct isOn; [ | reflexivity].
  cbn [negb]. rewrite bind_log, sendToOpen_run. reflexivity.
Qed.

(** The listener of [audioOutput] of the main server, run on a payload
    whose [content] makes a buffer. *)
Lemma onAudioOutput_run (conversation : Conversation)
    (data : list (string * Json)) (buffer : list Z) (w : World) :
  Buffer_from_base64 (assoc "content" data) w = (Done buffer, w, []) ->
  let clients := clientsIn w (id conversation) in
  let pcmSamples := int16View buffer in
  exists t_pcm,
    sends t_pcm = deliveries w clients (map WPcm (chunksOf pcmSamples)) /\
    engine_calls t_pcm = [] /\
    Main.onAudioOutput browser_isOn twilio conversation data w =
      (let '(_, w1, t_twilio) :=
         if twilio_isOn twilio
         then twilio_tryProcessAudioOutput twilio pcmSamples clients
                (twilioStreamSid conversation) w
         else (Done tt, w, []) in
       (Done tt, w1,
        t_pcm ++ t_twilio ++
        (if browser_isOn
         then ELog LBrowser29
                :: map (fun c => ESend c (Browser.audioOutputEnvelope data))
                       (openClients w1 clients)
         else []))).
Proof.
  intros Hb clients pcmSamples.
  destruct (sendChunks_all pcmSamples clients w) as (tc & Ec & Hs & He & _).
  exists tc. split; [exact Hs | ]. split; [exact He | ].
  unfold Main.onAudioOutput, Main.clientsOf. rewrite bind_gets.
  rewrite (bind_done _ _ _ _ _ _ Hb). cbn [app].
  fold (clientsIn w (id conversation)). fold clients. fold pcmSamples.
  unfold bind at 1. rewrite Ec.
  destruct (twilio_isOn twilio); cbn [when].
  - unfold bind, spawn.
    destruct (twilio_tryProcessAudioOutput twilio _ _ _ w) as [[r1 w1] t1].
    destruct browser_isOn; cbn [when].
    + rewrite Browser_tryProcessAudioOutput_run. reflexivity.
    + unfold ret. by rewrite app_nil_r.
  - rewrite bind_ret.
    destruct browser_isOn; cbn [when].
    + unfold spawn. rewrite Browser_tryProcessAudioOutput_run. reflexivity.
    + unfold ret. reflexivity.
Qed.

(** When the payload has no string [content], [Buffer.from] throws
    before anything is sent. *)
Lemma onAudioOutput_throws (conversation : Conversation)
    (data : list (string * Json)) e (w : World) :
  Buffer_from_base64 (assoc "content" data) w = (Thrown e, w, []) ->
  Main.onAudioOutput browser_isOn twilio conversation data w = (Thrown e, w, []).
Proof.
  intros Hb. unfold Main.onAudioOutput, Main.clientsOf. rewrite bind_gets.
  unfold bind. by rewrite Hb.
Qed.

End MainListeners.

Section OutputPaths.
Context {P : Platform}.

Lemma Genesys_tryProcessAudioOutput_run isOn pcmSamples clients streamId w :
  Genesys.tryProcessAudioOutput isOn pcmSamples clients streamId w =
    (Done tt, w,
     if isOn
     then ELog (LGenesysResponse (Genesys.encodeOutbound pcmSamples streamId))
            :: map (fun c => ESend c (WText (Genesys.encodeOutbound pcmSamples streamId)))
                   (openClients w clients)
     else []).
Proof.
  unfold Genesys.tryProcessAudioOutput. destruct isOn; [ | reflexivity].
  cbn [negb]. unfold try_catch. by rewrite bind_log, sendToOpen_run.
Qed.

Lemma sends_log l t : sends (ELog l :: t) = sends t.
Proof. reflexivity. Qed.

Lemma TwilioSource_tryProcessAudioOutput_run isOn pcmSamples clients streamSid w :
  TwilioSource.tryProcessAudioOutput isOn pcmSamples clients streamSid w =
    (Done tt, w,
     if isOn
     then ELog (LEvent "response" false)
            :: map (fun c => ESend c (WText (TwilioSource.encodeOutbound pcmSamples streamSid)))
                   (openClients w clients)
     else []).
Proof.
  unfold TwilioSource.tryProcessAudioOutput. destruct isOn; [ | reflexivity].
  cbn [negb]. unfold try_catch. by rewrite bind_log, sendToOpen_run.
Qed.

(** What the listener of the main server sends with the Twilio
    integration of the source: the chunks, then the media message,
    then the envelope of the Browser integration, each to every open
    client of the channel. *)
Lemma onAudioOutput_TwilioSource_deliveries browser_isOn twilio_on conversation data buffer w :
  Buffer_from_base64 (assoc "content" data) w = (Done buffer, w, []) ->
  exists t,
    Main.onAudioOutput browser_isOn (TwilioSource.integration twilio_on)
      conversation data w = (Done tt, w, t) /\
    sends t =
      deliveries w (clientsIn w (id conversation))
        (map WPcm (chunksOf (int16View buffer))
         ++ (if twilio_on
             then [WText (TwilioSource.encodeOutbound (int16View buffer)
                            (twilioStreamSid conversation))]
             else [])
         ++ (if browser_isOn then [Browser.audioOutputEnvelope data] else [])).
Proof.
  intros Hb.
  destruct (onAudioOutput_run browser_isOn (TwilioSource.integration twilio_on)
              conversation data buffer w Hb) as (tp & Hs & _ & E).
  rewrite E. cbn [twilio_isOn twilio_tryProcessAudioOutput TwilioSource.integration].
  rewrite TwilioSource_tryProcessAudioOutput_run.
  exists (tp
          ++ (if twilio_on
              then ELog (LEvent "response" false)
                     :: map (fun c => ESend c (WText (TwilioSource.encodeOutbound
                                                        (int16View buffer)
                                                        (twilioStreamSid conversation))))
                            (openClients w (clientsIn w (id conversation)))
              else [])
          ++ (if browser_isOn
              then ELog LBrowser29
                     :: map (fun c => ESend c (Browser.audioOutputEnvelope data))
                            (openClients w (clientsIn w (id conversation)))
              else [])).
  split; [by destruct twilio_on | ].
  rewrite !deliveries_app.
  destruct twilio_on, browser_isOn;
    rewrite ?sends_app, Hs, ?sends_log, ?sends_of_sends,
      ?deliveries_one, ?deliveries_nil, ?app_nil_r;
    reflexivity.
Qed.

(** C5 -- the fan-out of one [audioOutput] event, as the code has it.
    Every complete 320-sample chunk of the event goes, as it is, to
    every open client of the channel, whatever that client's provider;
    then, if Twilio is enabled, its output path is called once for the
    whole event, with all the samples of the event and all the clients
    of the channel: it prints one console line and sends one media
    message to every open client; then, if Browser is enabled, its
    output path is called once: one console line, and the envelope to
    every open client. *)
Theorem onAudioOutput_fanout (browser_isOn twilio_on : bool)
    (conversation : Conversation) (data : list (string * Json)) (content : string)
    (w : World) :
  assoc "content" data = Some (JStr content) ->
  let clients := clientsIn w (id conversation) in
  let pcmSamples := int16View (fromBase64 content) in
  let t_twilio :=
    trace_of (TwilioSource.tryProcessAudioOutput true pcmSamples clients
                (twilioStreamSid conversation) w) in
  let t_browser := trace_of (Browser.tryProcessAudioOutput true data clients w) in
  exists t_pcm,
    sends t_pcm = deliveries w clients (map WPcm (chunksOf pcmSamples)) /\
    engine_calls t_pcm = [] /\ logs t_pcm = [] /\
    Main.onAudioOutput browser_isOn (TwilioSource.integration twilio_on)
      conversation data w =
      (Done tt, w,
       t_pcm ++ (if twilio_on then t_twilio else [])
             ++ (if browser_isOn then t_browser else [])) /\
    t_twilio =
      ELog (LEvent "response" false)
        :: map (fun c => ESend c (WText (TwilioSource.encodeOutbound pcmSamples
                                           (twilioStreamSid conversation))))
               (openClients w clients) /\
    t_browser =
      ELog LBrowser29
        :: map (fun c => ESend c (Browser.audioOutputEnvelope data))
               (openClients w clients).
Proof.
  intros Hc clients pcmSamples t_twilio t_browser.
  destruct (sendChunks_all pcmSamples clients w) as (tc & Ec & Hs & He & Hl & _).
  exists tc. split; [exact Hs | ]. split; [exact He | ]. split; [exact Hl | ].
  subst t_twilio t_browser.
  rewrite TwilioSource_tryProcessAudioOutput_run, Browser_tryProcessAudioOutput_run.
  cbn [trace_of snd]. split; [ | by split].
  unfold Main.onAudioOutput, Main.clientsOf. rewrite bind_gets, Hc.
  cbn [Buffer_from_base64]. rewrite bind_ret.
  fold (clientsIn w (id conversation)). fold clients. fold pcmSamples.
  unfold bind at 1. rewrite Ec.
  cbn [twilio_isOn twilio_tryProcessAudioOutput TwilioSource.integration].
  destruct twilio_on, browser_isOn; cbn [when]; unfold bind, spawn, ret;
    rewrite ?TwilioSource_tryProcessAudioOutput_run,
      ?Browser_tryProcessAudioOutput_run;
    by rewrite ?app_nil_r.
Qed.
End OutputPaths.

Section FanOut.
Context {P : Platform}.

Lemma onConversationEvent_run conversation eventName isError data w :
  Main.onConversationEvent conversation eventName isError data w =
    (Done tt, w,
     ELog (LEvent eventName isError)
       :: map (fun c => ESend c (WText (JObj [("event", JObj [(eventName, JObj data)])])))
              (openClients w (clientsIn w (id conversation)))).
Proof.
  unfold Main.onConversationEvent, Main.clientsOf.
  by rewrite bind_log, bind_gets, sendToOpen_run.
Qed.

Lemma onStreamComplete_run conversation w :
  Main.onStreamComplete conversation w =
    (Done tt, w,
     ELog (LStreamCompleted (id conversation))
       :: map (fun c => ESend c (WText (JObj [("event", JStr "streamComplete")])))
              (openClients w (clientsIn w (id conversation)))).
Proof.
  unfold Main.onStreamComplete, Main.clientsOf.
  by rewrite bind_log, bind_gets, sendToOpen_run.
Qed.

(** What [deliveries] holds: each message, for each client of the set
    that is open, and nothing else. *)
Lemma deliveries_elem w clients messages c m :
  (c, m) ∈ deliveries w clients messages <->
  m ∈ messages /\ c ∈ clients /\ readyState w c = ReadyState.OPEN.
Proof.
  unfold deliveries, openClients.
  rewrite !list_elem_of_In, in_flat_map. split.
  - intros (m' & Hm' & Hin). apply in_map_iff in Hin as (c' & [= -> ->] & Hin).
    apply filter_In in Hin as [Hc Hopen]. by apply Z.eqb_eq in Hopen.
  - intros (Hm & Hc & Hopen). exists m. split; [done | ].
    apply in_map_iff. exists c. split; [done | ].
    apply filter_In. split; [done | by apply Z.eqb_eq].
Qed.

(** C10 -- every fan-out path sends to open sockets only, and a socket
    that is not open never cuts the delivery short.  On each path --
    the broadcast of a structured event, of [streamComplete], the PCM
    chunks, the Twilio media message and the Browser envelope of an
    [audioOutput] event, the Twilio, Genesys and Browser output paths
    on their own, and the legacy [audioOutput] listener -- the listener
    returns, and the frames it has sent are exactly its messages, in
    order, each to every client of the set whose [readyState] is
    [OPEN], in the order of the set: a frame goes to a client only if
    the client is open, and every open client of the set gets every
    message, wherever the other clients stand in the set.  When
    [Buffer.from] rejects the payload of an [audioOutput] event, the
    listener throws before it has sent anything. *)
Theorem fanout_only_to_open_clients (w : World) :
  (forall clients messages c m,
     (c, m) ∈ deliveries w clients messages <->
     m ∈ messages /\ c ∈ clients /\ readyState w c = ReadyState.OPEN) /\
  (forall conversation eventName isError data,
     exists t,
       Main.onConversationEvent conversation eventName isError data w = (Done tt, w, t) /\
       sends t =
         deliveries w (clientsIn w (id conversation))
           [WText (JObj [("event", JObj [(eventName, JObj data)])])]) /\
  (forall conversation,
     exists t,
       Main.onStreamComplete conversation w = (Done tt, w, t) /\
       sends t =
         deliveries w (clientsIn w (id conversation))
           [WText (JObj [("event", JStr "streamComplete")])]) /\
  (forall browser_isOn twilio_on conversation data,
     match result_of (Buffer_from_base64 (assoc "content" data) w) with
     | Done buffer =>
         exists t,
           Main.onAudioOutput browser_isOn (TwilioSource.integration twilio_on)
             conversation data w = (Done tt, w, t) /\
           sends t =
             deliveries w (clientsIn w (id conversation))
               (map WPcm (chunksOf (int16View buffer))
                ++ (if twilio_on
                    then [WText (TwilioSource.encodeOutbound (int16View buffer)
                                   (twilioStreamSid conversation))]
                    else [])
                ++ (if browser_isOn then [Browser.audioOutputEnvelope data] else []))
     | _ =>
         sends (trace_of (Main.onAudioOutput browser_isOn
                            (TwilioSource.integration twilio_on) conversation data w))
         = []
     end) /\
  (forall isOn pcmSamples clients streamSid,
     exists t,
       TwilioSource.tryProcessAudioOutput isOn pcmSamples clients streamSid w
         = (Done tt, w, t) /\
       sends t =
         deliveries w clients
           (if isOn then [WText (TwilioSource.encodeOutbound pcmSamples streamSid)]
            else [])) /\
  (forall isOn pcmSamples clients streamId,
     exists t,
       Genesys.tryProcessAudioOutput isOn pcmSamples clients streamId w
         = (Done tt, w, t) /\
       sends t =
         deliveries w clients
           (if isOn then [WText (Genesys.encodeOutbound pcmSamples streamId)] else [])) /\
  (forall isOn data clients,
     exists t,
       Browser.tryProcessAudioOutput isOn data clients w = (Done tt, w, t) /\
       sends t =
         deliveries w clients (if isOn then [Browser.audioOutputEnvelope data] else [])) /\
  (forall channelId data,
     match result_of (Buffer_from_base64 (assoc "content" data) w) with
     | Done buffer =>
         exists leftover t,
           Legacy.onAudioOutput channelId data w = (Done leftover, w, t) /\
           sends t =
             deliveries w (clientsIn w channelId)
               (WText (JObj [("event", JObj [("audioOutput", JObj data)])])
                  :: map WPcm (chunksOf (int16View buffer)))
     | _ => sends (trace_of (Legacy.onAudioOutput channelId data w)) = []
     end).
Proof.
  split; [intros; apply deliveries_elem | ].
  split; [ | split; [ | split; [ | split; [ | split; [ | split]]]]].
  - intros conversation eventName isError data.
    rewrite onConversationEvent_run. eexists. split; [reflexivity | ].
    by rewrite sends_log, sends_of_sends, deliveries_one.
  - intros conversation. rewrite onStreamComplete_run.
    eexists. split; [reflexivity | ].
    by rewrite sends_log, sends_of_sends, deliveries_one.
  - intros browser_isOn twilio_on conversation data.
    destruct (Buffer_from_base64_cases (assoc "content" data) w) as [[buffer Hb] | [e Hb]];
      rewrite Hb; cbn [result_of fst].
    + by apply onAudioOutput_TwilioSource_deliveries.
    + by rewrite (onAudioOutput_throws _ _ _ _ e w Hb).
  - intros isOn pcmSamples clients streamSid.
    rewrite TwilioSource_tryProcessAudioOutput_run.
    eexists. split; [reflexivity | ].
    destruct isOn; [ | done]. by rewrite sends_log, sends_of_sends, deliveries_one.
  - intros isOn pcmSamples clients streamId.
    rewrite Genesys_tryProcessAudioOutput_run.
    eexists. split; [reflexivity | ].
    destruct isOn; [ | done]. by rewrite sends_log, sends_of_sends, deliveries_one.
  - intros isOn data clients.
    rewrite Browser_tryProcessAudioOutput_run.
    eexists. split; [reflexivity | ].
    destruct isOn; [ | done]. by rewrite sends_log, sends_of_sends, deliveries_one.
  - intros channelId data. unfold Legacy.onAudioOutput.
    destruct (Buffer_from_base64_cases (assoc "content" data) w) as [[buffer Hb] | [e Hb]];
      rewrite Hb; cbn [result_of fst].
    + rewrite (bind_done _ _ _ _ _ _ Hb), bind_gets.
      cbn [Legacy.useJson Legacy.useVonage when app].
      fold (clientsIn w channelId).
      destruct (sendChunks_all (int16View buffer) (clientsIn w channelId) w)
        as (tc & Ec & Hs & _).
      unfold bind. rewrite sendToOpen_run, Ec. unfold ret.
      eexists _, _. split; [reflexivity | ].
      by rewrite app_nil_r, sends_app, sends_of_sends, Hs, deliveries_cons.
    + unfold bind. by rewrite Hb.
Qed.
End FanOut.

(** On channel c1, whose socket 2 is closed, the broadcast of a
    [textOutput] event reaches socket 1 alone. *)
Lemma fanout_only_to_open_clients_witness :
  let t := trace_of (Main.onConversationEvent (conv 0 "c1") "textOutput" false []
                       one_closed_world) in
  sends t = [(1%nat, WText (JObj [("event", JObj [("textOutput", JObj [])])]))].
Proof.
  intros t.
  destruct (proj1 (proj2 (fanout_only_to_open_clients (P := node) one_closed_world))
              (conv 0 "c1") "textOutput" false []) as (t' & E & Hs).
  subst t. rewrite E. exact Hs.
Defined.

(** ** The output framer and the narrowband path *)

(** The hypothesis of [onAudioOutput_fanout] holds for an event of 640
    samples on a channel with two clients. *)
Lemma onAudioOutput_fanout_witness :
  let data := audioOutputOf samples640 in
  let w := world_of two_client_server (fun _ => true) [] in
  assoc "content" data = Some (JStr (toBase64 (bytesOfInt16 samples640))) /\
  exists t_pcm,
    sends t_pcm =
      deliveries w (clientsIn w "c1")
        (map WPcm (chunksOf (int16View (fromBase64 (toBase64 (bytesOfInt16 samples640)))))) /\
    engine_calls t_pcm = [].
Proof.
  intros data w. split; [reflexivity | ].
  destruct (onAudioOutput_fanout (P := node) true true (conv 0 "c1")
              data (toBase64 (bytesOfInt16 samples640)) w eq_refl) as (t & Hs & He & _).
  exists t. split; [exact Hs | exact He].
Defined.

(** C5 as stated fails.  Channel c1 has two open clients, socket 1 a
    Twilio caller and socket 2 a Vonage caller, and the engine emits one
    event of 640 samples (two canonical frames).  The Twilio caller
    receives both canonical frames as they are; the Vonage caller
    receives the Twilio media message and the Browser envelope; and the
    Twilio path has produced one message for the two frames. *)
Lemma onAudioOutput_ignores_providers :
  let w := world_of two_client_server (fun _ => true) [] in
  let t := trace_of (Main.onAudioOutput (P := node) true
                       (TwilioSource.integration (P := node) true)
                       (conv 0 "c1") (audioOutputOf samples640) w) in
  consumesCanonical (providerOf 1%nat) = false /\
  pcmFramesTo 1%nat t = [take 320 samples640; drop 320 samples640] /\
  providerOf 2%nat = VonageClient /\
  textFramesTo 2%nat t =
    [TwilioSource.encodeOutbound (P := node) samples640 None;
     JObj [("event", JObj [("audioOutput", JObj (audioOutputOf samples640))])]].
Proof. vm_compute. repeat split; reflexivity. Qed.

(** C2 fails on both servers.  Two successive events of 480 samples on
    channel c1: each listener sends the first 320 samples of each event
    and nothing else, so that samples 320..479 of either event never
    reach the client; a framer that kept the leftover would send three
    frames, the second made of the 160 samples left over from the first
    event and the first 160 of the second. *)
Theorem framer_forgets_leftover :
  let w := world_of one_client_server (fun _ => true) [] in
  let legacy :=
    trace_of ((Legacy.onAudioOutput (P := node) "c1" (audioOutputOf samples1);;
               Legacy.onAudioOutput (P := node) "c1" (audioOutputOf samples2))%handler w) in
  let main :=
    trace_of ((Main.onAudioOutput (P := node) false noTwilio (conv 0 "c1")
                 (audioOutputOf samples1);;
               Main.onAudioOutput (P := node) false noTwilio (conv 0 "c1")
                 (audioOutputOf samples2))%handler w) in
  pcmFramesTo 7%nat legacy = [take 320 samples1; take 320 samples2] /\
  pcmFramesTo 7%nat main = [take 320 samples1; take 320 samples2] /\
  spec_framer [] [samples1; samples2] =
    [take 320 samples1; drop 320 samples1 ++ take 160 samples2;
     take 320 (drop 160 samples2)].
Proof. vm_compute. repeat split; reflexivity. Qed.

(** On every event the legacy listener computes the leftover -- the
    samples past the last complete chunk -- and returns it to nobody:
    the next run starts from an empty buffer again. *)
Lemma legacy_leftover_is_local {P : Platform} (channelId : string)
    (data : list (string * Json)) (content : string) (w : World) :
  assoc "content" data = Some (JStr content) ->
  let pcm := int16View (fromBase64 content) in
  exists leftover t,
    Legacy.onAudioOutput channelId data w = (Done leftover, w, t) /\
    sends t =
      deliveries w (clientsIn w channelId)
        (WText (JObj [("event", JObj [("audioOutput", JObj data)])])
           :: map WPcm (chunksOf pcm)).
Proof.
  intros Hc pcm.
  destruct (Legacy_onAudioOutput_run channelId data content w Hc)
    as (t & E & Hs).
  eexists _, t. split; [exact E | exact Hs].
Qed.

Lemma chunkAt_length (samples : list Z) (i : nat) :
  (i * SAMPLES_PER_CHUNK + SAMPLES_PER_CHUNK <= length samples)%nat ->
  length (chunkAt samples i) = SAMPLES_PER_CHUNK.
Proof.
  intros H. unfold chunkAt, slice. rewrite length_take, length_drop.
  change SAMPLES_PER_CHUNK with 320%nat in *. lia.
Qed.

Lemma openClients_single w c :
  readyState w c = ReadyState.OPEN -> openClients w [c] = [c].
Proof. intros H. unfold openClients. cbn. by rewrite H. Qed.

Section Narrowband.
Context {P : Platform}.

(** C6 -- one [audioOutput] event of 1280 bytes on a channel whose only
    client is an open Twilio socket, with the Twilio integration
    enabled and Browser disabled: the client receives the two canonical
    320-sample chunks as binary frames, and one Twilio media message
    (track [outbound], the stream SID of the conversation) whose
    payload holds the 320 mu-law samples of the whole event decimated
    2:1. *)
Theorem twilio_client_receives_one_media_message (conversation : Conversation)
    (data : list (string * Json)) (content : string) (c : WebSocket) (w : World) :
  assoc "content" data = Some (JStr content) ->
  length (fromBase64 content) = 1280%nat ->
  clientsIn w (id conversation) = [c] ->
  readyState w c = ReadyState.OPEN ->
  let pcm := int16View (fromBase64 content) in
  let payload := toBase64 (mulaw_encode (resample16kHzTo8kHz pcm)) in
  exists t,
    Main.onAudioOutput false (TwilioSource.integration true) conversation data w
      = (Done tt, w, t) /\
    pcmFramesTo c t = [chunkAt pcm 0; chunkAt pcm 1] /\
    length (chunkAt pcm 0) = 320%nat /\ length (chunkAt pcm 1) = 320%nat /\
    textFramesTo c t = [TwilioSource.response payload (twilioStreamSid conversation)] /\
    fromBase64 payload = mulaw_encode (resample16kHzTo8kHz pcm) /\
    length (fromBase64 payload) = 320%nat.
Proof.
  intros Hc Hlen Hclients Hopen pcm payload.
  assert (length pcm = 640%nat) as Hpcm.
  { unfold pcm. by rewrite int16View_length, Hlen. }
  destruct (onAudioOutput_TwilioSource_deliveries false true conversation data
              (fromBase64 content) w) as (t & E & Hs).
  { by rewrite Hc. }
  exists t. split; [exact E | ].
  fold pcm in Hs. rewrite Hclients in Hs.
  assert (chunksOf pcm = [chunkAt pcm 0; chunkAt pcm 1]) as Hchunks.
  { unfold chunksOf. by rewrite Hpcm. }
  unfold deliveries in Hs. rewrite (openClients_single w c Hopen), Hchunks in Hs.
  cbn [map flat_map app] in Hs.
  unfold pcmFramesTo, textFramesTo. rewrite Hs. cbn [omap list_omap].
  repeat (rewrite decide_True by done; cbn [omap list_omap]).
  split; [reflexivity | ].
  split; [apply chunkAt_length; rewrite Hpcm; vm_compute; lia | ].
  split; [apply chunkAt_length; rewrite Hpcm; vm_compute; lia | ].
  split; [reflexivity | ].
  assert (fromBase64 payload = mulaw_encode (resample16kHzTo8kHz pcm)) as Hpay.
  { apply fromBase64_toBase64, mulaw_encode_bytes. }
  split; [exact Hpay | ].
  by rewrite Hpay, mulaw_encode_length, resample16kHzTo8kHz_length, Hpcm.
Qed.

Lemma toBase64_nonempty (bytes : list Z) : bytes <> [] -> toBase64 bytes <> "".
Proof. by destruct bytes as [ | a [ | b [ | c rest]]]. Qed.

(** C7 -- round trip through the Genesys adapter.  A canonical frame of
    320 samples encoded by the output path (every other sample, then
    mu-law, base64, JSON) and taken back by the input path (JSON,
    base64, mu-law decoding, no upsampling) reaches the engine as one
    [streamAudio] call that carries a PCM signal of exactly 160
    samples, whatever the engine then answers; sample [i] of the
    decimated signal is sample [2 i] of the frame. *)
Theorem genesys_round_trip_length (frame : list Z) (streamId : option string)
    (session : Conversation) (bytes : list Z) (w : World) :
  length frame = 320%nat ->
  let wire := Genesys.encodeOutbound frame streamId in
  let pcm := mulaw_decode (mulaw_encode (resample16kHzTo8kHz frame)) in
  length pcm = 160%nat /\
  (forall i, (i < 160)%nat ->
     resample16kHzTo8kHz frame !! i = frame !! (i * 2)%nat) /\
  engine_calls
    (trace_of (Genesys.tryProcessAudioInput true
                 {| raw := bytes; parsed := Some wire |} session w))
  = [streamAudio (handle session) (bytesOfInt16 pcm)].
Proof.
  intros Hlen wire pcm.
  assert (length pcm = 160%nat) as Hpcm.
  { unfold pcm.
    by rewrite mulaw_decode_length, mulaw_encode_length, resample16kHzTo8kHz_length, Hlen. }
  split; [exact Hpcm | ].
  split.
  { intros i Hi. apply resample16kHzTo8kHz_lookup. rewrite Hlen. vm_compute. lia. }
  assert (mulaw_encode (resample16kHzTo8kHz frame) <> []) as Hne.
  { intros Hnil. apply (f_equal length) in Hnil.
    rewrite mulaw_encode_length, resample16kHzTo8kHz_length, Hlen in Hnil.
    by vm_compute in Hnil. }
  assert (Htruthy : forall j, truthy (Some (JStr "audio")) = true /\
                              truthy (Some (JObj j)) = true /\
                              truthy (Some (JStr (toBase64 (mulaw_encode
                                        (resample16kHzTo8kHz frame))))) = true).
  { intros j. repeat split; try reflexivity. unfold truthy.
    rewrite bool_decide_eq_false_2; [done | by apply toBase64_nonempty]. }
  unfold Genesys.tryProcessAudioInput, try_catch. cbn [negb].
  unfold JSON_parse. cbn [parsed]. rewrite bind_ret.
  unfold wire, Genesys.encodeOutbound, Genesys.response.
  cbn [prop app]. rewrite !bind_ret.
  cbn [assoc]. rewrite decide_True by done.
  unfold js_or at 1. rewrite (proj1 (Htruthy [])).
  cbn [Map_get Genesys.messageHandlers assoc].
  rewrite decide_False by done. rewrite decide_True by done.
  unfold Genesys.onAudio. cbn [prop]. rewrite bind_ret.
  cbn [assoc]. rewrite decide_False by done. rewrite decide_True by done.
  rewrite (proj1 (proj2 (Htruthy _))).
  cbn [prop]. rewrite bind_ret. cbn [assoc].
  rewrite decide_False by done. rewrite decide_True by done.
  rewrite (proj2 (proj2 (Htruthy []))).
  cbn [andb Buffer_from_base64]. rewrite bind_ret.
  rewrite fromBase64_toBase64 by apply mulaw_encode_bytes.
  fold pcm.
  destruct (await _ w) as [[r w1] t] eqn:E.
  apply await_inv in E as (-> & _).
  by destruct r.
Qed.
End Narrowband.

(** The hypotheses of [twilio_client_receives_one_media_message] hold
    for the event of 640 samples on the channel whose only client is
    socket 7. *)
Lemma twilio_client_receives_one_media_message_witness :
  let w := world_of one_client_server (fun _ => true) [] in
  let data := audioOutputOf samples640 in
  exists t,
    Main.onAudioOutput (P := node) false (TwilioSource.integration (P := node) true)
      (conv 0 "c1") data w = (Done tt, w, t) /\
    length (textFramesTo 7%nat t) = 1%nat.
Proof.
  intros w data.
  destruct (twilio_client_receives_one_media_message (P := node) (conv 0 "c1") data
              (toBase64 (bytesOfInt16 samples640)) 7%nat w)
    as (t & E & _ & _ & _ & Ht & _);
    [ reflexivity | vm_compute; reflexivity | reflexivity | reflexivity | ].
  exists t. split; [exact E | ]. by rewrite Ht.
Defined.

(** C6 as stated fails: for the event of 1280 bytes the only client,
    socket 7, receives one Twilio media message, not two, and its
    payload holds 320 mu-law samples, not 160; the two frames it also
    receives are the raw canonical chunks. *)
Lemma twilio_client_gets_one_message_of_320_samples :
  let w := world_of one_client_server (fun _ => true) [] in
  let payload := toBase64 (mulaw_encode (P := node) (resample16kHzTo8kHz samples640)) in
  let t := trace_of (Main.onAudioOutput (P := node) false
                       (TwilioSource.integration (P := node) true)
                       (conv 0 "c1") (audioOutputOf samples640) w) in
  length (bytesOfInt16 samples640) = 1280%nat /\
  clientsIn w "c1" = [7%nat] /\
  textFramesTo 7%nat t = [TwilioSource.response payload None] /\
  length (fromBase64 payload) = 320%nat /\
  pcmFramesTo 7%nat t = [take 320 samples640; drop 320 samples640].
Proof. vm_compute. repeat split; reflexivity. Qed.

(** The hypothesis of [genesys_round_trip_length] holds for the first
    320 of the 640 samples. *)
Lemma genesys_round_trip_length_witness :
  length (take 320 samples640) = 320%nat /\
  length (mulaw_decode (P := node)
            (mulaw_encode (P := node) (resample16kHzTo8kHz (take 320 samples640))))
  = 160%nat.
Proof.
  split; [reflexivity | ].
  apply (genesys_round_trip_length (P := node) (take 320 samples640) None
           (conv 0 "c1") [] (world_of one_client_server (fun _ => true) [])).
  reflexivity.
Defined.

(** The two framers agree as long as every event carries whole frames:
    the difference shows only when an event leaves samples over. *)
Lemma framers_agree_on_whole_frames (events : list (list Z)) :
  Forall (fun samples => (length samples mod SAMPLES_PER_CHUNK = 0)%nat) events ->
  spec_framer [] events = flat_map chunksOf events.
Proof.
  induction 1 as [ | samples events Hlen _ IH]; [reflexivity | ].
  cbn [spec_framer flat_map app]. f_equal.
  replace (drop _ samples) with (@nil Z); [exact IH | ].
  symmetry. apply drop_ge.
  pose proof (Nat.div_mod_eq (length samples) SAMPLES_PER_CHUNK) as Hdiv.
  rewrite Hlen in Hdiv. lia.
Qed.

(** ** Inbound messages *)

Section Containment.

Lemma noThrow_ret {A} (a : A) : noThrow (ret a).
Proof. by intros w e. Qed.

Lemma noThrow_emit e : noThrow (emit e).
Proof. by intros w e'. Qed.

Lemma noThrow_bind {A B} (m : M A) (k : A -> M B) :
  noThrow m -> (forall a, noThrow (k a)) -> noThrow (bind m k).
Proof.
  intros Hm Hk w e. specialize (Hm w). unfold bind, result_of in *.
  destruct (m w) as [[[a | e' | ] w1] t1]; cbn in *;
    [ | exfalso; by apply (Hm e') | done].
  specialize (Hk a w1 e). unfold result_of in Hk.
  by destruct (k a w1) as [[r w2] t2].
Qed.

Lemma noThrow_when b (m : M unit) : noThrow m -> noThrow (when b m).
Proof. destruct b; [done | intros _; apply noThrow_ret]. Qed.

(** A [try] whose [catch] block cannot throw lets nothing out. *)
Lemma noThrow_try_catch {A} (m : M A) (h : string -> M A) :
  (forall e, noThrow (h e)) -> noThrow (try_catch m h).
Proof.
  intros Hh w e. unfold try_catch, result_of.
  destruct (m w) as [[[a | e' | ] w1] t1] eqn:E; cbn; [done | | done].
  specialize (Hh e' w1 e). unfold result_of in Hh.
  by destruct (h e' w1) as [[r w2] t2].
Qed.

Lemma noClose_ret {A} (a : A) : noClose (ret a).
Proof. by intros w. Qed.

Lemma noClose_throw {A} e : noClose (throw (A := A) e).
Proof. by intros w. Qed.

Lemma noClose_gets {A} (f : World -> A) : noClose (gets f).
Proof. by intros w. Qed.

Lemma noClose_log l : noClose (log l).
Proof. by intros w. Qed.

Lemma noClose_send c m : noClose (emit (ESend c m)).
Proof. by intros w. Qed.

Lemma noClose_assign h f v : noClose (emit (EAssign h f v)).
Proof. by intros w. Qed.

Lemma noClose_await c : noClose (await c).
Proof.
  intros w. destruct (await c w) as [[r w1] t] eqn:E.
  by apply await_inv in E as (-> & _).
Qed.

Lemma noClose_bind {A B} (m : M A) (k : A -> M B) :
  noClose m -> (forall a, noClose (k a)) -> noClose (bind m k).
Proof.
  intros Hm Hk w. specialize (Hm w). unfold bind, trace_of in *.
  destruct (m w) as [[[a | e' | ] w1] t1]; cbn [snd] in *; [ | done | done].
  specialize (Hk a w1). unfold trace_of in Hk.
  destruct (k a w1) as [[r w2] t2]. cbn [snd] in *. by rewrite closes_app, Hm, Hk.
Qed.

Lemma noClose_try_catch {A} (m : M A) (h : string -> M A) :
  noClose m -> (forall e, noClose (h e)) -> noClose (try_catch m h).
Proof.
  intros Hm Hh w. specialize (Hm w). unfold try_catch, trace_of in *.
  destruct (m w) as [[[a | e' | ] w1] t1]; cbn [snd] in *; [done | | done].
  specialize (Hh e' w1). unfold trace_of in Hh.
  destruct (h e' w1) as [[r w2] t2]. cbn [snd] in *. by rewrite closes_app, Hm, Hh.
Qed.

Lemma noClose_when b (m : M unit) : noClose m -> noClose (when b m).
Proof. destruct b; [done | intros _; apply noClose_ret]. Qed.

Lemma noClose_prop v k : noClose (prop v k).
Proof.
  destruct v as [[ | b | n | s | items | fields] | ]; cbn;
    first [apply noClose_ret | apply noClose_throw].
Qed.

Lemma noClose_JSON_parse msg : noClose (JSON_parse msg).
Proof.
  unfold JSON_parse. destruct (parsed msg); [apply noClose_ret | apply noClose_throw].
Qed.

Context {P : Platform}.

Lemma noClose_Buffer_from_base64 v : noClose (Buffer_from_base64 v).
Proof.
  unfold Buffer_from_base64.
  destruct v as [[ | b | n | s | items | fields] | ];
    try destruct (Buffer_from_object _);
    first [apply noClose_ret | apply noClose_throw].
Qed.
End Containment.

Ltac quiet :=
  repeat first
    [ apply noClose_bind; [ | intros ? ]
    | apply noClose_try_catch; [ | intros ? ]
    | apply noClose_when
    | apply noClose_ret | apply noClose_throw | apply noClose_gets
    | apply noClose_log | apply noClose_send | apply noClose_assign
    | apply noClose_await | apply noClose_prop | apply noClose_JSON_parse
    | apply noClose_Buffer_from_base64 ].

Lemma Map_get_In {V} (entries : list (string * V)) key v :
  Map_get entries key = Some v -> exists k, In (k, v) entries.
Proof.
  destruct key as [[ | b | n | s | items | fields] | ]; try done. cbn.
  induction entries as [ | [k' v'] entries IH]; [done | ]. cbn.
  case_decide.
  - intros [= ->]. eauto.
  - intros H'. destruct (IH H') as [k Hk]. eauto.
Qed.

Section Inbound.
Context {P : Platform}.

Lemma Browser_input_noThrow isOn msg conversation :
  noThrow (Browser.tryProcessAudioInput isOn msg conversation).
Proof.
  unfold Browser.tryProcessAudioInput. destruct isOn; cbn [negb].
  - apply noThrow_try_catch. intros e. apply noThrow_ret.
  - apply noThrow_ret.
Qed.

Lemma Browser_input_noClose isOn msg conversation :
  noClose (Browser.tryProcessAudioInput isOn msg conversation).
Proof. unfold Browser.tryProcessAudioInput. destruct isOn; cbn [negb]; quiet. Qed.

Lemma Vonage_input_noThrow isOn msg session :
  noThrow (Vonage.processAudioData isOn msg session).
Proof.
  unfold Vonage.processAudioData. destruct isOn; cbn [negb].
  - apply noThrow_try_catch. intros e. apply noThrow_emit.
  - apply noThrow_ret.
Qed.

Lemma Vonage_input_noClose isOn msg session :
  noClose (Vonage.processAudioData isOn msg session).
Proof. unfold Vonage.processAudioData. destruct isOn; cbn [negb]; quiet. Qed.

Lemma Genesys_input_noThrow isOn msg session :
  noThrow (Genesys.tryProcessAudioInput isOn msg session).
Proof.
  unfold Genesys.tryProcessAudioInput. destruct isOn; cbn [negb].
  - apply noThrow_try_catch. intros e. apply noThrow_emit.
  - apply noThrow_ret.
Qed.

Lemma Genesys_handlers_noClose handler jsonMsg session :
  (exists k, In (k, handler) Genesys.messageHandlers) -> noClose (handler jsonMsg session).
Proof.
  intros [k Hk]. cbn in Hk.
  destruct Hk as [[= _ <-] | [[= _ <-] | [[= _ <-] | []]]].
  - unfold Genesys.onConnect. quiet.
  - unfold Genesys.onAudio. quiet.
    + match goal with
      | |- context [if truthy ?v then _ else _] => destruct (truthy v)
      end; quiet.
    + match goal with |- context [if ?b then _ else _] => destruct b end; quiet.
  - unfold Genesys.onError. quiet.
Qed.

Lemma Genesys_input_noClose isOn msg session :
  noClose (Genesys.tryProcessAudioInput isOn msg session).
Proof.
  unfold Genesys.tryProcessAudioInput. destruct isOn; cbn [negb]; quiet.
  destruct (Map_get _ _) as [handler | ] eqn:E; quiet.
  eapply Genesys_handlers_noClose, Map_get_In, E.
Qed.

Lemma NovaSonic_noThrow msg conversation :
  noThrow (Main.tryProcessNovaSonicMessage msg conversation).
Proof.
  unfold Main.tryProcessNovaSonicMessage.
  apply noThrow_try_catch. intros e. apply noThrow_ret.
Qed.

Lemma NovaSonic_handlers_noClose handler jsonMsg conversation :
  (exists k, In (k, handler) Main.novaSonicHandlers) ->
  noClose (handler jsonMsg conversation).
Proof.
  intros [k Hk]. cbn in Hk.
  destruct Hk as [[= _ <-] | [[= _ <-] | [[= _ <-] | [[= _ <-] | []]]]].
  - unfold Main.handlePromptStart. quiet.
  - unfold Main.handleSystemPrompt. quiet.
  - unfold Main.handleAudioStart. quiet.
  - unfold Main.handleStopAudio. quiet.
Qed.

Lemma NovaSonic_noClose msg conversation :
  noClose (Main.tryProcessNovaSonicMessage msg conversation).
Proof.
  unfold Main.tryProcessNovaSonicMessage. quiet.
  destruct (Map_get _ _) as [handler | ] eqn:E; quiet.
  eapply NovaSonic_handlers_noClose, Map_get_In, E.
Qed.

Lemma sendError_noThrow ws message details : noThrow (Main.sendError ws message details).
Proof. by intros w e. Qed.

Lemma sendError_noClose ws message details : noClose (Main.sendError ws message details).
Proof. by intros w. Qed.

Lemma handleMessage_noThrow browser_isOn vonage twilio ws msg :
  noThrow (Main.handleMessage browser_isOn vonage twilio ws msg).
Proof.
  unfold Main.handleMessage.
  apply noThrow_bind; [by intros w e | intros conversationId].
  destruct conversationId as [conversationId | ]; [ | apply sendError_noThrow].
  apply noThrow_bind; [by intros w e | intros conversation].
  destruct conversation as [conversation | ]; [ | apply sendError_noThrow].
  apply noThrow_try_catch. intros e. apply sendError_noThrow.
Qed.

Lemma handleMessage_noClose browser_isOn vonage twilio ws msg :
  (forall m c, noClose (vonage_tryProcessAudioInput vonage m c)) ->
  (forall m c, noClose (twilio_tryProcessAudioInput twilio m c)) ->
  noClose (Main.handleMessage browser_isOn vonage twilio ws msg).
Proof.
  intros Hv Ht. unfold Main.handleMessage.
  apply noClose_bind; [apply noClose_gets | intros conversationId].
  destruct conversationId as [conversationId | ]; [ | apply sendError_noClose].
  apply noClose_bind; [apply noClose_gets | intros conversation].
  destruct conversation as [conversation | ]; [ | apply sendError_noClose].
  apply noClose_try_catch; [ | intros e; apply sendError_noClose].
  apply noClose_bind; [apply noClose_when, Browser_input_noClose | intros _].
  apply noClose_bind; [apply noClose_when, Hv | intros _].
  apply noClose_bind; [apply noClose_when, Ht | intros _].
  apply NovaSonic_noClose.
Qed.

(** What the adapters make of a frame that [JSON.parse] rejects: the
    Browser adapter and the control-message path do nothing at all,
    the Genesys adapter prints one console line. *)
Lemma unparseable_runs msg conversation w :
  parsed msg = None ->
  Browser.tryProcessAudioInput true msg conversation w = (Done tt, w, []) /\
  Main.tryProcessNovaSonicMessage msg conversation w = (Done tt, w, []) /\
  Genesys.tryProcessAudioInput true msg conversation w =
    (Done tt, w, [ELog (LGenesysInputError "SyntaxError: Unexpected token in JSON")]).
Proof.
  intros Hp.
  unfold Browser.tryProcessAudioInput, Main.tryProcessNovaSonicMessage,
    Genesys.tryProcessAudioInput, try_catch, bind, JSON_parse.
  rewrite Hp. by cbn.
Qed.
End Inbound.


(** * Further properties of the code

    ** What one client receives *)

Lemma openClients_NoDup w clients : NoDup clients -> NoDup (openClients w clients).
Proof. rewrite !NoDup_ListNoDup. apply List.NoDup_filter. Qed.

Lemma openClients_elem w clients c :
  c ∈ openClients w clients <-> c ∈ clients /\ readyState w c = ReadyState.OPEN.
Proof.
  unfold openClients. rewrite !list_elem_of_In, List.filter_In, Z.eqb_eq. tauto.
Qed.

Lemma pcmFrames_of_one c m (l : list WebSocket) :
  NoDup l ->
  omap (fun '(c', m) =>
          match m with
          | WPcm frame => if decide (c' = c) then Some frame else None
          | WText _ => None
          end) (map (fun c' => (c', m)) l)
  = match m with
    | WPcm frame => if decide (c ∈ l) then [frame] else []
    | WText _ => []
    end.
Proof.
  induction 1 as [ | a l Ha Hl IH]; [by destruct m | ].
  cbn [map omap list_omap]. rewrite IH. destruct m as [j | frame]; [reflexivity | ].
  destruct (decide (a = c)) as [-> | Hne].
  - rewrite (decide_True (P := c ∈ c :: l)) by apply list_elem_of_here.
    rewrite (decide_False (P := c ∈ l)) by done. reflexivity.
  - destruct (decide (c ∈ l)) as [Hin | Hnin].
    + rewrite decide_True by by apply list_elem_of_further. reflexivity.
    + rewrite decide_False by (rewrite not_elem_of_cons; split; [congruence | done]).
      reflexivity.
Qed.

Lemma textFrames_of_one c m (l : list WebSocket) :
  NoDup l ->
  omap (fun '(c', m) =>
          match m with
          | WText j => if decide (c' = c) then Some j else None
          | WPcm _ => None
          end) (map (fun c' => (c', m)) l)
  = match m with
    | WText j => if decide (c ∈ l) then [j] else []
    | WPcm _ => []
    end.
Proof.
  induction 1 as [ | a l Ha Hl IH]; [by destruct m | ].
  cbn [map omap list_omap]. rewrite IH. destruct m as [j | frame]; [ | reflexivity].
  destruct (decide (a = c)) as [-> | Hne].
  - rewrite (decide_True (P := c ∈ c :: l)) by apply list_elem_of_here.
    rewrite (decide_False (P := c ∈ l)) by done. reflexivity.
  - destruct (decide (c ∈ l)) as [Hin | Hnin].
    + rewrite decide_True by by apply list_elem_of_further. reflexivity.
    + rewrite decide_False by (rewrite not_elem_of_cons; split; [congruence | done]).
      reflexivity.
Qed.

(** Of a delivery to a duplicate-free set, an open client of the set
    receives every message once, in order. *)
Lemma framesTo_deliveries w clients c messages t :
  sends t = deliveries w clients messages ->
  NoDup clients -> c ∈ clients -> readyState w c = ReadyState.OPEN ->
  pcmFramesTo c t =
    omap (fun m => match m with WPcm frame => Some frame | WText _ => None end) messages /\
  textFramesTo c t =
    omap (fun m => match m with WText j => Some j | WPcm _ => None end) messages.
Proof.
  intros Hs Hnd Hin Hopen. unfold pcmFramesTo, textFramesTo. rewrite Hs. clear Hs.
  assert (c ∈ openClients w clients) as Hc by by apply openClients_elem.
  pose proof (openClients_NoDup w clients Hnd) as Hnd'.
  induction messages as [ | m messages [IHp IHt]]; [by rewrite deliveries_nil | ].
  rewrite deliveries_cons, !omap_app, IHp, IHt.
  rewrite pcmFrames_of_one, textFrames_of_one by done.
  cbn [omap list_omap]. destruct m; rewrite decide_True by done; by split.
Qed.

(** ** What a handler never does *)

Section Confinement.
Variable ok : Effect -> Prop.

Lemma emitsOnly_ret {A} (a : A) : emitsOnly ok (ret a).
Proof. intros w. constructor. Qed.

Lemma emitsOnly_throw {A} e : emitsOnly ok (throw (A := A) e).
Proof. intros w. constructor. Qed.

Lemma emitsOnly_gets {A} (f : World -> A) : emitsOnly ok (gets f).
Proof. intros w. constructor. Qed.

Lemma emitsOnly_modify f : emitsOnly ok (modify f).
Proof. intros w. constructor. Qed.

Lemma emitsOnly_emit e : ok e -> emitsOnly ok (emit e).
Proof. intros He w. by repeat constructor. Qed.

Lemma emitsOnly_log l : ok (ELog l) -> emitsOnly ok (log l).
Proof. apply emitsOnly_emit. Qed.

Lemma emitsOnly_await c : ok (EEngine c) -> emitsOnly ok (await c).
Proof.
  intros Hc w. destruct (await c w) as [[r w1] t] eqn:E.
  apply await_inv in E as (-> & _). by repeat constructor.
Qed.

Lemma emitsOnly_call c : ok (EEngine c) -> emitsOnly ok (call c).
Proof.
  intros Hc w. destruct (call c w) as [[r w1] t] eqn:E.
  apply call_inv in E as (-> & _). by repeat constructor.
Qed.

Lemma emitsOnly_bind {A B} (m : M A) (k : A -> M B) :
  emitsOnly ok m -> (forall a, emitsOnly ok (k a)) -> emitsOnly ok (bind m k).
Proof.
  intros Hm Hk w. specialize (Hm w). unfold bind, trace_of in *.
  destruct (m w) as [[[a | e' | ] w1] t1]; cbn [snd] in *; [ | done | done].
  specialize (Hk a w1). unfold trace_of in Hk.
  destruct (k a w1) as [[r w2] t2]. cbn [snd] in *. by apply Forall_app.
Qed.

Lemma emitsOnly_try_catch {A} (m : M A) (h : string -> M A) :
  emitsOnly ok m -> (forall e, emitsOnly ok (h e)) -> emitsOnly ok (try_catch m h).
Proof.
  intros Hm Hh w. specialize (Hm w). unfold try_catch, trace_of in *.
  destruct (m w) as [[[a | e' | ] w1] t1]; cbn [snd] in *; [done | | done].
  specialize (Hh e' w1). unfold trace_of in Hh.
  destruct (h e' w1) as [[r w2] t2]. cbn [snd] in *. by apply Forall_app.
Qed.

Lemma emitsOnly_try_finally {A} (m : M A) (f : M unit) :
  emitsOnly ok m -> emitsOnly ok f -> emitsOnly ok (try_finally m f).
Proof.
  intros Hm Hf w. specialize (Hm w). unfold try_finally, trace_of in *.
  destruct (m w) as [[[a | e' | ] w1] t1]; cbn [snd] in *; [ | | done];
    specialize (Hf w1); unfold trace_of in Hf;
    destruct (f w1) as [[[[] | e'' | ] w2] t2]; cbn [snd] in *; by apply Forall_app.
Qed.

Lemma emitsOnly_racing calls :
  Forall (fun c => ok (EEngine c)) calls -> emitsOnly ok (racing calls).
Proof.
  induction 1 as [ | c rest Hc _ IH]; intros w; [constructor | ].
  cbn [racing]. unfold trace_of.
  destruct (await c w) as [[r1 w1] t1] eqn:E.
  apply await_inv in E as (-> & _).
  specialize (IH w1). unfold trace_of in IH.
  destruct r1 as [[] | e | ]; [ | by repeat constructor ..].
  destruct (racing rest w1) as [[r2 w2] t2]. cbn [snd] in *.
  by constructor.
Qed.

Lemma emitsOnly_race_timeout ms e calls :
  Forall (fun c => ok (EEngine c)) calls -> emitsOnly ok (race_timeout ms e calls).
Proof.
  intros Hc w. unfold race_timeout, trace_of.
  pose proof (emitsOnly_racing calls Hc (set_deadline (Some (now w + ms)) w)) as Hm.
  unfold trace_of in Hm.
  by destruct (racing calls _) as [[[[] | e' | ] w1] t1].
Qed.

Lemma emitsOnly_when b (m : M unit) : emitsOnly ok m -> emitsOnly ok (when b m).
Proof. destruct b; [done | intros _; apply emitsOnly_ret]. Qed.

Lemma emitsOnly_prop v k : emitsOnly ok (prop v k).
Proof.
  destruct v as [[ | b | n | s | items | fields] | ]; cbn;
    first [apply emitsOnly_ret | apply emitsOnly_throw].
Qed.

Lemma emitsOnly_JSON_parse msg : emitsOnly ok (JSON_parse msg).
Proof.
  unfold JSON_parse. destruct (parsed msg); [apply emitsOnly_ret | apply emitsOnly_throw].
Qed.

Lemma emitsOnly_Buffer_from_base64 {P : Platform} v : emitsOnly ok (Buffer_from_base64 v).
Proof.
  unfold Buffer_from_base64.
  destruct v as [[ | b | n | s | items | fields] | ];
    try destruct (Buffer_from_object _);
    first [apply emitsOnly_ret | apply emitsOnly_throw].
Qed.
End Confinement.

Lemma notToClients_sends t : Forall notToClients t -> sends t = [] /\ closes t = [].
Proof.
  induction 1 as [ | e t He _ [IHs IHc]]; [done | ].
  by destruct e.
Qed.

Lemma notAClose_closes t : Forall notAClose t -> closes t = [].
Proof. induction 1 as [ | e t He _ IH]; [done | ]. by destruct e. Qed.

(** The steps that leave the registries alone. *)
Lemma keepsServer_ret {A} (a : A) : keepsServer (ret a).
Proof. by intros w. Qed.

Lemma keepsServer_throw {A} e : keepsServer (throw (A := A) e).
Proof. by intros w. Qed.

Lemma keepsServer_gets {A} (f : World -> A) : keepsServer (gets f).
Proof. by intros w. Qed.

Lemma keepsServer_emit e : keepsServer (emit e).
Proof. by intros w. Qed.

Lemma keepsServer_log l : keepsServer (log l).
Proof. by intros w. Qed.

Lemma keepsServer_await c : keepsServer (await c).
Proof.
  intros w. unfold world_after. destruct (await c w) as [[r w1] t] eqn:E.
  by apply await_inv in E as (_ & Hs & _).
Qed.

Lemma keepsServer_call c : keepsServer (call c).
Proof.
  intros w. unfold world_after. destruct (call c w) as [[r w1] t] eqn:E.
  by apply call_inv in E as (_ & Hs & _).
Qed.

Lemma keepsServer_bind {A B} (m : M A) (k : A -> M B) :
  keepsServer m -> (forall a, keepsServer (k a)) -> keepsServer (bind m k).
Proof.
  intros Hm Hk w. specialize (Hm w). unfold bind, world_after in *.
  destruct (m w) as [[[a | e' | ] w1] t1]; cbn [fst snd] in *; [ | done | done].
  specialize (Hk a w1). unfold world_after in Hk.
  destruct (k a w1) as [[r w2] t2]. cbn [fst snd] in *. congruence.
Qed.

Lemma keepsServer_try_catch {A} (m : M A) (h : string -> M A) :
  keepsServer m -> (forall e, keepsServer (h e)) -> keepsServer (try_catch m h).
Proof.
  intros Hm Hh w. specialize (Hm w). unfold try_catch, world_after in *.
  destruct (m w) as [[[a | e' | ] w1] t1]; cbn [fst snd] in *; [done | | done].
  specialize (Hh e' w1). unfold world_after in Hh.
  destruct (h e' w1) as [[r w2] t2]. cbn [fst snd] in *. congruence.
Qed.

Lemma keepsServer_try_finally {A} (m : M A) (f : M unit) :
  keepsServer m -> keepsServer f -> keepsServer (try_finally m f).
Proof.
  intros Hm Hf w. specialize (Hm w). unfold try_finally, world_after in *.
  destruct (m w) as [[[a | e' | ] w1] t1]; cbn [fst snd] in *; [ | | done];
    specialize (Hf w1); unfold world_after in Hf;
    destruct (f w1) as [[[[] | e'' | ] w2] t2]; cbn [fst snd] in *; congruence.
Qed.

Lemma keepsServer_when b (m : M unit) : keepsServer m -> keepsServer (when b m).
Proof. destruct b; [done | intros _; apply keepsServer_ret]. Qed.

Lemma keepsServer_prop v k : keepsServer (prop v k).
Proof.
  destruct v as [[ | b | n | s | items | fields] | ]; cbn;
    first [apply keepsServer_ret | apply keepsServer_throw].
Qed.

Lemma keepsServer_JSON_parse msg : keepsServer (JSON_parse msg).
Proof.
  unfold JSON_parse. destruct (parsed msg); [apply keepsServer_ret | apply keepsServer_throw].
Qed.

Lemma keepsServer_Buffer_from_base64 {P : Platform} v : keepsServer (Buffer_from_base64 v).
Proof.
  unfold Buffer_from_base64.
  destruct v as [[ | b | n | s | items | fields] | ];
    try destruct (Buffer_from_object _);
    first [apply keepsServer_ret | apply keepsServer_throw].
Qed.

Lemma noThrow_log l : noThrow (log l).
Proof. apply noThrow_emit. Qed.

Lemma bind_thrown {A B} (m : M A) (k : A -> M B) w e w1 t1 :
  m w = (Thrown e, w1, t1) -> bind m k w = (Thrown e, w1, t1).
Proof. intros E. unfold bind. by rewrite E. Qed.

Lemma bind_blocked {A B} (m : M A) (k : A -> M B) w w1 t1 :
  m w = (Blocked, w1, t1) -> bind m k w = (Blocked, w1, t1).
Proof. intros E. unfold bind. by rewrite E. Qed.

(** Decomposition of a goal [emitsOnly ok m] or [keepsServer m] along
    the structure of [m]; the side conditions [ok e] are left. *)
Ltac confined :=
  repeat first
    [ apply emitsOnly_bind; [ | intros ? ]
    | apply emitsOnly_try_catch; [ | intros ? ]
    | apply emitsOnly_try_finally
    | apply emitsOnly_race_timeout;
        repeat first [apply List.Forall_cons | apply List.Forall_nil]
    | apply emitsOnly_when
    | apply emitsOnly_ret | apply emitsOnly_throw | apply emitsOnly_gets
    | apply emitsOnly_modify
    | apply emitsOnly_prop | apply emitsOnly_JSON_parse
    | apply emitsOnly_Buffer_from_base64
    | apply emitsOnly_log | apply emitsOnly_emit
    | apply emitsOnly_await | apply emitsOnly_call
    | apply keepsServer_bind; [ | intros ? ]
    | apply keepsServer_try_catch; [ | intros ? ]
    | apply keepsServer_try_finally
    | apply keepsServer_when
    | apply keepsServer_ret | apply keepsServer_throw | apply keepsServer_gets
    | apply keepsServer_prop | apply keepsServer_JSON_parse
    | apply keepsServer_Buffer_from_base64
    | apply keepsServer_log | apply keepsServer_emit
    | apply keepsServer_await | apply keepsServer_call ].

(** ** The Twilio integration of the source *)

Lemma omap_pcm_of_frames (frames : list (list Z)) :
  omap (fun m => match m with WPcm frame => Some frame | WText _ => None end)
       (map WPcm frames) = frames.
Proof. induction frames as [ | f frames IH]; [done | ]. cbn. by rewrite IH. Qed.

Lemma omap_text_of_frames (frames : list (list Z)) :
  omap (fun m => match m with WText j => Some j | WPcm _ => None end)
       (map WPcm frames) = [].
Proof. induction frames as [ | f frames IH]; [done | ]. cbn. by rewrite IH. Qed.

Lemma div2_ceil (n : nat) : Nat.div2 (S n) = ((n + 1) / 2)%nat.
Proof. rewrite Nat.div2_div. f_equal. lia. Qed.

Section TwilioOfTheSource.
Context {P : Platform}.

(** X1 -- one media message per event.  With the Twilio integration of
    the source enabled (Browser disabled), an open client of the
    channel receives, of one [audioOutput] event of [n] samples, its
    complete 320-sample chunks as binary frames and exactly one media
    message (track [outbound], the stream SID of the conversation),
    whose payload decodes from base64 to the mu-law bytes of every
    second sample of the whole event: [(n + 1) / 2] bytes. *)
Theorem twilio_source_one_message_per_event (conversation : Conversation)
    (data : list (string * Json)) (content : string) (c : WebSocket) (w : World) :
  assoc "content" data = Some (JStr content) ->
  NoDup (clientsIn w (id conversation)) ->
  c ∈ clientsIn w (id conversation) ->
  readyState w c = ReadyState.OPEN ->
  let pcm := int16View (fromBase64 content) in
  let payload := toBase64 (mulaw_encode (resample16kHzTo8kHz pcm)) in
  exists t,
    Main.onAudioOutput false (TwilioSource.integration true) conversation data w
      = (Done tt, w, t) /\
    pcmFramesTo c t = chunksOf pcm /\
    textFramesTo c t =
      [TwilioSource.response payload (twilioStreamSid conversation)] /\
    fromBase64 payload = mulaw_encode (resample16kHzTo8kHz pcm) /\
    length (fromBase64 payload) = ((length pcm + 1) / 2)%nat.
Proof.
  intros Hc Hnd Hin Hopen pcm payload.
  destruct (onAudioOutput_TwilioSource_deliveries false true conversation data
              (fromBase64 content) w) as (t & E & Hs).
  { by rewrite Hc. }
  exists t. split; [exact E | ].
  destruct (framesTo_deliveries w _ c _ t Hs Hnd Hin Hopen) as [Hp Ht].
  rewrite Hp, Ht, !omap_app, omap_pcm_of_frames, omap_text_of_frames.
  assert (fromBase64 payload = mulaw_encode (resample16kHzTo8kHz pcm)) as Hpay.
  { apply fromBase64_toBase64, mulaw_encode_bytes. }
  split; [by rewrite app_nil_r | ].
  split; [reflexivity | ].
  split; [exact Hpay | ].
  by rewrite Hpay, mulaw_encode_length, resample16kHzTo8kHz_length, div2_ceil.
Qed.

(** X2 -- the output path of the Twilio integration, alone and under
    the listener of the main server, sends to open sockets only and
    reaches every open client of the set. *)
Theorem twilio_source_sends_to_open_clients (w : World) :
  (forall isOn pcmSamples clients streamSid,
     let t := trace_of (TwilioSource.tryProcessAudioOutput isOn pcmSamples clients
                          streamSid w) in
     onlyToOpen w t /\ reachesAllOpen w clients t) /\
  (forall browser_isOn twilio_isOn conversation data,
     let t := trace_of (Main.onAudioOutput browser_isOn
                          (TwilioSource.integration twilio_isOn) conversation data w) in
     onlyToOpen w t /\ reachesAllOpen w (clientsIn w (id conversation)) t).
Proof.
  split.
  - intros isOn pcmSamples clients streamSid t. subst t.
    rewrite TwilioSource_tryProcessAudioOutput_run. destruct isOn.
    + apply (deliveries_sound w _
               [WText (TwilioSource.encodeOutbound pcmSamples streamSid)]).
      cbn [trace_of snd]. by rewrite sends_log, sends_of_sends, deliveries_one.
    + by apply (deliveries_sound w _ []).
  - intros browser_isOn twilio_isOn conversation data t. subst t.
    destruct (Buffer_from_base64_cases (assoc "content" data) w) as [[buffer Hb] | [e Hb]].
    + destruct (onAudioOutput_TwilioSource_deliveries browser_isOn twilio_isOn
                  conversation data buffer w Hb) as (t & E & Hs).
      rewrite E. cbn [trace_of snd]. eapply deliveries_sound. exact Hs.
    + rewrite (onAudioOutput_throws _ _ _ _ e w Hb). by apply (deliveries_sound w _ []).
Qed.

(** X3 -- round trip through the Twilio integration.  The media message
    the output path makes of [n] samples, taken back by the input
    path, reaches the engine as one [streamAudio] call that carries
    [(n + 1) / 2] samples -- the mu-law image of every second sample,
    not upsampled -- and nothing is sent to any client. *)
Theorem twilio_source_round_trip (frame : list Z) (streamSid : option string)
    (conversation : Conversation) (bytes : list Z) (w : World) :
  let wire := TwilioSource.encodeOutbound frame streamSid in
  let pcm := mulaw_decode (mulaw_encode (resample16kHzTo8kHz frame)) in
  let t := trace_of (TwilioSource.tryProcessAudioInput true
                       {| raw := bytes; parsed := Some wire |} conversation w) in
  length pcm = ((length frame + 1) / 2)%nat /\
  engine_calls t = [streamAudio (handle conversation) (bytesOfInt16 pcm)] /\
  sends t = [].
Proof.
  intros wire pcm t.
  split.
  { unfold pcm.
    by rewrite mulaw_decode_length, mulaw_encode_length, resample16kHzTo8kHz_length,
      div2_ceil. }
  subst t. unfold TwilioSource.tryProcessAudioInput. cbn [negb].
  unfold JSON_parse. cbn [parsed]. rewrite bind_ret. unfold try_catch.
  unfold wire, TwilioSource.encodeOutbound, TwilioSource.response.
  cbn [prop app]. rewrite !bind_ret.
  cbn [assoc]. rewrite decide_True by done.
  cbn [Map_get TwilioSource.messageHandlers assoc].
  rewrite decide_False by done. rewrite decide_True by done.
  unfold TwilioSource.onMedia. cbn [prop]. rewrite bind_ret.
  cbn [assoc]. rewrite decide_False by done. rewrite decide_True by done.
  cbn [prop]. rewrite bind_ret. cbn [assoc].
  rewrite decide_False by done. rewrite decide_True by done.
  cbn [Buffer_from_base64]. rewrite bind_ret.
  rewrite fromBase64_toBase64 by apply mulaw_encode_bytes.
  fold pcm.
  destruct (await _ w) as [[r w1] t] eqn:E.
  apply await_inv in E as (-> & _).
  by destruct r.
Qed.

Lemma TwilioSource_handlers_confined ok handler jsonMsg conversation :
  (forall e, notAClose e -> match e with ESend _ _ => False | _ => True end -> ok e) ->
  (exists k, In (k, handler) TwilioSource.messageHandlers) ->
  emitsOnly ok (handler jsonMsg conversation).
Proof.
  intros Hok [k Hin]. cbn in Hin.
  destruct Hin as [[= _ <-] | [[= _ <-] | []]];
    unfold TwilioSource.onStart, TwilioSource.onMedia; confined; by apply Hok.
Qed.

Lemma TwilioSource_input_notToClients isOn msg conversation :
  emitsOnly notToClients (TwilioSource.tryProcessAudioInput isOn msg conversation).
Proof.
  unfold TwilioSource.tryProcessAudioInput.
  destruct isOn; cbn [negb]; [ | apply emitsOnly_ret].
  confined; try done.
  destruct (Map_get _ _) as [handler | ] eqn:E.
  - apply TwilioSource_handlers_confined; [ | by apply Map_get_In in E].
    by intros [].
  - by confined.
Qed.

(** X4 -- the inbound operation of the Twilio integration parses the
    frame before its [try]: a frame that [JSON.parse] rejects makes it
    throw, with no effect at all; for a frame that parses, nothing is
    let out, whatever the frame holds and whatever the engine answers.
    In both cases it sends no frame and closes no socket. *)
Theorem twilio_source_input_throws_on_unparseable (msg : Inbound)
    (conversation : Conversation) (w : World) :
  let run := TwilioSource.tryProcessAudioInput true msg conversation w in
  (parsed msg = None ->
   run = (Thrown "SyntaxError: Unexpected token in JSON", w, [])) /\
  (is_Some (parsed msg) -> forall e, result_of run <> Thrown e) /\
  sends (trace_of run) = [] /\ closes (trace_of run) = [].
Proof.
  intros run. split; [ | split].
  - intros Hp. subst run. unfold TwilioSource.tryProcessAudioInput, JSON_parse.
    by rewrite Hp.
  - intros [j Hj]. subst run. unfold TwilioSource.tryProcessAudioInput, JSON_parse.
    rewrite Hj. cbn [negb]. rewrite bind_ret.
    apply noThrow_try_catch. intros e. apply noThrow_log.
  - apply notToClients_sends, TwilioSource_input_notToClients.
Qed.

(** X5 -- with the Twilio integration enabled (Vonage disabled), a
    frame that [JSON.parse] rejects is answered on the socket it came
    from with the error event "Error processing message"; the engine
    is not called and the control-message path is not reached. *)
Theorem unparseable_frame_is_reported_when_twilio_is_on (browser_isOn : bool)
    (vonage : VonageIntegration) (ws : WebSocket) (msg : Inbound) (w : World)
    (conversationId : string) (conversation : Conversation) :
  clientChannels (server w) !! ws = Some conversationId ->
  conversationId <> "" ->
  channelConversations (server w) !! conversationId = Some conversation ->
  vonage_isOn vonage = false ->
  parsed msg = None ->
  Main.handleMessage browser_isOn vonage (TwilioSource.integration true) ws msg w =
    (Done tt, w,
     [ELog (LSendingError "Error processing message"
              "SyntaxError: Unexpected token in JSON");
      ESend ws (Main.errorEvent "Error processing message"
                  "SyntaxError: Unexpected token in JSON")]).
Proof.
  intros Hws Hne Hconv Hv Hp.
  unfold Main.handleMessage. rewrite bind_gets, Hws.
  assert (truthy_id (Some conversationId) = Some conversationId) as ->.
  { by destruct conversationId. }
  rewrite bind_gets, Hconv, Hv.
  cbn [twilio_isOn twilio_tryProcessAudioInput TwilioSource.integration when].
  unfold try_catch at 1.
  assert (Browser.tryProcessAudioInput browser_isOn msg conversation w = (Done tt, w, []))
    as Hb.
  { destruct browser_isOn; [ | reflexivity].
    apply (unparseable_runs msg conversation w Hp). }
  assert (when browser_isOn (Browser.tryProcessAudioInput browser_isOn msg conversation) w
          = (Done tt, w, [])) as Hb'.
  { destruct browser_isOn; [exact Hb | reflexivity]. }
  rewrite (bind_done _ _ _ _ _ _ Hb'), bind_ret.
  unfold TwilioSource.tryProcessAudioInput, JSON_parse. rewrite Hp. cbn [negb].
  reflexivity.
Qed.
End TwilioOfTheSource.

(** The hypotheses of [twilio_source_one_message_per_event] hold for the
    event of 640 samples on the channel whose only client is socket 7:
    two binary frames and one media message. *)
Lemma twilio_source_one_message_per_event_witness :
  let w := world_of one_client_server (fun _ => true) [] in
  exists t,
    Main.onAudioOutput (P := node) false (TwilioSource.integration (P := node) true)
      (conv 0 "c1") (audioOutputOf samples640) w = (Done tt, w, t) /\
    length (pcmFramesTo 7%nat t) = 2%nat /\
    length (textFramesTo 7%nat t) = 1%nat.
Proof.
  intros w.
  destruct (twilio_source_one_message_per_event (P := node) (conv 0 "c1")
              (audioOutputOf samples640) (toBase64 (bytesOfInt16 samples640)) 7%nat w)
    as (t & E & Hp & Ht & _);
    [ reflexivity | apply NoDup_singleton | apply list_elem_of_here | reflexivity | ].
  exists t. split; [exact E | ]. rewrite Hp, Ht. split; [ | reflexivity].
  vm_compute. reflexivity.
Defined.

(** [twilio_source_input_throws_on_unparseable] at a frame that is not
    JSON and at a frame that is. *)
Lemma twilio_source_input_throws_on_unparseable_witness :
  let w := world_of one_client_server (fun _ => true) [] in
  TwilioSource.tryProcessAudioInput (P := node) true garbage (conv 0 "c1") w
    = (Thrown "SyntaxError: Unexpected token in JSON", w, []) /\
  forall e,
    result_of (TwilioSource.tryProcessAudioInput (P := node) true mismatched (conv 0 "c1") w)
    <> Thrown e.
Proof.
  intros w. split.
  - apply (twilio_source_input_throws_on_unparseable (P := node) garbage (conv 0 "c1") w).
    reflexivity.
  - apply (twilio_source_input_throws_on_unparseable (P := node) mismatched (conv 0 "c1") w).
    by eexists.
Defined.

(** The hypotheses of [unparseable_frame_is_reported_when_twilio_is_on]
    hold for socket 7 of channel c1 and the frame [garbage]. *)
Lemma unparseable_frame_is_reported_when_twilio_is_on_witness :
  let w := world_of one_client_server (fun _ => true) [] in
  sends (trace_of (Main.handleMessage (P := node) true (vonage_modelled false)
                     (TwilioSource.integration (P := node) true) 7%nat garbage w))
  = [(7%nat, Main.errorEvent "Error processing message"
               "SyntaxError: Unexpected token in JSON")].
Proof.
  intros w.
  rewrite (unparseable_frame_is_reported_when_twilio_is_on (P := node) true
             (vonage_modelled false) 7%nat garbage w "c1" (conv 0 "c1"));
    [ reflexivity | reflexivity | done | reflexivity | reflexivity | reflexivity ].
Defined.

(** ** The socket handlers of the legacy server *)

Section LegacyMessages.
Context {P : Platform}.

Lemma control_unparseable msg session w :
  parsed msg = None ->
  LegacySocket.control msg session w
    = (Thrown "SyntaxError: Unexpected token in JSON", w, []).
Proof. intros Hp. unfold LegacySocket.control, JSON_parse. by rewrite Hp. Qed.

Lemma jsonAudio_unparseable msg session w :
  parsed msg = None ->
  LegacySocket.jsonAudio msg session w
    = (Thrown "SyntaxError: Unexpected token in JSON", w, []).
Proof. intros Hp. unfold LegacySocket.jsonAudio, JSON_parse. by rewrite Hp. Qed.

(** X6 -- the [message] listener of the legacy server lets no exception
    out, closes no socket and leaves the three registries as they are,
    whatever the frame and whatever the engine answers. *)
Theorem legacy_handleMessage_is_contained (ws : WebSocket) (msg : Inbound) :
  noThrow (LegacySocket.handleMessage ws msg) /\
  noClose (LegacySocket.handleMessage ws msg) /\
  keepsServer (LegacySocket.handleMessage ws msg).
Proof.
  split; [ | split].
  - unfold LegacySocket.handleMessage.
    apply noThrow_bind; [by intros w e | intros channelId].
    destruct channelId as [channelId | ]; [ | apply noThrow_emit].
    apply noThrow_bind; [by intros w e | intros session].
    destruct session as [session | ]; [ | apply noThrow_emit].
    apply noThrow_try_catch. intros e. apply noThrow_emit.
  - intros w. apply notAClose_closes. revert w.
    change (emitsOnly notAClose (LegacySocket.handleMessage ws msg)).
    unfold LegacySocket.handleMessage, Legacy.sendError.
    repeat first [progress confined | case_match]; done.
  - unfold LegacySocket.handleMessage, Legacy.sendError.
    repeat first [progress confined | case_match].
Qed.

Lemma handleMessage_attached ws msg w channelId session :
  clientChannels (server w) !! ws = Some channelId ->
  channelId <> "" ->
  channelConversations (server w) !! channelId = Some session ->
  LegacySocket.handleMessage ws msg w =
    try_catch
      (try_finally
         (try_catch (LegacySocket.control msg session)
                    (fun e => LegacySocket.rawAudio msg session))
         (LegacySocket.jsonAudio msg session))
      (fun error => Legacy.sendError ws "Error processing message" error) w.
Proof.
  intros Hws Hne Hs. unfold LegacySocket.handleMessage.
  rewrite bind_gets, Hws.
  assert (truthy_id (Some channelId) = Some channelId) as -> by by destruct channelId.
  by rewrite bind_gets, Hs.
Qed.

(** X7 -- a frame that is not JSON, on the legacy server.  The frame is
    streamed to the engine as it is, once; then the [finally] block
    parses it again, and the client that sent it is answered with the
    error event "Error processing message", whether the engine took
    the audio or refused it. *)
Theorem legacy_audio_frame_draws_error_reply (ws : WebSocket) (msg : Inbound)
    (w : World) (channelId : string) (session : Conversation) :
  clientChannels (server w) !! ws = Some channelId ->
  channelId <> "" ->
  channelConversations (server w) !! channelId = Some session ->
  parsed msg = None ->
  deadline w = None ->
  outcome_at 0 w <> Never ->
  exists w1,
    LegacySocket.handleMessage ws msg w =
      (Done tt, w1,
       [EEngine (streamAudio (handle session) (raw msg));
        ESend ws (Main.errorEvent "Error processing message"
                    "SyntaxError: Unexpected token in JSON")]).
Proof.
  intros Hws Hne Hs Hp Hd Ho.
  rewrite (handleMessage_attached ws msg w channelId session Hws Hne Hs).
  unfold try_catch, try_finally. rewrite (control_unparseable msg session w Hp).
  unfold LegacySocket.rawAudio. cbn [Legacy.useVonage when].
  rewrite (await_run _ w Hd).
  destruct (outcome_at 0 w) as [d | d e | ]; [ | | done];
    rewrite jsonAudio_unparseable by done; eexists; reflexivity.
Qed.
End LegacyMessages.

(** The hypotheses of [legacy_audio_frame_draws_error_reply] hold for
    socket 7 of channel c1 and the frame [garbage]. *)
Lemma legacy_audio_frame_draws_error_reply_witness :
  let w := world_of one_client_server (fun _ => true) [] in
  let t := trace_of (LegacySocket.handleMessage (P := node) 7%nat garbage w) in
  engine_calls t = [streamAudio 0%nat [1; 2; 3]] /\
  sends t = [(7%nat, Main.errorEvent "Error processing message"
                       "SyntaxError: Unexpected token in JSON")].
Proof.
  intros w t.
  destruct (legacy_audio_frame_draws_error_reply (P := node) 7%nat garbage w "c1"
              (conv 0 "c1")) as [w1 E];
    [ reflexivity | done | reflexivity | reflexivity | reflexivity | done | ].
  subst t. rewrite E. split; reflexivity.
Defined.

(** ** Control messages *)

Section ControlMessages.
Context {P : Platform}.

(** The control block of the legacy server on a control message, with
    an engine that settles every call. *)
Lemma control_run type fields text session w :
  type ∈ controlTypes ->
  assoc "type" fields = Some (JStr type) ->
  engineAnswers w -> deadline w = None ->
  exists w1 t,
    LegacySocket.control {| raw := text; parsed := Some (JObj fields) |} session w
      = (Done tt, w1, t) /\
    engine_calls t = controlCalls type (assoc "data" fields) (handle session) /\
    sends t = [] /\ closes t = [] /\
    engineAnswers w1 /\ deadline w1 = None /\ server w1 = server w.
Proof.
  intros Hin Ht Ha Hd.
  destruct (LegacySocket.control _ session w) as [[r w1] t] eqn:E.
  unfold LegacySocket.control, JSON_parse in E. cbn [parsed] in E.
  rewrite bind_ret in E. cbn [prop] in E. rewrite bind_ret, Ht, bind_log in E.
  unfold controlTypes in Hin. rewrite !elem_of_cons, elem_of_nil in Hin.
  exists w1, t.
  destruct Hin as [-> | [-> | [-> | [-> | []]]]]; cbn [strictEq] in E;
    repeat (first [rewrite bool_decide_eq_true_2 in E by done
                  | rewrite bool_decide_eq_false_2 in E by done]).
  - destruct (engineAnswers_await (setupPromptStart (handle session)) w Ha Hd)
      as (w1' & E' & Ha1 & Hd1 & Hs1).
    rewrite E' in E. by simplify_eq.
  - cbn [prop] in E. rewrite bind_ret in E.
    destruct (engineAnswers_await
                (setupSystemPrompt (handle session) (assoc "data" fields)) w Ha Hd)
      as (w1' & E' & Ha1 & Hd1 & Hs1).
    rewrite E' in E. by simplify_eq.
  - destruct (engineAnswers_await (setupStartAudio (handle session)) w Ha Hd)
      as (w1' & E' & Ha1 & Hd1 & Hs1).
    rewrite E' in E. by simplify_eq.
  - destruct (engineAnswers_await (endAudioContent (handle session)) w Ha Hd)
      as (w1' & E' & Ha1 & Hd1 & Hs1).
    destruct (engineAnswers_await (endPrompt (handle session)) w1' Ha1 Hd1)
      as (w2 & E2 & Ha2 & Hd2 & Hs2).
    rewrite (bind_done _ _ _ _ _ _ E'), (bind_done _ _ _ _ _ _ E2) in E.
    unfold log, emit in E. simplify_eq. cbn. repeat split; try done. congruence.
Qed.

Lemma jsonAudio_without_event fields text session w :
  assoc "event" fields = None ->
  LegacySocket.jsonAudio {| raw := text; parsed := Some (JObj fields) |} session w
    = (Thrown "TypeError: Cannot read properties of undefined (reading 'audioInput')",
       w, []).
Proof.
  intros He. unfold LegacySocket.jsonAudio, JSON_parse.
  cbn [Legacy.useJson when parsed]. rewrite bind_ret. cbn [prop].
  by rewrite bind_ret, He.
Qed.

(** X8 -- a control message, on the legacy server.  With an engine that
    settles every call, a control message has the engine calls of its
    type made, in order; then the [finally] block looks for the audio
    of a browser message in it, and the client that sent it is
    answered with the error event "Error processing message". *)
Theorem legacy_control_message_draws_error_reply (ws : WebSocket) (type : string)
    (fields : list (string * Json)) (text : list Z) (w : World)
    (channelId : string) (session : Conversation) :
  clientChannels (server w) !! ws = Some channelId ->
  channelId <> "" ->
  channelConversations (server w) !! channelId = Some session ->
  type ∈ controlTypes ->
  assoc "type" fields = Some (JStr type) ->
  assoc "event" fields = None ->
  engineAnswers w ->
  deadline w = None ->
  exists w1 t,
    LegacySocket.handleMessage ws {| raw := text; parsed := Some (JObj fields) |} w
      = (Done tt, w1, t) /\
    engine_calls t = controlCalls type (assoc "data" fields) (handle session) /\
    sends t =
      [(ws, Main.errorEvent "Error processing message"
              "TypeError: Cannot read properties of undefined (reading 'audioInput')")].
Proof.
  intros Hws Hne Hs Hin Ht He Ha Hd.
  rewrite (handleMessage_attached ws _ w channelId session Hws Hne Hs).
  destruct (control_run type fields text session w Hin Ht Ha Hd)
    as (w1 & t & E & Hcalls & Hsends & _).
  unfold try_catch, try_finally. rewrite E, (jsonAudio_without_event _ _ _ _ He).
  eexists _, _. split; [reflexivity | ].
  rewrite app_nil_r, engine_calls_app, sends_app, Hcalls, Hsends.
  split; [by rewrite app_nil_r | reflexivity].
Qed.

(** The first call of a control message, when the engine refuses it. *)
Lemma control_refused type fields text session w d e :
  type ∈ controlTypes ->
  assoc "type" fields = Some (JStr type) ->
  deadline w = None ->
  outcome_at 0 w = Rejects d e ->
  exists t,
    LegacySocket.control {| raw := text; parsed := Some (JObj fields) |} session w
      = (Thrown e, set_now (now w + Z.of_N d) (set_tape (tl (tape w)) w), t) /\
    engine_calls t = take 1 (controlCalls type (assoc "data" fields) (handle session)).
Proof.
  intros Hin Ht Hd Ho.
  destruct (LegacySocket.control _ session w) as [[r w1] t] eqn:E.
  unfold LegacySocket.control, JSON_parse in E. cbn [parsed] in E.
  rewrite bind_ret in E. cbn [prop] in E. rewrite bind_ret, Ht, bind_log in E.
  unfold controlTypes in Hin. rewrite !elem_of_cons, elem_of_nil in Hin.
  exists t.
  destruct Hin as [-> | [-> | [-> | [-> | []]]]]; cbn [strictEq] in E;
    repeat (first [rewrite bool_decide_eq_true_2 in E by done
                  | rewrite bool_decide_eq_false_2 in E by done]);
    cbn [prop] in E; rewrite ?bind_ret in E;
    unfold bind in E; rewrite (await_run _ w Hd), Ho in E;
    by simplify_eq.
Qed.

(** X9 -- a control message that the engine refuses, on the legacy
    server: the [catch] block of the listener takes the frame for
    audio, and the bytes of the JSON text are streamed to the engine. *)
Theorem legacy_refused_control_message_is_streamed_as_audio (ws : WebSocket)
    (type : string) (fields : list (string * Json)) (text : list Z) (w : World)
    (channelId : string) (session : Conversation) (d : N) (e : string) :
  clientChannels (server w) !! ws = Some channelId ->
  channelId <> "" ->
  channelConversations (server w) !! channelId = Some session ->
  type ∈ controlTypes ->
  assoc "type" fields = Some (JStr type) ->
  assoc "event" fields = None ->
  deadline w = None ->
  outcome_at 0 w = Rejects d e ->
  outcome_at 1 w <> Never ->
  exists w1 t,
    LegacySocket.handleMessage ws {| raw := text; parsed := Some (JObj fields) |} w
      = (Done tt, w1, t) /\
    engine_calls t =
      take 1 (controlCalls type (assoc "data" fields) (handle session))
      ++ [streamAudio (handle session) text].
Proof.
  intros Hws Hne Hs Hin Ht He Hd Ho Ho'.
  rewrite (handleMessage_attached ws _ w channelId session Hws Hne Hs).
  destruct (control_refused type fields text session w d e Hin Ht Hd Ho)
    as (t & E & Hcalls).
  unfold try_catch, try_finally. rewrite E.
  unfold LegacySocket.rawAudio. cbn [Legacy.useVonage when raw].
  rewrite await_run by done.
  replace (outcome_at 0 (set_now (now w + Z.of_N d) (set_tape (tl (tape w)) w)))
    with (outcome_at 1 w) by (unfold outcome_at; cbn; by destruct (tape w)).
  destruct (outcome_at 1 w) as [d' | d' e' | ]; [ | | done];
    rewrite (jsonAudio_without_event _ _ _ _ He);
    eexists _, _; (split; [reflexivity | ]);
    rewrite !app_nil_r, !engine_calls_app, Hcalls; cbn; by rewrite app_nil_r.
Qed.
End ControlMessages.

(** The hypotheses of [legacy_control_message_draws_error_reply] hold for
    socket 7 of channel c1 and the message [{ type: "stopAudio" }]. *)
Lemma legacy_control_message_draws_error_reply_witness :
  let w := world_of one_client_server (fun _ => true) [] in
  exists w1 t,
    LegacySocket.handleMessage (P := node) 7%nat (controlMessage "stopAudio") w
      = (Done tt, w1, t) /\
    engine_calls t = [endAudioContent 0%nat; endPrompt 0%nat] /\
    length (sends t) = 1%nat.
Proof.
  intros w.
  destruct (legacy_control_message_draws_error_reply (P := node) 7%nat "stopAudio"
              [("type", JStr "stopAudio")] [123; 125] w "c1" (conv 0 "c1"))
    as (w1 & t & E & Hc & Hs);
    [ reflexivity | done | reflexivity | by vm_compute; repeat constructor
    | reflexivity | reflexivity | by constructor | reflexivity | ].
  exists w1, t. split; [exact E | ]. split; [exact Hc | by rewrite Hs].
Defined.

(** The hypotheses of
    [legacy_refused_control_message_is_streamed_as_audio] hold when the
    engine refuses the [promptStart] of socket 7. *)
Lemma legacy_refused_control_message_is_streamed_as_audio_witness :
  let w := world_of one_client_server (fun _ => true) [Rejects 5 "Error: busy"] in
  exists w1 t,
    LegacySocket.handleMessage (P := node) 7%nat (controlMessage "promptStart") w
      = (Done tt, w1, t) /\
    engine_calls t = [setupPromptStart 0%nat; streamAudio 0%nat [123; 125]].
Proof.
  intros w.
  destruct (legacy_refused_control_message_is_streamed_as_audio (P := node) 7%nat
              "promptStart" [("type", JStr "promptStart")] [123; 125] w "c1"
              (conv 0 "c1") 5%N "Error: busy")
    as (w1 & t & E & Hc);
    [ reflexivity | done | reflexivity | by vm_compute; repeat constructor
    | reflexivity | reflexivity | reflexivity | reflexivity | done | ].
  exists w1, t. split; [exact E | exact Hc].
Defined.

(** ** The control-message path of the main server *)

Lemma NovaSonic_handlers_confined ok handler jsonMsg conversation :
  (forall c, ok (EEngine c)) ->
  (exists k, In (k, handler) Main.novaSonicHandlers) ->
  emitsOnly ok (handler jsonMsg conversation) /\
  keepsServer (handler jsonMsg conversation).
Proof.
  intros Hok [k Hk]. cbn in Hk.
  destruct Hk as [[= _ <-] | [[= _ <-] | [[= _ <-] | [[= _ <-] | []]]]];
    unfold Main.handlePromptStart, Main.handleSystemPrompt, Main.handleAudioStart,
      Main.handleStopAudio;
    split; confined; apply Hok.
Qed.

Lemma NovaSonic_run type fields text conversation w :
  type ∈ controlTypes ->
  assoc "type" fields = Some (JStr type) ->
  engineAnswers w -> deadline w = None ->
  exists w1 t,
    Main.tryProcessNovaSonicMessage {| raw := text; parsed := Some (JObj fields) |}
      conversation w = (Done tt, w1, t) /\
    engine_calls t = controlCalls type (assoc "data" fields) (handle conversation).
Proof.
  intros Hin Ht Ha Hd.
  destruct (Main.tryProcessNovaSonicMessage _ conversation w) as [[r w1] t] eqn:E.
  unfold Main.tryProcessNovaSonicMessage, try_catch, JSON_parse in E. cbn [parsed] in E.
  rewrite bind_ret in E. cbn [prop] in E. rewrite bind_ret, Ht in E.
  unfold controlTypes in Hin. rewrite !elem_of_cons, elem_of_nil in Hin.
  exists w1, t.
  destruct Hin as [-> | [-> | [-> | [-> | []]]]];
    cbn [Map_get Main.novaSonicHandlers assoc] in E;
    repeat (first [rewrite decide_True in E by done | rewrite decide_False in E by done]).
  - unfold Main.handlePromptStart in E.
    destruct (engineAnswers_await (setupPromptStart (handle conversation)) w Ha Hd)
      as (w1' & E' & _).
    rewrite E' in E. by simplify_eq.
  - unfold Main.handleSystemPrompt in E. cbn [prop] in E. rewrite bind_ret in E.
    destruct (engineAnswers_await
                (setupSystemPrompt (handle conversation) (assoc "data" fields)) w Ha Hd)
      as (w1' & E' & _).
    rewrite E' in E. by simplify_eq.
  - unfold Main.handleAudioStart in E.
    destruct (engineAnswers_await (setupStartAudio (handle conversation)) w Ha Hd)
      as (w1' & E' & _).
    rewrite E' in E. by simplify_eq.
  - unfold Main.handleStopAudio in E.
    destruct (engineAnswers_await (endAudioContent (handle conversation)) w Ha Hd)
      as (w1' & E' & Ha1 & Hd1 & Hs1).
    destruct (engineAnswers_await (endPrompt (handle conversation)) w1' Ha1 Hd1)
      as (w2 & E2 & _).
    rewrite (bind_done _ _ _ _ _ _ E'), E2 in E. by simplify_eq.
Qed.

(** X10 -- the control-message path of the main server talks to the
    engine and to nobody else: whatever the frame and whatever the
    engine answers, it sends no frame, closes no socket, prints no
    console line and leaves the registries as they are -- a control
    message that the engine refuses is not reported.  With an engine
    that settles every call, a control message has the engine calls of
    its type made, in order. *)
Theorem control_path_talks_to_engine_only (msg : Inbound) (conversation : Conversation) :
  emitsOnly engineOnly (Main.tryProcessNovaSonicMessage msg conversation) /\
  keepsServer (Main.tryProcessNovaSonicMessage msg conversation) /\
  forall type fields text w,
    type ∈ controlTypes ->
    assoc "type" fields = Some (JStr type) ->
    engineAnswers w -> deadline w = None ->
    engine_calls
      (trace_of (Main.tryProcessNovaSonicMessage
                   {| raw := text; parsed := Some (JObj fields) |} conversation w))
    = controlCalls type (assoc "data" fields) (handle conversation).
Proof.
  split; [ | split].
  - unfold Main.tryProcessNovaSonicMessage. confined.
    destruct (Map_get _ _) as [handler | ] eqn:E; [ | confined].
    eapply NovaSonic_handlers_confined; [done | by apply Map_get_In in E].
  - unfold Main.tryProcessNovaSonicMessage. confined.
    destruct (Map_get _ _) as [handler | ] eqn:E; [ | confined].
    eapply (NovaSonic_handlers_confined (fun _ => True)); [done | by apply Map_get_In in E].
  - intros type fields text w Hin Ht Ha Hd.
    destruct (NovaSonic_run type fields text conversation w Hin Ht Ha Hd)
      as (w1 & t & E & Hc).
    by rewrite E.
Qed.

(** [control_path_talks_to_engine_only] at the message
    [{ type: "stopAudio" }]. *)
Lemma control_path_talks_to_engine_only_witness :
  engine_calls
    (trace_of (Main.tryProcessNovaSonicMessage (controlMessage "stopAudio") (conv 0 "c1")
                 (world_of one_client_server (fun _ => true) [])))
  = [endAudioContent 0%nat; endPrompt 0%nat].
Proof.
  destruct (control_path_talks_to_engine_only (controlMessage "stopAudio") (conv 0 "c1"))
    as (_ & _ & H).
  apply (H "stopAudio" [("type", JStr "stopAudio")]);
    [ by vm_compute; repeat constructor | reflexivity | by constructor | reflexivity ].
Defined.

(** ** The audio message of a browser client *)

Section BrowserAudio.
Context {P : Platform}.

Lemma audioInputMessage_content bytes text (k : list Z -> M unit) w :
  Forall isByte bytes ->
  (jsonMsg <- JSON_parse {| raw := text; parsed := Some (audioInputMessage bytes) |};;
   event <- prop jsonMsg "event";;
   audioInput <- prop event "audioInput";;
   content <- prop audioInput "content";;
   audioBuffer <- Buffer_from_base64 content;;
   k audioBuffer) w = k bytes w.
Proof.
  intros Hbytes. unfold JSON_parse, audioInputMessage. cbn [parsed].
  rewrite bind_ret. cbn [prop]. rewrite bind_ret. cbn [assoc].
  rewrite decide_True by done. cbn [prop]. rewrite bind_ret. cbn [assoc].
  rewrite decide_True by done. cbn [prop]. rewrite bind_ret. cbn [assoc].
  rewrite decide_True by done. cbn [Buffer_from_base64]. rewrite bind_ret.
  by rewrite fromBase64_toBase64.
Qed.

Lemma NovaSonic_audioInputMessage bytes text conversation w :
  Main.tryProcessNovaSonicMessage
    {| raw := text; parsed := Some (audioInputMessage bytes) |} conversation w
  = (Done tt, w, []).
Proof.
  unfold Main.tryProcessNovaSonicMessage, try_catch, JSON_parse, audioInputMessage.
  cbn [parsed]. rewrite bind_ret. cbn [prop]. rewrite bind_ret.
  cbn [assoc]. rewrite decide_False by done. reflexivity.
Qed.

(** X11 -- the audio message of a browser client, [{ event: {
    audioInput: { content } } }] with the audio in base64.  With an
    engine that settles every call, the main server (Browser enabled,
    Vonage and Twilio disabled) and the legacy server stream the
    decoded bytes to the engine, once, and send nothing back. *)
Theorem browser_audio_message_reaches_engine (ws : WebSocket) (bytes text : list Z)
    (w : World) (conversationId : string) (conversation : Conversation)
    (vonage : VonageIntegration) (twilio : TwilioIntegration) :
  clientChannels (server w) !! ws = Some conversationId ->
  conversationId <> "" ->
  channelConversations (server w) !! conversationId = Some conversation ->
  Forall isByte bytes ->
  engineAnswers w ->
  deadline w = None ->
  vonage_isOn vonage = false ->
  twilio_isOn twilio = false ->
  let msg := {| raw := text; parsed := Some (audioInputMessage bytes) |} in
  exists w1,
    Main.handleMessage true vonage twilio ws msg w
      = (Done tt, w1, [EEngine (streamAudio (handle conversation) bytes)]) /\
    LegacySocket.handleMessage ws msg w
      = (Done tt, w1,
         [ELog (LEventReceived None);
          EEngine (streamAudio (handle conversation) bytes)]).
Proof.
  intros Hws Hne Hconv Hbytes Ha Hd Hv Ht msg.
  destruct (engineAnswers_await (streamAudio (handle conversation) bytes) w Ha Hd)
    as (w1 & E & _).
  exists w1. split.
  - unfold Main.handleMessage. rewrite bind_gets, Hws.
    assert (truthy_id (Some conversationId) = Some conversationId) as ->
      by by destruct conversationId.
    rewrite bind_gets, Hconv, Hv, Ht. cbn [when].
    assert (Browser.tryProcessAudioInput true msg conversation w
            = (Done tt, w1, [EEngine (streamAudio (handle conversation) bytes)])) as Hb.
    { unfold Browser.tryProcessAudioInput, try_catch. cbn [negb].
      unfold msg. by rewrite audioInputMessage_content, E. }
    unfold try_catch.
    rewrite (bind_done _ _ _ _ _ _ Hb), !bind_ret.
    unfold msg. by rewrite NovaSonic_audioInputMessage.
  - rewrite (handleMessage_attached ws msg w conversationId conversation Hws Hne Hconv).
    assert (LegacySocket.control msg conversation w
            = (Done tt, w, [ELog (LEventReceived None)])) as Hc.
    { unfold LegacySocket.control, JSON_parse, msg, audioInputMessage. cbn [parsed].
      rewrite bind_ret. cbn [prop]. rewrite bind_ret. cbn [assoc].
      rewrite decide_False by done. by rewrite bind_log. }
    assert (LegacySocket.jsonAudio msg conversation w
            = (Done tt, w1, [EEngine (streamAudio (handle conversation) bytes)])) as Hj.
    { unfold LegacySocket.jsonAudio. cbn [Legacy.useJson when].
      unfold msg. by rewrite audioInputMessage_content, E. }
    unfold try_catch, try_finally. by rewrite Hc, Hj.
Qed.
End BrowserAudio.

(** The hypotheses of [browser_audio_message_reaches_engine] hold for
    socket 7 of channel c1 and three bytes of audio. *)
Lemma browser_audio_message_reaches_engine_witness :
  let w := world_of one_client_server (fun _ => true) [] in
  let msg := {| raw := []; parsed := Some (audioInputMessage [1; 2; 255]) |} in
  engine_calls (trace_of (Main.handleMessage (P := node) true (vonage_modelled false)
                            noTwilio 7%nat msg w))
  = [streamAudio 0%nat [1; 2; 255]].
Proof.
  intros w msg.
  destruct (browser_audio_message_reaches_engine (P := node) 7%nat [1; 2; 255] [] w "c1"
              (conv 0 "c1") (vonage_modelled false) noTwilio)
    as (w1 & E & _);
    [ reflexivity | done | reflexivity
    | by repeat constructor | by constructor | reflexivity | reflexivity | reflexivity | ].
  subst msg. by rewrite E.
Defined.

(** ** The registries under joins and leaves *)

(** What [handleClose] makes of the registries. *)
Lemma handleClose_server ws w r w1 t :
  Main.handleClose ws w = (r, w1, t) ->
  r = Done tt /\ server w1 = without ws (server w).
Proof.
  unfold Main.handleClose, without. rewrite bind_gets.
  destruct (truthy_id (clientChannels (server w) !! ws)) as [conversationId | ] eqn:Hid.
  - rewrite bind_gets.
    destruct (channelClients (server w) !! conversationId) as [clients | ]; cbn zeta.
    + mnorm. rewrite bind_log.
      destruct (length (set_delete ws clients) =? 0)%nat; cbn [when].
      * unfold bind.
        destruct (Main.lastClientLeft _ _) as [[r2 w2] t2] eqn:E.
        apply lastClientLeft_inv in E as (-> & Hs & _).
        unfold modify. intros [= <- <- <-]. cbn [server set_server]. by rewrite Hs.
      * rewrite bind_ret. unfold modify. by intros [= <- <- <-].
    + rewrite bind_ret. unfold modify. by intros [= <- <- <-].
  - by intros [= <- <- <-].
Qed.

Lemma attach_run ws conversation isNewChannel clients w :
  channelClients (server w) !! id conversation = Some clients ->
  Main.attach ws conversation isNewChannel w =
    (Done tt, set_server (attachedTo ws conversation clients) w,
     [ELog (LChannelHas (id conversation) (length (set_add ws clients)));
      ESend ws (Main.sessionReady (id conversation) isNewChannel)]).
Proof.
  intros Hc. unfold Main.attach. rewrite bind_gets, Hc. mnorm. rewrite bind_log.
  unfold emit. by destruct w as [[] ? ? ? ? ? ? ? ?].
Qed.

Lemma joinFailed_run ws e w :
  Main.joinFailed ws e w =
    (Done tt, w,
     [ELog (LSendingError "Failed to initialize or join channel" e);
      ESend ws (Main.errorEvent "Failed to initialize or join channel" e);
      EWsClose ws]).
Proof. reflexivity. Qed.

(** The three ways a join can go: it fails, and the registries are as
    they were; it stays suspended, and the registries are as they
    were; it succeeds, and the socket is attached. *)
Lemma join_outcome ws c w r w1 t :
  Main.initializeOrJoinChannel ws c w = (r, w1, t) ->
  (r = Done tt /\ server w1 = server w /\ closes t = [ws] /\
   exists e,
     sends t = [(ws, Main.errorEvent "Failed to initialize or join channel" e)]) \/
  (r = Blocked /\ server w1 = server w /\ closes t = [] /\ sends t = []) \/
  (r = Done tt /\ closes t = [] /\
   match channelConversations (server w) !! c with
   | Some conversation =>
       exists clients,
         channelClients (server w) !! id conversation = Some clients /\
         server w1 = attachedTo ws conversation clients (server w) /\
         sends t = [(ws, Main.sessionReady (id conversation) false)] /\
         engine_calls t = []
   | None =>
       let conversation := conv (nextHandle w) c in
       server w1 = attachedTo ws conversation [] (registered conversation (server w)) /\
       sends t = [(ws, Main.sessionReady c true)] /\
       engine_calls t =
         [createConversation c ws (nextHandle w); startSession (nextHandle w)]
   end).
Proof.
  unfold Main.initializeOrJoinChannel, try_catch. rewrite bind_gets.
  destruct (channelConversations (server w) !! c) as [conversation | ] eqn:Hconv.
  - rewrite bind_log.
    destruct (channelClients (server w) !! id conversation) as [clients | ] eqn:Hcl.
    + rewrite (attach_run ws conversation false clients w Hcl).
      intros [= <- <- <-]. right. right. split; [done | ]. split; [done | ].
      by exists clients.
    + unfold Main.attach. rewrite bind_gets, Hcl. unfold throw. rewrite joinFailed_run.
      intros [= <- <- <-]. left. repeat split; try done. by eexists.
  - rewrite bind_log. unfold Main.newConversation. mnorm.
    destruct (call (createConversation c ws (nextHandle w))
                (set_nextHandle (S (nextHandle w)) w)) as [[rc wc] tc] eqn:Ec.
    pose proof Ec as Hc.
    apply call_inv in Hc as (-> & Hsc & _ & _ & Hrc). cbn [server set_nextHandle] in Hsc.
    destruct rc as [[] | e | ]; [ | | done].
    + rewrite (bind_done _ _ _ _ _ _ Ec), bind_ret. cbn [handle].
      destruct (await (startSession (nextHandle w)) wc) as [[ra wa] ta] eqn:Ea.
      pose proof Ea as Ha. apply await_inv in Ha as (-> & Hsa & _).
      destruct ra as [[] | e | ].
      * rewrite (bind_done _ _ _ _ _ _ Ea). unfold Main.register. mnorm.
        rewrite (attach_run ws _ true []) by (cbn; by rewrite lookup_insert_eq).
        intros [= <- <- <-]. right. right. split; [done | ]. split; [done | ].
        cbn. unfold registered. cbn. rewrite Hsa, Hsc. by destruct (server w).
      * rewrite (bind_thrown _ _ _ _ _ _ Ea), joinFailed_run.
        intros [= <- <- <-]. left.
        repeat split; try done; [congruence | by eexists].
      * rewrite (bind_blocked _ _ _ _ _ Ea).
        intros [= <- <- <-]. right. left. repeat split; try done. congruence.
    + rewrite (bind_thrown _ _ _ _ _ _ Ec), joinFailed_run.
      intros [= <- <- <-]. left. repeat split; try done. by eexists.
Qed.

Lemma set_add_fresh (ws : WebSocket) clients : ws ∉ clients -> set_add ws clients = clients ++ [ws].
Proof. intros H. unfold set_add. by rewrite decide_False. Qed.

Lemma set_delete_elem (ws c : WebSocket) clients : c ∈ set_delete ws clients <-> c ∈ clients /\ c <> ws.
Proof. unfold set_delete. rewrite list_elem_of_filter. tauto. Qed.

Lemma set_delete_NoDup (ws : WebSocket) clients : NoDup clients -> NoDup (set_delete ws clients).
Proof. apply NoDup_filter. Qed.

(** A socket that is bound to no channel is in no client set. *)
Lemma consistent_fresh s ws c clients :
  consistent s -> clientChannels s !! ws = None ->
  channelClients s !! c = Some clients -> ws ∉ clients.
Proof.
  intros (_ & Hb & _) Hws Hcl Hin.
  destruct (Hb c clients Hcl) as (_ & _ & _ & Hall).
  specialize (Hall ws Hin). congruence.
Qed.

Lemma consistent_attachedTo s ws conversation clients :
  consistent s ->
  channelConversations s !! id conversation = Some conversation ->
  channelClients s !! id conversation = Some clients ->
  clientChannels s !! ws = None ->
  id conversation <> "" ->
  consistent (attachedTo ws conversation clients s).
Proof.
  intros Hs Hconv Hcl Hws Hne.
  pose proof (consistent_fresh s ws _ clients Hs Hws Hcl) as Hnin.
  destruct Hs as (Hk & Hb & Ha).
  unfold attachedTo, consistent. cbn. rewrite (set_add_fresh ws clients Hnin).
  split; [ | split].
  - intros c' conv' H. destruct (Hk _ _ H) as [Hid [cl Hcl']]. split; [done | ].
    destruct (decide (id conversation = c')) as [<- | Hn].
    + rewrite lookup_insert_eq. eauto.
    + rewrite lookup_insert_ne by done. eauto.
  - intros c' cl'. destruct (decide (id conversation = c')) as [<- | Hn].
    + rewrite lookup_insert_eq. intros [= <-].
      destruct (Hb _ _ Hcl) as (Hnd & Hnn & Hsome & Hall).
      split; [ | split; [ | split]].
      * apply NoDup_app. split; [done | ]. split; [ | apply NoDup_singleton].
        intros x Hx ->%list_elem_of_singleton. done.
      * by destruct clients.
      * done.
      * intros ws' [Hin' | ->%list_elem_of_singleton]%elem_of_app.
        -- rewrite lookup_insert_ne; [by apply Hall | ]. by intros ->.
        -- by rewrite lookup_insert_eq.
    + rewrite lookup_insert_ne by done. intros H.
      destruct (Hb _ _ H) as (Hnd & Hnn & Hsome & Hall).
      repeat split; try done. intros ws' Hin'.
      rewrite lookup_insert_ne; [by apply Hall | ].
      intros ->. specialize (Hall _ Hin'). congruence.
  - intros ws' c'. destruct (decide (ws = ws')) as [<- | Hn].
    + rewrite lookup_insert_eq. intros [= <-]. split; [done | ].
      exists (clients ++ [ws]). rewrite lookup_insert_eq. split; [done | ].
      apply elem_of_app. right. apply list_elem_of_here.
    + rewrite lookup_insert_ne by done. intros H.
      destruct (Ha _ _ H) as (Hne' & cl' & Hcl' & Hin'). split; [done | ].
      destruct (decide (id conversation = c')) as [<- | Hn'].
      * rewrite lookup_insert_eq. exists (clients ++ [ws]). split; [done | ].
        rewrite Hcl in Hcl'. injection Hcl' as <-. apply elem_of_app. by left.
      * rewrite lookup_insert_ne by done. eauto.
Qed.

Lemma consistent_registered s ws conversation :
  consistent s ->
  channelConversations s !! id conversation = None ->
  clientChannels s !! ws = None ->
  id conversation <> "" ->
  consistent (attachedTo ws conversation [] (registered conversation s)).
Proof.
  intros (Hk & Hb & Ha) Hconv Hws Hne.
  assert (channelClients s !! id conversation = None) as Hcl.
  { destruct (channelClients s !! id conversation) as [cl | ] eqn:E; [ | done].
    destruct (Hb _ _ E) as (_ & _ & [x Hx] & _). congruence. }
  unfold attachedTo, registered, consistent. cbn. rewrite insert_insert_eq.
  split; [ | split].
  - intros c' conv'. destruct (decide (id conversation = c')) as [<- | Hn].
    + rewrite !lookup_insert_eq. intros [= <-]. eauto.
    + rewrite !lookup_insert_ne by done. apply Hk.
  - intros c' cl'. destruct (decide (id conversation = c')) as [<- | Hn].
    + rewrite !lookup_insert_eq. intros [= <-].
      split; [apply NoDup_singleton | ]. split; [done | ]. split; [eauto | ].
      intros ws' ->%list_elem_of_singleton. by rewrite lookup_insert_eq.
    + rewrite !lookup_insert_ne by done. intros H.
      destruct (Hb _ _ H) as (Hnd & Hnn & Hsome & Hall).
      repeat split; try done. intros ws' Hin'.
      rewrite lookup_insert_ne; [by apply Hall | ].
      intros ->. specialize (Hall _ Hin'). congruence.
  - intros ws' c'. destruct (decide (ws = ws')) as [<- | Hn].
    + rewrite lookup_insert_eq. intros [= <-]. split; [done | ].
      exists [ws]. rewrite lookup_insert_eq. split; [done | apply list_elem_of_here].
    + rewrite lookup_insert_ne by done. intros H.
      destruct (Ha _ _ H) as (Hne' & cl' & Hcl' & Hin'). split; [done | ].
      destruct (decide (id conversation = c')) as [<- | Hn']; [congruence | ].
      rewrite lookup_insert_ne by done. eauto.
Qed.

Lemma consistent_without s ws : consistent s -> consistent (without ws s).
Proof.
  intros (Hk & Hb & Ha). unfold without.
  destruct (clientChannels s !! ws) as [c | ] eqn:Hws; [ | done].
  destruct (Ha _ _ Hws) as (Hne & cl & Hcl & Hin).
  assert (truthy_id (Some c) = Some c) as -> by by destruct c.
  rewrite Hcl. cbn zeta.
  assert (forall c' cl' ws', c' <> c -> channelClients s !! c' = Some cl' ->
                             ws' ∈ cl' -> ws' <> ws) as Hother.
  { intros c' cl' ws' Hn Hcl' Hin' ->.
    destruct (Hb _ _ Hcl') as (_ & _ & _ & Hall). specialize (Hall _ Hin'). congruence. }
  destruct (length (set_delete ws cl) =? 0)%nat eqn:Hlen.
  - apply Nat.eqb_eq, nil_length_inv in Hlen.
    unfold consistent. cbn. rewrite delete_insert_eq.
    split; [ | split].
    + intros c' conv'. destruct (decide (c = c')) as [<- | Hn].
      * by rewrite lookup_delete_eq.
      * rewrite !lookup_delete_ne by done. apply Hk.
    + intros c' cl'. destruct (decide (c = c')) as [<- | Hn].
      * by rewrite lookup_delete_eq.
      * rewrite !lookup_delete_ne by done. intros H.
        destruct (Hb _ _ H) as (Hnd & Hnn & Hsome & Hall).
        repeat split; try done. intros ws' Hin'.
        rewrite lookup_delete_ne; [by apply Hall | ].
        apply not_eq_sym. by apply (Hother c' cl').
    + intros ws' c'. destruct (decide (ws = ws')) as [<- | Hn].
      * by rewrite lookup_delete_eq.
      * rewrite lookup_delete_ne by done. intros H.
        destruct (Ha _ _ H) as (Hne' & cl' & Hcl' & Hin'). split; [done | ].
        destruct (decide (c = c')) as [<- | Hn'].
        -- exfalso. rewrite Hcl in Hcl'. injection Hcl' as <-.
           assert (ws' ∈ set_delete ws cl) as Hd by by apply set_delete_elem.
           rewrite Hlen in Hd. by apply elem_of_nil in Hd.
        -- rewrite lookup_delete_ne by done. eauto.
  - apply Nat.eqb_neq in Hlen.
    unfold consistent. cbn.
    split; [ | split].
    + intros c' conv' H. destruct (Hk _ _ H) as [Hid [cl'' Hcl'']]. split; [done | ].
      destruct (decide (c = c')) as [<- | Hn].
      * rewrite lookup_insert_eq. eauto.
      * rewrite lookup_insert_ne by done. eauto.
    + intros c' cl'. destruct (decide (c = c')) as [<- | Hn].
      * rewrite lookup_insert_eq. intros [= <-].
        destruct (Hb _ _ Hcl) as (Hnd & Hnn & Hsome & Hall).
        split; [by apply set_delete_NoDup | ].
        split; [by intros E; rewrite E in Hlen | ].
        split; [done | ].
        intros ws' [Hin' Hn']%set_delete_elem.
        rewrite lookup_delete_ne by done. by apply Hall.
      * rewrite lookup_insert_ne by done. intros H.
        destruct (Hb _ _ H) as (Hnd & Hnn & Hsome & Hall).
        repeat split; try done. intros ws' Hin'.
        rewrite lookup_delete_ne; [by apply Hall | ].
        apply not_eq_sym. by apply (Hother c' cl').
    + intros ws' c'. destruct (decide (ws = ws')) as [<- | Hn].
      * by rewrite lookup_delete_eq.
      * rewrite lookup_delete_ne by done. intros H.
        destruct (Ha _ _ H) as (Hne' & cl' & Hcl' & Hin'). split; [done | ].
        destruct (decide (c = c')) as [<- | Hn'].
        -- rewrite lookup_insert_eq. exists (set_delete ws cl). split; [done | ].
           rewrite Hcl in Hcl'. injection Hcl' as <-. by apply set_delete_elem.
        -- rewrite lookup_insert_ne by done. eauto.
Qed.

(** X12 -- the registries stay consistent.  If the three registries
    agree with one another, they still do after a socket that is bound
    to no channel has joined a channel (whether the join succeeds,
    fails or stays suspended, when no other handler runs in between),
    and after any socket has left. *)
Theorem registries_stay_consistent (ws : WebSocket) (conversationId : string) (w : World) :
  consistent (server w) ->
  (clientChannels (server w) !! ws = None -> conversationId <> "" ->
   consistent (server (world_after (Main.initializeOrJoinChannel ws conversationId w)))) /\
  consistent (server (world_after (Main.handleClose ws w))).
Proof.
  intros Hs. split.
  - intros Hws Hne.
    destruct (Main.initializeOrJoinChannel ws conversationId w) as [[r w1] t] eqn:E.
    unfold world_after. cbn [fst snd].
    apply join_outcome in E as [(_ & -> & _) | [(_ & -> & _) | (_ & _ & E)]]; [done .. | ].
    destruct (channelConversations (server w) !! conversationId)
      as [conversation | ] eqn:Hconv.
    + destruct E as (clients & Hcl & -> & _).
      pose proof Hs as (Hk & _). destruct (Hk _ _ Hconv) as [Hid _].
      apply consistent_attachedTo; try done; by rewrite Hid.
    + destruct E as (-> & _). by apply consistent_registered.
  - destruct (Main.handleClose ws w) as [[r w1] t] eqn:E.
    unfold world_after. cbn [fst snd].
    apply handleClose_server in E as [_ ->]. by apply consistent_without.
Qed.

Lemma consistent_empty : consistent empty_server.
Proof.
  unfold consistent, empty_server. cbn.
  split; [ | split]; intros x y; by rewrite lookup_empty.
Qed.

(** The hypotheses of [registries_stay_consistent] hold when socket 1
    joins channel c1 on a server without channels. *)
Lemma registries_stay_consistent_witness :
  let w := world_of empty_server (fun _ => true) [] in
  consistent (server (world_after (Main.initializeOrJoinChannel 1%nat "c1" w))).
Proof.
  intros w.
  apply (registries_stay_consistent 1%nat "c1" w);
    [ apply consistent_empty | reflexivity | done ].
Defined.

Lemma set_add_nil (ws : WebSocket) : set_add ws [] = [ws].
Proof. apply set_add_fresh, not_elem_of_nil. Qed.

Lemma set_delete_single (ws : WebSocket) : set_delete ws [ws] = [].
Proof. unfold set_delete. cbn. by rewrite decide_False by (by intros H). Qed.

Lemma set_add_elem (ws : WebSocket) clients : ws ∈ set_add ws clients.
Proof.
  unfold set_add. case_decide; [done | ].
  apply elem_of_app. right. apply list_elem_of_here.
Qed.

(** X13 -- a join is all or nothing.  [initializeOrJoinChannel] lets no
    exception out and ends in one of three ways: the socket is sent the
    error event "Failed to initialize or join channel" and is closed,
    and the registries are as they were; or the join stays suspended on
    the engine, nothing has been sent and the registries are as they
    were; or the socket is sent [sessionReady] and is bound to the
    channel and held in its client set, with [isNewChannel] telling
    whether the channel was registered before. *)
Theorem join_is_all_or_nothing (ws : WebSocket) (conversationId : string) (w : World) :
  let run := Main.initializeOrJoinChannel ws conversationId w in
  let t := trace_of run in
  let w1 := world_after run in
  (result_of run = Done tt /\ closes t = [ws] /\ server w1 = server w /\
   exists e,
     sends t = [(ws, Main.errorEvent "Failed to initialize or join channel" e)]) \/
  (result_of run = Blocked /\ closes t = [] /\ server w1 = server w /\ sends t = []) \/
  (result_of run = Done tt /\ closes t = [] /\
   exists conversation isNewChannel,
     sends t = [(ws, Main.sessionReady (id conversation) isNewChannel)] /\
     clientChannels (server w1) !! ws = Some (id conversation) /\
     ws ∈ clientsIn w1 (id conversation) /\
     (isNewChannel = true <->
      channelConversations (server w) !! conversationId = None)).
Proof.
  intros run t w1. subst run t w1.
  destruct (Main.initializeOrJoinChannel ws conversationId w) as [[r w1] t] eqn:E.
  unfold result_of, trace_of, world_after. cbn [fst snd].
  apply join_outcome in E as [(-> & Hs & Hc & e & He) | [(-> & Hs & Hc & He) | (-> & Hc & E)]].
  - left. eauto.
  - right. left. eauto.
  - right. right. split; [done | ]. split; [done | ].
    destruct (channelConversations (server w) !! conversationId)
      as [conversation | ] eqn:Hconv.
    + destruct E as (clients & Hcl & Hs & Hsend & _).
      exists conversation, false. split; [done | ].
      unfold clientsIn. rewrite Hs. unfold attachedTo. cbn.
      rewrite !lookup_insert_eq. cbn.
      split; [done | ]. split; [apply set_add_elem | done].
    + destruct E as (Hs & Hsend & _).
      exists (conv (nextHandle w) conversationId), true. split; [done | ].
      unfold clientsIn. rewrite Hs. unfold attachedTo, registered. cbn.
      rewrite !lookup_insert_eq. cbn.
      split; [done | ]. split; [apply list_elem_of_here | done].
Qed.

(** A leave is not announced: [handleClose] sends no frame and closes
    no socket. *)
Lemma handleClose_noClients ws w :
  sends (trace_of (Main.handleClose ws w)) = [] /\
  closes (trace_of (Main.handleClose ws w)) = [].
Proof.
  apply notToClients_sends. revert w.
  change (emitsOnly notToClients (Main.handleClose ws)).
  unfold Main.handleClose, Main.lastClientLeft, Main.cleanup, Main.fallback,
    Main.graceful.
  repeat first [progress confined | case_match]; done.
Qed.

Lemma engineAnswers_call c w :
  engineAnswers w ->
  exists w1,
    call c w = (Done tt, w1, [EEngine c]) /\
    engineAnswers w1 /\ deadline w1 = deadline w /\ server w1 = server w.
Proof.
  intros Ha. unfold call, next_outcome, engineAnswers, outcome_at in *.
  destruct (tape w) as [ | o rest]; cbn [nth tl].
  - eexists. split; [reflexivity | ]. cbn. by repeat split.
  - apply Forall_cons in Ha as [Ho Hrest]. destruct o as [d | d e | ]; try done.
    eexists. split; [reflexivity | ]. cbn. by repeat split.
Qed.

(** The join of a channel that is not registered, with an engine that
    settles every call. *)
Lemma join_new_run ws c w :
  channelConversations (server w) !! c = None ->
  engineAnswers w ->
  deadline w = None ->
  exists w1,
    Main.initializeOrJoinChannel ws c w =
      (Done tt, w1,
       [ELog (LCreatingNew c);
        EEngine (createConversation c ws (nextHandle w));
        EEngine (startSession (nextHandle w));
        ELog (LChannelHas c 1);
        ESend ws (Main.sessionReady c true)]) /\
    server w1 = attachedTo ws (conv (nextHandle w) c) [] (registered (conv (nextHandle w) c) (server w)) /\
    engineAnswers w1 /\ deadline w1 = None.
Proof.
  intros Hconv Ha Hd.
  unfold Main.initializeOrJoinChannel, try_catch. rewrite bind_gets, Hconv, bind_log.
  unfold Main.newConversation. mnorm.
  destruct (engineAnswers_call (createConversation c ws (nextHandle w))
              (set_nextHandle (S (nextHandle w)) w)) as (wc & Ec & Hac & Hdc & Hsc); [done | ].
  cbn [deadline server set_nextHandle] in Hdc, Hsc.
  rewrite (bind_done _ _ _ _ _ _ Ec), bind_ret. cbn [handle].
  destruct (engineAnswers_await (startSession (nextHandle w)) wc)
    as (wa & Ea & Haa & Hda & Hsa); [done | congruence | ].
  rewrite (bind_done _ _ _ _ _ _ Ea). unfold Main.register. mnorm.
  rewrite (attach_run ws _ true []) by (cbn; by rewrite lookup_insert_eq).
  eexists. split; [reflexivity | ].
  split; [ | split; [done | done]].
  cbn. unfold registered. cbn. rewrite Hsa, Hsc. by destruct (server w).
Qed.

(** X14 -- joining and leaving undo each other.  When a socket bound to
    no channel joins a channel that is not registered, with an engine
    that settles every call, and then leaves, both handlers return,
    one conversation has been created, the socket has been sent
    [sessionReady] and nothing else, and the three registries are
    again what they were before the join. *)
Theorem join_then_leave_restores_registries (ws : WebSocket) (conversationId : string)
    (w : World) :
  conversationId <> "" ->
  channelConversations (server w) !! conversationId = None ->
  channelClients (server w) !! conversationId = None ->
  clientChannels (server w) !! ws = None ->
  engineAnswers w ->
  deadline w = None ->
  exists w1 t1 w2 t2,
    Main.initializeOrJoinChannel ws conversationId w = (Done tt, w1, t1) /\
    Main.handleClose ws w1 = (Done tt, w2, t2) /\
    created conversationId t1 = [nextHandle w] /\
    sends t1 = [(ws, Main.sessionReady conversationId true)] /\
    sends t2 = [] /\ closes (t1 ++ t2) = [] /\
    server w2 = server w.
Proof.
  intros Hne Hconv Hcl Hws Ha Hd.
  destruct (join_new_run ws conversationId w Hconv Ha Hd) as (w1 & E & Hs1 & _).
  destruct (Main.handleClose ws w1) as [[r2 w2] t2] eqn:E2.
  pose proof (handleClose_noClients ws w1) as Hquiet. rewrite E2 in Hquiet.
  destruct Hquiet as [Hsends Hcloses]. cbn [trace_of snd] in Hsends, Hcloses.
  pose proof E2 as E2'. apply handleClose_server in E2' as [-> Hs2].
  eexists w1, _, w2, t2. split; [exact E | ]. split; [exact E2 | ].
  split; [cbn; by rewrite decide_True | ].
  split; [reflexivity | ]. split; [exact Hsends | ].
  split; [by rewrite closes_app, Hcloses | ].
  rewrite Hs2, Hs1. unfold without, attachedTo, registered. cbn.
  rewrite !lookup_insert_eq.
  assert (truthy_id (Some conversationId) = Some conversationId) as ->
    by by destruct conversationId.
  rewrite set_add_nil. cbn. rewrite !lookup_insert_eq, set_delete_single. cbn.
  destruct (server w) as [conversations clients bindings]. cbn in *.
  unfold Main.set_clientChannels, Main.set_channelClients, Main.set_channelConversations.
  cbn. rewrite !insert_insert_eq, !delete_insert_id by done. reflexivity.
Qed.

(** The hypotheses of [join_then_leave_restores_registries] hold when
    socket 1 joins channel c1 on a server without channels. *)
Lemma join_then_leave_restores_registries_witness :
  let w := world_of empty_server (fun _ => true) [] in
  exists w1 t1 w2 t2,
    Main.initializeOrJoinChannel 1%nat "c1" w = (Done tt, w1, t1) /\
    Main.handleClose 1%nat w1 = (Done tt, w2, t2) /\
    server w2 = empty_server.
Proof.
  intros w.
  destruct (join_then_leave_restores_registries 1%nat "c1" w)
    as (w1 & t1 & w2 & t2 & E1 & E2 & _ & _ & _ & _ & Hs);
    [ done | reflexivity | reflexivity | reflexivity | by constructor | reflexivity | ].
  by exists w1, t1, w2, t2.
Defined.

(** ** [handleClose] of the legacy server *)

Section SameUpTo.
Variable f : Effect -> Effect.

Lemma sameUpTo_fixed {A} (m : M A) :
  emitsOnly (fun e => f e = e) m -> sameUpTo f m m.
Proof.
  intros Hm w. specialize (Hm w). unfold trace_of in Hm.
  destruct (m w) as [[r w1] t]. cbn [snd] in Hm.
  assert (map f t = t) as ->; [ | done].
  induction Hm as [ | e t He _ IH]; [done | ]. cbn. by rewrite He, IH.
Qed.

Lemma sameUpTo_bind {A B} (m m' : M A) (k k' : A -> M B) :
  sameUpTo f m m' -> (forall a, sameUpTo f (k a) (k' a)) ->
  sameUpTo f (bind m k) (bind m' k').
Proof.
  intros Hm Hk w. unfold bind. rewrite (Hm w).
  destruct (m w) as [[[a | e | ] w1] t1]; [ | done | done].
  rewrite (Hk a w1). destruct (k a w1) as [[r w2] t2]. by rewrite map_app.
Qed.

Lemma sameUpTo_try_catch {A} (m m' : M A) (h h' : string -> M A) :
  sameUpTo f m m' -> (forall e, sameUpTo f (h e) (h' e)) ->
  sameUpTo f (try_catch m h) (try_catch m' h').
Proof.
  intros Hm Hh w. unfold try_catch. rewrite (Hm w).
  destruct (m w) as [[[a | e | ] w1] t1]; [done | | done].
  rewrite (Hh e w1). destruct (h e w1) as [[r w2] t2]. by rewrite map_app.
Qed.

Lemma sameUpTo_when b (m m' : M unit) :
  sameUpTo f m m' -> sameUpTo f (when b m) (when b m').
Proof. intros Hm. destruct b; [done | by intros w]. Qed.
End SameUpTo.

Lemma call_closeSession sessionId :
  sameUpTo legacyEffect (call (closeSession sessionId)) (call (forceCloseSession sessionId)).
Proof.
  intros w. unfold call. destruct (next_outcome w) as [o w1]. by destruct o.
Qed.

Lemma fixed_log l : emitsOnly (fun e => legacyEffect e = e) (log l).
Proof. by apply emitsOnly_log. Qed.

Lemma fallback_legacy channelId error :
  sameUpTo legacyEffect (Main.fallback channelId error) (LegacySocket.fallback channelId error).
Proof.
  unfold Main.fallback, LegacySocket.fallback.
  apply sameUpTo_bind; [apply sameUpTo_fixed, fixed_log | intros _].
  apply sameUpTo_try_catch.
  - apply sameUpTo_bind; [apply call_closeSession | intros _].
    apply sameUpTo_fixed, fixed_log.
  - intros e. apply sameUpTo_fixed, fixed_log.
Qed.

Lemma cleanup_legacy channelId session :
  sameUpTo legacyEffect (Main.cleanup channelId session)
    (LegacySocket.cleanup channelId session).
Proof.
  unfold Main.cleanup, LegacySocket.cleanup.
  apply sameUpTo_try_catch; [ | intros e; apply fallback_legacy].
  apply sameUpTo_fixed. unfold Main.graceful. by confined.
Qed.

Lemma lastClientLeft_legacy channelId :
  sameUpTo legacyEffect (Main.lastClientLeft channelId)
    (LegacySocket.lastClientLeft channelId).
Proof.
  unfold Main.lastClientLeft, LegacySocket.lastClientLeft.
  apply sameUpTo_bind; [apply sameUpTo_fixed, fixed_log | intros _].
  apply sameUpTo_bind; [apply sameUpTo_fixed, emitsOnly_gets | intros session].
  apply sameUpTo_bind.
  - destruct session as [session | ]; [ | apply sameUpTo_fixed, emitsOnly_ret].
    apply sameUpTo_bind; [apply sameUpTo_fixed, emitsOnly_gets | intros active].
    apply sameUpTo_when, cleanup_legacy.
  - intros _. apply sameUpTo_fixed. confined.
Qed.

Lemma handleClose_legacy ws :
  sameUpTo legacyEffect (Main.handleClose ws) (LegacySocket.handleClose ws).
Proof.
  unfold Main.handleClose, LegacySocket.handleClose.
  apply sameUpTo_bind; [apply sameUpTo_fixed, emitsOnly_gets | intros channelId].
  destruct channelId as [channelId | ]; [ | apply sameUpTo_fixed, fixed_log].
  apply sameUpTo_bind; [apply sameUpTo_fixed, emitsOnly_gets | intros clients].
  apply sameUpTo_bind; [ | intros _; apply sameUpTo_fixed, emitsOnly_modify].
  destruct clients as [clients | ]; [ | apply sameUpTo_fixed, emitsOnly_ret].
  cbn zeta.
  apply sameUpTo_bind; [apply sameUpTo_fixed, emitsOnly_modify | intros _].
  apply sameUpTo_bind; [apply sameUpTo_fixed, fixed_log | intros _].
  apply sameUpTo_when, lastClientLeft_legacy.
Qed.

(** X15 -- the [close] listener of the legacy server runs like that of
    the main server: on every world the two return the same result and
    leave the same registries, and their effects are the same but for
    the close by id of the fallback, which is [forceCloseSession] in
    the legacy server and [closeSession] in the main one. *)
Theorem legacy_handleClose_runs_like_main (ws : WebSocket) (w : World) :
  LegacySocket.handleClose ws w =
    (let '(r, w1, t) := Main.handleClose ws w in (r, w1, map legacyEffect t)).
Proof. apply handleClose_legacy. Qed.

(** ** A creation that fails, in the legacy server *)

Lemma call_run c w :
  call c w =
    match outcome_at 0 w with
    | Rejects _ e => (Thrown e, set_tape (tl (tape w)) w, [EEngine c])
    | _ => (Done tt, set_tape (tl (tape w)) w, [EEngine c])
    end.
Proof. unfold call, next_outcome. by destruct (outcome_at 0 w). Qed.

Lemma call_accepted c w o rest :
  tape w = o :: rest ->
  (forall d e, o <> Rejects d e) ->
  call c w = (Done tt, set_tape rest w, [EEngine c]).
Proof.
  intros Ht Ho. rewrite call_run. unfold outcome_at. rewrite Ht. cbn [nth tl].
  destruct o as [d | d e | ]; [done | by destruct (Ho d e) | done].
Qed.

Lemma legacy_create_run c w o0 o1 rest :
  tape w = o0 :: o1 :: rest ->
  (forall d e, o0 <> Rejects d e) -> (forall d e, o1 <> Rejects d e) ->
  Legacy.create c w =
    (Done (conv (nextHandle w) c),
     set_server (registered (conv (nextHandle w) c))
       (set_tape rest (set_nextHandle (S (nextHandle w)) w)),
     [ELog (LCreatingNew c); EEngine (createStreamSession c); EEngine (initiateSession c)]).
Proof.
  intros Ht H0 H1. unfold Legacy.create, Legacy.newStreamSession, Main.register.
  rewrite bind_log. mnorm.
  rewrite (bind_done _ _ _ _ _ _
             (call_accepted (createStreamSession c) (set_nextHandle (S (nextHandle w)) w)
                o0 (o1 :: rest) Ht H0)).
  rewrite bind_ret.
  rewrite (bind_done _ _ _ _ _ _
             (call_accepted (initiateSession c)
                (set_tape (o1 :: rest) (set_nextHandle (S (nextHandle w)) w))
                o1 rest eq_refl H1)).
  mnorm. unfold ret. cbn. destruct w as [[] ? ? ? ? ? ? ? ?]; cbn in *; reflexivity.
Qed.

Lemma await_settled c w d rest :
  tape w = Settles d :: rest -> deadline w = None ->
  exists w1,
    await c w = (Done tt, w1, [EEngine c]) /\
    tape w1 = rest /\ deadline w1 = None /\ server w1 = server w.
Proof.
  intros Ht Hd. rewrite (await_run c w Hd). unfold outcome_at. rewrite Ht. cbn [nth tl].
  eexists. split; [reflexivity | ]. by cbn.
Qed.

Lemma await_refused c w d e rest :
  tape w = Rejects d e :: rest -> deadline w = None ->
  exists w1, await c w = (Thrown e, w1, [EEngine c]) /\ server w1 = server w.
Proof.
  intros Ht Hd. rewrite (await_run c w Hd). unfold outcome_at. rewrite Ht. cbn [nth tl].
  eexists. split; [reflexivity | ]. by cbn.
Qed.

(** The three set-up calls of a creation, of which one is refused
    after [ds] have settled. *)
Lemma legacy_setup_refused (k : M unit) session w ds d e rest :
  tape w = map Settles ds ++ Rejects d e :: rest ->
  deadline w = None ->
  (length ds < 3)%nat ->
  exists w1 t,
    (await (setupPromptStart (handle session));;
     await (setupSystemPrompt (handle session) (Some (JStr Legacy.systemPrompt)));;
     await (setupStartAudio (handle session));;
     k) w = (Thrown e, w1, t) /\
    server w1 = server w /\ sends t = [] /\ closes t = [].
Proof.
  intros Ht Hd Hlen.
  destruct ds as [ | d1 [ | d2 [ | d3 ds]]]; cbn [map app] in Ht; [ | | | cbn in Hlen; lia].
  - destruct (await_refused (setupPromptStart (handle session)) w d e rest Ht Hd)
      as (w1 & E & Hs).
    rewrite (bind_thrown _ _ _ _ _ _ E). by eexists _, _.
  - destruct (await_settled (setupPromptStart (handle session)) w d1 _ Ht Hd)
      as (w1 & E1 & Ht1 & Hd1 & Hs1).
    destruct (await_refused (setupSystemPrompt (handle session)
                               (Some (JStr Legacy.systemPrompt))) w1 d e rest Ht1 Hd1)
      as (w2 & E2 & Hs2).
    rewrite (bind_done _ _ _ _ _ _ E1), (bind_thrown _ _ _ _ _ _ E2).
    eexists _, _. split; [reflexivity | ]. split; [congruence | done].
  - destruct (await_settled (setupPromptStart (handle session)) w d1 _ Ht Hd)
      as (w1 & E1 & Ht1 & Hd1 & Hs1).
    destruct (await_settled (setupSystemPrompt (handle session)
                               (Some (JStr Legacy.systemPrompt))) w1 d2 _ Ht1 Hd1)
      as (w2 & E2 & Ht2 & Hd2 & Hs2).
    destruct (await_refused (setupStartAudio (handle session)) w2 d e rest Ht2 Hd2)
      as (w3 & E3 & Hs3).
    rewrite (bind_done _ _ _ _ _ _ E1), (bind_done _ _ _ _ _ _ E2),
      (bind_thrown _ _ _ _ _ _ E3).
    eexists _, _. split; [reflexivity | ]. split; [congruence | done].
Qed.

(** X16 -- a creation that fails, in the legacy server.  The legacy
    server registers a new channel before it sets the session up: when
    the engine refuses one of the three set-up calls, the socket is
    sent the error event and closed, but the channel stays registered,
    with its session and an empty client set; a socket that asks for
    the channel afterwards is attached to that session and told
    [sessionReady], with no call to the engine. *)
Theorem legacy_failed_creation_leaves_channel_registered (ws ws' : WebSocket)
    (channelId : string) (w : World) (o0 o1 : Outcome) (ds : list N) (d : N)
    (e : string) (rest : list Outcome) :
  channelConversations (server w) !! channelId = None ->
  deadline w = None ->
  tape w = o0 :: o1 :: map Settles ds ++ Rejects d e :: rest ->
  (forall d e, o0 <> Rejects d e) ->
  (forall d e, o1 <> Rejects d e) ->
  (length ds < 3)%nat ->
  exists w1 t,
    Legacy.initializeOrJoinChannel ws channelId w = (Done tt, w1, t) /\
    closes t = [ws] /\
    sends t = [(ws, Main.errorEvent "Failed to initialize or join channel" e)] /\
    channelConversations (server w1) !! channelId = Some (conv (nextHandle w) channelId) /\
    channelClients (server w1) !! channelId = Some [] /\
    clientChannels (server w1) = clientChannels (server w) /\
    exists w2 t2,
      Legacy.initializeOrJoinChannel ws' channelId w1 = (Done tt, w2, t2) /\
      sends t2 = [(ws', Main.sessionReady channelId false)] /\
      engine_calls t2 = [].
Proof.
  intros Hconv Hd Ht H0 H1 Hlen.
  unfold Legacy.initializeOrJoinChannel at 1. unfold try_catch.
  rewrite bind_gets, Hconv.
  rewrite (bind_done _ _ _ _ _ _ (legacy_create_run channelId w o0 o1 _ Ht H0 H1)).
  cbn [handle conv].
  destruct (legacy_setup_refused (Main.attach ws (conv (nextHandle w) channelId) true)
              (conv (nextHandle w) channelId)
              (set_server (registered (conv (nextHandle w) channelId))
                 (set_tape (map Settles ds ++ Rejects d e :: rest)
                    (set_nextHandle (S (nextHandle w)) w)))
              ds d e rest eq_refl Hd Hlen) as (w1 & t & E & Hs & Hsends & Hcloses).
  cbn [handle conv] in E. rewrite E. unfold Legacy.joinFailed, Legacy.sendError.
  eexists _, _. split; [reflexivity | ].
  rewrite !closes_app, !sends_app, Hsends, Hcloses.
  split; [reflexivity | ]. split; [reflexivity | ].
  rewrite Hs. cbn. unfold registered. cbn. rewrite !lookup_insert_eq.
  split; [done | ]. split; [done | ]. split; [done | ].
  unfold Legacy.initializeOrJoinChannel, try_catch. rewrite bind_gets, Hs. cbn.
  rewrite lookup_insert_eq, bind_log.
  rewrite (attach_run ws' _ false []) by (rewrite Hs; cbn; by rewrite lookup_insert_eq).
  by eexists _, _.
Qed.

(** The hypotheses of [legacy_failed_creation_leaves_channel_registered]
    hold when the engine refuses the first set-up call of channel c1. *)
Lemma legacy_failed_creation_leaves_channel_registered_witness :
  let w := world_of empty_server (fun _ => true)
             [Settles 0; Settles 0; Rejects 3 "Error: throttled"] in
  exists w1 t,
    Legacy.initializeOrJoinChannel 1%nat "c1" w = (Done tt, w1, t) /\
    closes t = [1%nat] /\
    channelClients (server w1) !! "c1" = Some [].
Proof.
  intros w.
  destruct (legacy_failed_creation_leaves_channel_registered 1%nat 2%nat "c1" w
              (Settles 0) (Settles 0) [] 3%N "Error: throttled" [])
    as (w1 & t & E & Hc & _ & _ & Hcl & _);
    [ reflexivity | reflexivity | reflexivity | done | done | cbn; lia | ].
  by exists w1, t.
Defined.

(** ** Messages of a socket that has left *)

Section AfterLeave.
Context {P : Platform}.

(** X17 -- a socket that has left is served no more.  After
    [handleClose], in either server, a frame from the same socket,
    whatever it holds, is answered with the error event "Channel not
    found"; the engine is not called, whatever integrations are
    enabled, and the registries stay as the leave left them. *)
Theorem message_after_leave_is_refused (browser_isOn : bool) (vonage : VonageIntegration)
    (twilio : TwilioIntegration) (ws : WebSocket) (msg : Inbound) (w : World) :
  let w1 := world_after (Main.handleClose ws w) in
  let w1' := world_after (LegacySocket.handleClose ws w) in
  Main.handleMessage browser_isOn vonage twilio ws msg w1 =
    (Done tt, w1,
     [ELog (LSendingError "Channel not found" "No active channel for this connection");
      ESend ws (Main.errorEvent "Channel not found"
                  "No active channel for this connection")]) /\
  LegacySocket.handleMessage ws msg w1' =
    (Done tt, w1',
     [ESend ws (Main.errorEvent "Channel not found"
                  "No active channel for this connection")]).
Proof.
  intros w1 w1'.
  assert (w1' = w1) as ->.
  { unfold w1', w1, world_after. rewrite handleClose_legacy.
    by destruct (Main.handleClose ws w) as [[r w2] t]. }
  assert (truthy_id (clientChannels (server w1) !! ws) = None) as Hnone.
  { unfold w1, world_after.
    destruct (Main.handleClose ws w) as [[r w2] t] eqn:E.
    by apply handleClose_detaches in E as [_ H]. }
  split.
  - unfold Main.handleMessage. by rewrite bind_gets, Hnone.
  - unfold LegacySocket.handleMessage. by rewrite bind_gets, Hnone.
Qed.
End AfterLeave.

(** ** The frames of one event *)

Lemma concat_chunks (samples : list Z) (n : nat) :
  concat (map (chunkAt samples) (seq 0 n)) = take (n * SAMPLES_PER_CHUNK) samples.
Proof.
  induction n as [ | n IH]; [by rewrite take_0 | ].
  rewrite seq_S, map_app, concat_app, IH. cbn [map concat]. rewrite app_nil_r.
  unfold chunkAt, slice.
  replace (n * SAMPLES_PER_CHUNK + SAMPLES_PER_CHUNK - n * SAMPLES_PER_CHUNK)%nat
    with SAMPLES_PER_CHUNK by lia.
  rewrite take_take_drop. f_equal. lia.
Qed.

Lemma chunksOf_lengths (samples : list Z) :
  Forall (fun frame => length frame = SAMPLES_PER_CHUNK) (chunksOf samples).
Proof.
  unfold chunksOf. apply Forall_forall. intros frame Hin.
  apply list_elem_of_fmap in Hin as (i & -> & Hi).
  apply elem_of_seq in Hi. apply chunkAt_length.
  pose proof (Nat.div_mod_eq (length samples) SAMPLES_PER_CHUNK) as Hdiv.
  change SAMPLES_PER_CHUNK with 320%nat in *. nia.
Qed.

Section Framing.
Context {P : Platform}.

(** X18 -- the frames of one event.  Of one [audioOutput] event of [n]
    samples, an open client of the channel receives the same binary
    frames from the listener of the main server and from that of the
    legacy server: [n / 320] frames of exactly 320 samples each, which
    put end to end are the first [n / 320 * 320] samples of the event,
    in order; the last [n mod 320] samples are in no frame. *)
Theorem frames_are_a_prefix_of_the_event (browser_isOn twilio_isOn : bool)
    (conversation : Conversation) (data : list (string * Json)) (content : string)
    (c : WebSocket) (w : World) :
  assoc "content" data = Some (JStr content) ->
  NoDup (clientsIn w (id conversation)) ->
  c ∈ clientsIn w (id conversation) ->
  readyState w c = ReadyState.OPEN ->
  let pcm := int16View (fromBase64 content) in
  let main :=
    pcmFramesTo c (trace_of (Main.onAudioOutput browser_isOn
                               (TwilioSource.integration twilio_isOn)
                               conversation data w)) in
  let legacy := pcmFramesTo c (trace_of (Legacy.onAudioOutput (id conversation) data w)) in
  main = chunksOf pcm /\ legacy = chunksOf pcm /\
  length (chunksOf pcm) = (length pcm / 320)%nat /\
  Forall (fun frame => length frame = 320%nat) (chunksOf pcm) /\
  concat (chunksOf pcm) = take (length pcm / 320 * 320) pcm /\
  (length pcm - length (concat (chunksOf pcm)) = length pcm mod 320)%nat.
Proof.
  intros Hc Hnd Hin Hopen pcm main legacy.
  split; [ | split; [ | split; [ | split; [ | split]]]].
  - subst main.
    destruct (onAudioOutput_TwilioSource_deliveries browser_isOn twilio_isOn conversation
                data (fromBase64 content) w) as (t & E & Hs); [by rewrite Hc | ].
    rewrite E. cbn [trace_of snd].
    destruct (framesTo_deliveries w _ c _ t Hs Hnd Hin Hopen) as [Hp _].
    rewrite Hp, !omap_app, omap_pcm_of_frames.
    destruct twilio_isOn, browser_isOn; cbn; by rewrite app_nil_r.
  - subst legacy.
    destruct (Legacy_onAudioOutput_run (id conversation) data content w Hc)
      as (t & E & Hs).
    rewrite E. cbn [trace_of snd].
    destruct (framesTo_deliveries w _ c _ t Hs Hnd Hin Hopen) as [Hp _].
    rewrite Hp. cbn [omap list_omap]. apply omap_pcm_of_frames.
  - unfold chunksOf. by rewrite length_map, length_seq.
  - apply chunksOf_lengths.
  - apply concat_chunks.
  - unfold chunksOf. rewrite concat_chunks, length_take.
    pose proof (Nat.div_mod_eq (length pcm) 320) as Hdiv.
    change SAMPLES_PER_CHUNK with 320%nat. lia.
Qed.
End Framing.

(** The hypotheses of [frames_are_a_prefix_of_the_event] hold for the
    event of 480 samples on the channel whose only client is socket 7:
    one frame, the first 320 samples. *)
Lemma frames_are_a_prefix_of_the_event_witness :
  pcmFramesTo 7%nat
    (trace_of (Legacy.onAudioOutput (P := node) "c1" (audioOutputOf samples1)
                 (world_of one_client_server (fun _ => true) [])))
  = chunksOf (int16View (fromBase64 (toBase64 (bytesOfInt16 samples1)))).
Proof.
  apply (frames_are_a_prefix_of_the_event (P := node) false false (conv 0 "c1")
           (audioOutputOf samples1) (toBase64 (bytesOfInt16 samples1)) 7%nat
           (world_of one_client_server (fun _ => true) []));
    [ reflexivity | apply NoDup_singleton | apply list_elem_of_here | reflexivity ].
Defined.

(** ** Decimation *)

Lemma resample16kHzTo8kHz_app (a b : list Z) (k : nat) :
  length a = (2 * k)%nat ->
  resample16kHzTo8kHz (a ++ b) = resample16kHzTo8kHz a ++ resample16kHzTo8kHz b.
Proof.
  intros Hk. unfold resample16kHzTo8kHz.
  rewrite length_app, !Nat.div2_div, Hk.
  replace (S (2 * k + length b)) with (k * 2 + S (length b))%nat by lia.
  rewrite Nat.div_add_l by done.
  replace (S (2 * k) / 2)%nat with k
    by (replace (S (2 * k)) with (k * 2 + 1)%nat by lia;
        rewrite Nat.div_add_l by done; cbn; lia).
  rewrite seq_app, map_app. f_equal.
  - apply map_ext_in. intros i Hi%in_seq. apply app_nth1. lia.
  - cbn [Nat.add].
    replace (seq k (S (length b) / 2)) with (Nat.add k <$> seq 0 (S (length b) / 2))
      by (rewrite fmap_add_seq; f_equal; lia).
    rewrite <- list_fmap_compose. apply map_ext. intros i. cbn.
    rewrite app_nth2 by lia. f_equal. lia.
Qed.

(** X19 -- [resample16kHzTo8kHz] keeps every other sample: of [n]
    samples it returns [(n + 1) / 2], the [i]-th being sample [2 i] of
    the input (the last sample of an input of odd length is kept), and
    of nothing it returns nothing.  After an even number of samples the
    decimation starts afresh: the decimation of a whole event is the
    decimated 320-sample frames put end to end. *)
Theorem resample_keeps_every_other_sample (a b : list Z) :
  length (resample16kHzTo8kHz a) = ((length a + 1) / 2)%nat /\
  (forall i, (2 * i < length a)%nat -> resample16kHzTo8kHz a !! i = a !! (2 * i)%nat) /\
  (forall i, (length a <= 2 * i)%nat -> resample16kHzTo8kHz a !! i = None) /\
  (Nat.Even (length a) ->
   resample16kHzTo8kHz (a ++ b) = resample16kHzTo8kHz a ++ resample16kHzTo8kHz b).
Proof.
  assert (length (resample16kHzTo8kHz a) = ((length a + 1) / 2)%nat) as Hlen
    by by rewrite resample16kHzTo8kHz_length, div2_ceil.
  pose proof (Nat.div_mod_eq (length a + 1) 2) as Hdiv.
  pose proof (Nat.mod_upper_bound (length a + 1) 2) as Hmod.
  split; [exact Hlen | ]. split; [ | split].
  - intros i Hi. rewrite resample16kHzTo8kHz_lookup; [f_equal; lia | ].
    rewrite div2_ceil. lia.
  - intros i Hi. apply lookup_ge_None. rewrite Hlen. lia.
  - intros [k Hk]. by apply (resample16kHzTo8kHz_app a b k).
Qed.

(** [resample_keeps_every_other_sample] at the two frames of the event
    of 640 samples. *)
Lemma resample_keeps_every_other_sample_witness :
  resample16kHzTo8kHz samples640
  = resample16kHzTo8kHz (take 320 samples640) ++ resample16kHzTo8kHz (drop 320 samples640).
Proof.
  rewrite <- (take_drop 320 samples640) at 1.
  apply (resample_keeps_every_other_sample (take 320 samples640) (drop 320 samples640)).
  exists 160%nat. reflexivity.
Defined.

(** ** The next-best-offer tool *)

(** X20 -- [getNbo] answers for one customer and three intents.  For
    any phone number but 5101234567 the result is the empty object,
    whatever the intent.  For that number, the intents [billing],
    [outage] and [trade_in] give an offer with a promotion and a
    reason; the intent [phone_number], which is a key of the sample
    record too, and the names every object inherits (such as
    [constructor] or [toString]) make the promise reject with a
    [TypeError]; any other intent gives an object with an [error]
    message that names the intent and the number. *)
Theorem getNbo_answers (phoneNumber intentType : string) :
  (phoneNumber <> "5101234567" -> GetNbo.getNbo phoneNumber intentType = Done (JObj [])) /\
  (intentType ∈ ["billing"; "outage"; "trade_in"] ->
   exists promotion reason,
     GetNbo.getNbo "5101234567" intentType =
       Done (JObj [("Best Customer Offer", JStr promotion); ("Reason", JStr reason)]) /\
     promotion <> "" /\ reason <> "") /\
  (intentType = "phone_number" \/ intentType ∈ GetNbo.Object_prototype ->
   GetNbo.getNbo "5101234567" intentType =
     Thrown "TypeError: Cannot read properties of undefined (reading 'promotion')") /\
  (intentType ∉ ["phone_number"; "billing"; "outage"; "trade_in"] ->
   intentType ∉ GetNbo.Object_prototype ->
   GetNbo.getNbo "5101234567" intentType =
     Done (JObj [("error",
                  JStr ("No " ++ intentType
                          ++ " offer found for phone number: 5101234567")%string)])).
Proof.
  split; [ | split; [ | split]].
  - intros Hne. unfold GetNbo.getNbo. by rewrite bool_decide_eq_false_2.
  - rewrite !elem_of_cons, elem_of_nil.
    intros [-> | [-> | [-> | []]]]; eexists _, _; (split; [vm_compute; reflexivity | done]).
  - intros [-> | Hin]; [by vm_compute | ].
    unfold GetNbo.Object_prototype in Hin. rewrite !elem_of_cons, elem_of_nil in Hin.
    repeat (destruct Hin as [-> | Hin]; [by vm_compute | ]). done.
  - intros Hown Hproto. unfold GetNbo.getNbo, GetNbo.lookup.
    rewrite bool_decide_eq_true_2 by done. cbn [negb].
    rewrite !not_elem_of_cons in Hown. destruct Hown as (H1 & H2 & H3 & H4 & _).
    unfold GetNbo.sampleData. cbn [assoc].
    rewrite !decide_False by done.
    by rewrite bool_decide_eq_false_2.
Qed.

(** [getNbo_answers] at an unknown number, at the intent [outage] and at
    the intent [phone_number]. *)
Lemma getNbo_answers_witness :
  GetNbo.getNbo "5551234567" "billing" = Done (JObj []) /\
  (exists promotion reason,
     GetNbo.getNbo "5101234567" "outage" =
       Done (JObj [("Best Customer Offer", JStr promotion); ("Reason", JStr reason)]) /\
     promotion <> "" /\ reason <> "") /\
  GetNbo.getNbo "5101234567" "phone_number" =
    Thrown "TypeError: Cannot read properties of undefined (reading 'promotion')".
Proof.
  split; [ | split].
  - by apply (getNbo_answers "5551234567" "billing").
  - apply (getNbo_answers "5101234567" "outage").
    apply list_elem_of_further, list_elem_of_here.
  - apply (getNbo_answers "5101234567" "phone_number"). by left.
Defined.

(** ** The inbound operation of the Genesys integration *)

Section GenesysInput.
Context {P : Platform}.

Lemma Genesys_handlers_confined handler jsonMsg session :
  (exists k, In (k, handler) Genesys.messageHandlers) ->
  emitsOnly (narrowbandInput (handle session)) (handler jsonMsg session) /\
  keepsServer (handler jsonMsg session).
Proof.
  intros [k Hk]. cbn in Hk.
  destruct Hk as [[= _ <-] | [[= _ <-] | [[= _ <-] | []]]];
    unfold Genesys.onConnect, Genesys.onAudio, Genesys.onError;
    split; repeat first [progress confined | case_match]; try done.
  by eexists.
Qed.

(** X21 -- the inbound operation of the Genesys integration, whatever
    the frame and whatever the engine answers: it sends no frame,
    closes no socket and leaves the registries as they are; what it
    passes to the engine is always [streamAudio] on the session at
    hand, with the PCM that [mulaw.decode] makes of some bytes, two
    bytes for each.  An [audio] message without [audio] field is only
    reported on the console. *)
Theorem genesys_input_is_confined (isOn : bool) (msg : Inbound) (session : Conversation) :
  emitsOnly (narrowbandInput (handle session))
    (Genesys.tryProcessAudioInput isOn msg session) /\
  keepsServer (Genesys.tryProcessAudioInput isOn msg session) /\
  forall fields text w,
    assoc "event" fields = Some (JStr "audio") ->
    assoc "audio" fields = None ->
    Genesys.tryProcessAudioInput true {| raw := text; parsed := Some (JObj fields) |}
      session w
    = (Done tt, w, [ELog (LGenesysInvalidPayload (JObj fields))]).
Proof.
  split; [ | split].
  - unfold Genesys.tryProcessAudioInput. destruct isOn; cbn [negb]; confined; try done.
    destruct (Map_get _ _) as [handler | ] eqn:E; [ | by confined].
    by eapply Genesys_handlers_confined, Map_get_In.
  - unfold Genesys.tryProcessAudioInput. destruct isOn; cbn [negb]; confined.
    destruct (Map_get _ _) as [handler | ] eqn:E; [ | by confined].
    by eapply Genesys_handlers_confined, Map_get_In.
  - intros fields text w He Ha.
    unfold Genesys.tryProcessAudioInput, try_catch, JSON_parse. cbn [negb parsed].
    rewrite bind_ret. cbn [prop]. rewrite !bind_ret, He.
    unfold js_or at 1. cbn [truthy]. rewrite bool_decide_eq_false_2 by done. cbn [negb].
    cbn [Map_get Genesys.messageHandlers assoc].
    rewrite decide_False by done. rewrite decide_True by done.
    unfold Genesys.onAudio. cbn [prop]. rewrite bind_ret, Ha. cbn [truthy].
    rewrite bind_ret. cbn [andb default]. reflexivity.
Qed.

End GenesysInput.

(** [genesys_input_is_confined] at the message [{ event: "audio" }]. *)
Lemma genesys_input_is_confined_witness :
  let w := world_of one_client_server (fun _ => true) [] in
  Genesys.tryProcessAudioInput (P := node) true
    {| raw := []; parsed := Some (JObj [("event", JStr "audio")]) |} (conv 0 "c1") w
  = (Done tt, w, [ELog (LGenesysInvalidPayload (JObj [("event", JStr "audio")]))]).
Proof.
  intros w.
  apply (genesys_input_is_confined (P := node) true garbage (conv 0 "c1")); reflexivity.
Defined.

(** ** A join while the last client is being torn down *)

Lemma racing_resumed c rest w :
  racing (c :: rest) w =
    (let '(r, w1, t) := Leave.resumed rest w in (r, w1, EEngine c :: t)).
Proof.
  cbn [racing]. unfold Leave.resumed, await, Leave.settle.
  destruct (next_outcome w) as [o w1].
  destruct o as [d | d e | ]; [ | | done].
  - destruct (timer_fired w1 (now w1 + Z.of_N d)); [done | ].
    by destruct (racing rest (set_now (now w1 + Z.of_N d) w1)) as [[r w2] t].
  - by destruct (timer_fired w1 (now w1 + Z.of_N d)).
Qed.

Lemma race_segments session w :
  race_timeout 3000 "Error: Session cleanup timeout" (Main.graceful session) w =
    (emit (EEngine (endAudioContent (handle session)));;
     Leave.race_until (now w + 3000) "Error: Session cleanup timeout"
       [endPrompt (handle session); close (handle session)]) w.
Proof.
  unfold race_timeout, Leave.race_until, bind at 1, emit.
  destruct (racing (Main.graceful session) (set_deadline (Some (now w + 3000)) w))
    as [[r w1] t] eqn:E.
  pose proof E as Hg.
  apply (graceful_inv session _ _ _ _ (now w + 3000)) in Hg as (_ & _ & Hnow & _);
    [ | reflexivity | cbn; lia].
  unfold Main.graceful in E. rewrite racing_resumed in E.
  destruct (Leave.resumed _ (set_deadline (Some (now w + 3000)) w)) as [[r' w1'] t'].
  injection E as <- <- <-.
  destruct r' as [[] | e | ]; try reflexivity.
  cbn [app]. by rewrite Z.max_l by lia.
Qed.

Lemma bind_ext {A B} (m : M A) (k k' : A -> M B) w :
  (forall a w1, k a w1 = k' a w1) -> bind m k w = bind m k' w.
Proof.
  intros H. unfold bind. destruct (m w) as [[[a | e | ] w1] t1]; [ | done | done].
  by rewrite H.
Qed.

Lemma bind_cong {A B} (m m' : M A) (k : A -> M B) w :
  m w = m' w -> bind m k w = bind m' k w.
Proof. intros H. unfold bind. by rewrite H. Qed.

Lemma try_catch_emit {A} e (k : M A) (h : string -> M A) w :
  try_catch (emit e;; k) h w = (emit e;; try_catch k h) w.
Proof.
  unfold try_catch, bind, emit. destruct (k w) as [[[a | e' | ] w1] t1]; try done.
  destruct (h e' w1) as [[r w2] t2]. by rewrite app_assoc.
Qed.

Lemma try_catch_ext {A} (m m' : M A) (h : string -> M A) w :
  m w = m' w -> try_catch m h w = try_catch m' h w.
Proof. intros H. unfold try_catch. by rewrite H. Qed.

(** The teardown block of [handleClose] cut at its first suspension. *)
Lemma cleanup_segments conversationId session w :
  Main.cleanup conversationId session w =
    (emit (EEngine (endAudioContent (handle session)));;
     try_catch
       (Leave.race_until (now w + 3000) "Error: Session cleanup timeout"
          [endPrompt (handle session); close (handle session)];;
        log (LCleanedUp conversationId))
       (Main.fallback conversationId)) w.
Proof.
  unfold Main.cleanup. rewrite <- try_catch_emit. apply try_catch_ext.
  rewrite <- bind_assoc. unfold bind at 1 3. by rewrite race_segments.
Qed.

(** The two segments of a leave, run one after the other, are
    [handleClose]. *)
Lemma leave_segments ws w :
  Main.handleClose ws w = (task <- Leave.leaveBegin ws;; Leave.runTask task) w.
Proof.
  unfold Main.handleClose, Leave.leaveBegin. rewrite bind_assoc.
  apply bind_ext. intros [conversationId | ] w1; [ | by rewrite bind_assoc, !bind_log].
  rewrite !bind_assoc. apply bind_ext. intros [clients | ] w2; cbn zeta.
  - rewrite !bind_assoc. apply bind_ext. intros [] w3.
    rewrite !bind_assoc. apply bind_ext. intros [] w4.
    destruct (length (set_delete ws clients) =? 0)%nat; cbn [when].
    + unfold Main.lastClientLeft. rewrite !bind_assoc. apply bind_ext. intros [] w5.
      rewrite !bind_assoc. apply bind_ext. intros [session | ] w6.
      * rewrite !bind_assoc. apply bind_ext. intros [ | ] w7; cbn [when].
        -- rewrite (bind_cong _ _ _ _ (cleanup_segments conversationId session w7)).
           rewrite !bind_assoc, bind_gets. rewrite !bind_assoc.
           apply bind_ext. intros [] w8. rewrite bind_ret. cbn [Leave.runTask].
           unfold Leave.leaveResume, Leave.forget, Leave.unbind.
           reflexivity.
        -- unfold Leave.forget, Leave.unbind. rewrite !bind_assoc, !bind_ret.
           rewrite !bind_modify. unfold modify. cbn [Leave.runTask]. by unfold bind, ret.
      * unfold Leave.forget, Leave.unbind. rewrite !bind_assoc, !bind_ret.
        rewrite !bind_modify. unfold modify. cbn [Leave.runTask]. by unfold bind, ret.
    + unfold Leave.unbind. rewrite !bind_ret, !bind_assoc, !bind_modify. unfold modify.
      rewrite bind_ret. reflexivity.
  - unfold Leave.unbind. rewrite !bind_ret, !bind_assoc, !bind_modify. unfold modify.
    rewrite bind_ret. reflexivity.
Qed.

Lemma emitsOnly_resumed ok calls :
  Forall (fun c => ok (EEngine c)) calls -> emitsOnly ok (Leave.resumed calls).
Proof.
  intros Hc w. unfold Leave.resumed, Leave.settle, trace_of.
  destruct (next_outcome w) as [o w1].
  destruct o as [d | d e | ]; try destruct (timer_fired _ _); try constructor.
  pose proof (emitsOnly_racing ok calls Hc (set_now (now w1 + Z.of_N d) w1)) as H.
  unfold trace_of in H. by destruct (racing calls _) as [[r w2] t].
Qed.

Lemma keepsServer_racing calls : keepsServer (racing calls).
Proof.
  induction calls as [ | c rest IH]; intros w; [done | ].
  cbn [racing]. unfold world_after.
  destruct (await c w) as [[r1 w1] t1] eqn:E.
  apply await_inv in E as (_ & Hs & _).
  specialize (IH w1). unfold world_after in IH.
  destruct r1 as [[] | e | ]; [ | done | done].
  destruct (racing rest w1) as [[r2 w2] t2]. cbn [fst snd] in *. congruence.
Qed.

Lemma keepsServer_resumed calls : keepsServer (Leave.resumed calls).
Proof.
  intros w. unfold Leave.resumed, Leave.settle, world_after, next_outcome.
  destruct (outcome_at 0 w) as [d | d e | ]; try destruct (timer_fired _ _); try done.
  pose proof (keepsServer_racing calls
                (set_now (now (set_tape (tl (tape w)) w) + Z.of_N d)
                   (set_tape (tl (tape w)) w))) as H.
  unfold world_after in H. by destruct (racing calls _) as [[r w2] t].
Qed.

Lemma emitsOnly_race_until ok timer e calls :
  Forall (fun c => ok (EEngine c)) calls ->
  emitsOnly ok (Leave.race_until timer e calls).
Proof.
  intros Hc w. unfold Leave.race_until, trace_of.
  pose proof (emitsOnly_resumed ok calls Hc (set_deadline (Some timer) w)) as Hm.
  unfold trace_of in Hm.
  by destruct (Leave.resumed calls _) as [[[[] | e' | ] w1] t1].
Qed.

Lemma keepsServer_race_until timer e calls :
  keepsServer (Leave.race_until timer e calls).
Proof.
  intros w. unfold Leave.race_until, world_after.
  pose proof (keepsServer_resumed calls (set_deadline (Some timer) w)) as Hm.
  unfold world_after in Hm.
  by destruct (Leave.resumed calls _) as [[[[] | e' | ] w1] t1].
Qed.

(** The second segment of a leave always returns, with the channel and
    the socket deleted; it sends nothing and closes no socket. *)
Lemma leaveResume_inv ws conversationId session timer w r w1 t :
  Leave.leaveResume ws conversationId session timer w = (r, w1, t) ->
  r = Done tt /\
  server w1 =
    Main.set_clientChannels (delete ws)
      (Main.set_channelClients (delete conversationId)
         (Main.set_channelConversations (delete conversationId) (server w))) /\
  sends t = [] /\ closes t = [].
Proof.
  intros E.
  assert (emitsOnly notToClients (Leave.leaveResume ws conversationId session timer)) as Hq.
  { unfold Leave.leaveResume, Leave.forget, Leave.unbind, Main.fallback.
    repeat first [ apply emitsOnly_race_until;
                     repeat first [apply List.Forall_cons | apply List.Forall_nil]
                 | progress confined ]; done. }
  specialize (Hq w). rewrite E in Hq. apply notToClients_sends in Hq.
  split; [ | split; [ | exact Hq]]; revert E;
    unfold Leave.leaveResume, Leave.forget, Leave.unbind;
    unfold bind at 1;
    destruct (try_catch _ _ w) as [[r1 w2] t1] eqn:E1;
    assert (r1 = Done tt) as ->.
  1, 3: revert E1; unfold try_catch, bind at 1, Leave.race_until;
      destruct (Leave.resumed _ (set_deadline (Some timer) w)) as [[[[] | e | ] w3] t3];
      cbn [log emit]; try (by intros [= <- <- <-]);
      match goal with
      | |- context [Main.fallback ?c ?e ?w] =>
          destruct (fallback_inv c e w) as (w4 & t4 & -> & _)
      end; by intros [= <- <- <-].
  - unfold bind, modify. by intros [= <- <- <-].
  - assert (server w2 = server w) as Hs.
    { assert (keepsServer
                (try_catch
                   (Leave.race_until timer "Error: Session cleanup timeout"
                      [endPrompt (handle session); close (handle session)];;
                    log (LCleanedUp conversationId))
                   (Main.fallback conversationId))) as Hk.
      { unfold Main.fallback.
        repeat first [ apply keepsServer_race_until | progress confined ]. }
      specialize (Hk w). unfold world_after in Hk. by rewrite E1 in Hk. }
    unfold bind, modify. intros [= <- <- <-]. cbn. by rewrite Hs.
Qed.

(** The first segment of the leave of the last client of a channel
    whose session is active. *)
Lemma leaveBegin_tearing ws c session clients w :
  clientChannels (server w) !! ws = Some c -> c <> "" ->
  channelClients (server w) !! c = Some clients ->
  set_delete ws clients = [] ->
  channelConversations (server w) !! c = Some session ->
  isSessionActive w c = true ->
  Leave.leaveBegin ws w =
    (Done (Leave.Tearing ws c session (now w + 3000)),
     set_server (Main.set_channelClients <[c := []]>) w,
     [ELog (LClientDisconnected c 0); ELog (LLastClientLeft c);
      EEngine (endAudioContent (handle session))]).
Proof.
  intros Hws Hne Hcl Hlast Hconv Hact. unfold Leave.leaveBegin.
  rewrite bind_gets, Hws.
  assert (truthy_id (Some c) = Some c) as -> by by destruct c.
  rewrite bind_gets, Hcl. cbn zeta. rewrite Hlast. mnorm. rewrite bind_log.
  cbn [length Nat.eqb]. rewrite bind_log. rewrite bind_gets.
  cbn [server set_server channelConversations Main.set_channelClients].
  rewrite Hconv. rewrite bind_gets. cbn [isSessionActive set_server].
  rewrite Hact. rewrite bind_gets. reflexivity.
Qed.

Section TeardownRace.
Context {P : Platform}.
Variable browser_isOn : bool.
Variable vonage : VonageIntegration.
Variable twilio : TwilioIntegration.

(** X22 -- a join that arrives while a channel is being torn down is
    orphaned.  The last client [ws] of channel [c] leaves while the
    session is active, and [handleClose] is suspended in the graceful
    sequence; [ws2] then connects to [c]: it joins the registered
    conversation and is told [sessionReady] with [isNewChannel] false.
    When the leave resumes it always returns, and deletes the channel
    from both channel registries whatever has joined in between: [ws2]
    stays bound to [c], [c] has no conversation and no client set, and
    every message of [ws2] is answered "Conversation not found". *)
Theorem join_during_teardown_is_orphaned (ws ws2 : WebSocket) (c : string)
    (session : Conversation) (clients : list WebSocket) (w : World) :
  ws2 <> ws ->
  clientChannels (server w) !! ws = Some c -> c <> "" ->
  channelClients (server w) !! c = Some clients ->
  set_delete ws clients = [] ->
  channelConversations (server w) !! c = Some session -> id session = c ->
  isSessionActive w c = true ->
  exists timer w1 t1 w2 t2,
    Leave.leaveBegin ws w = (Done (Leave.Tearing ws c session timer), w1, t1) /\
    Main.initializeOrJoinChannel ws2 c w1 = (Done tt, w2, t2) /\
    sends t2 = [(ws2, Main.sessionReady c false)] /\ closes t2 = [] /\
    forall r w3 t3,
      Leave.leaveResume ws c session timer w2 = (r, w3, t3) ->
      r = Done tt /\ sends t3 = [] /\ closes t3 = [] /\
      clientChannels (server w3) !! ws2 = Some c /\
      channelConversations (server w3) !! c = None /\
      channelClients (server w3) !! c = None /\
      forall msg,
        Main.handleMessage browser_isOn vonage twilio ws2 msg w3 =
          (Done tt, w3,
           [ELog (LSendingError "Conversation not found"
                    "No active conversation for this channel");
            ESend ws2 (Main.errorEvent "Conversation not found"
                         "No active conversation for this channel")]).
Proof.
  intros Hws2 Hws Hne Hcl Hlast Hconv Hid Hact.
  pose proof (leaveBegin_tearing ws c session clients w Hws Hne Hcl Hlast Hconv Hact) as E1.
  set (w1 := set_server (Main.set_channelClients <[c := []]>) w) in *.
  assert (channelClients (server w1) !! id session = Some []) as Hcl1.
  { rewrite Hid. subst w1. cbn. by rewrite lookup_insert_eq. }
  assert (Main.initializeOrJoinChannel ws2 c w1 =
            (Done tt, set_server (attachedTo ws2 session []) w1,
             [ELog (LJoiningExisting c); ELog (LChannelHas c 1);
              ESend ws2 (Main.sessionReady c false)])) as E2.
  { unfold Main.initializeOrJoinChannel, try_catch. rewrite bind_gets.
    replace (channelConversations (server w1) !! c) with (Some session)
      by (subst w1; cbn; by rewrite Hconv).
    rewrite bind_log, (attach_run ws2 session false [] w1 Hcl1), Hid. reflexivity. }
  eexists _, _, _, _, _. split; [exact E1 | ]. split; [exact E2 | ].
  split; [reflexivity | ]. split; [reflexivity | ].
  intros r w3 t3 E3. apply leaveResume_inv in E3 as (-> & Hs3 & Hsends & Hcloses).
  assert (clientChannels (server w3) !! ws2 = Some c) as Hb.
  { rewrite Hs3. unfold attachedTo. cbn. rewrite lookup_delete_ne by done.
    by rewrite lookup_insert_eq, Hid. }
  assert (channelConversations (server w3) !! c = None) as Hc3.
  { rewrite Hs3. cbn. by rewrite lookup_delete_eq. }
  split; [done | ]. split; [done | ]. split; [done | ]. split; [done | ].
  split; [done | ].
  split; [rewrite Hs3; cbn; by rewrite lookup_delete_eq | ].
  intros msg. unfold Main.handleMessage. rewrite bind_gets, Hb.
  assert (truthy_id (Some c) = Some c) as -> by by destruct c.
  rewrite bind_gets, Hc3. reflexivity.
Qed.
End TeardownRace.

Lemma join_during_teardown_is_orphaned_witness :
  let w := world_of one_client_server (fun _ => true) [] in
  exists timer w1 t1 w2 t2,
    Leave.leaveBegin 7%nat w = (Done (Leave.Tearing 7%nat "c1" (conv 0 "c1") timer), w1, t1) /\
    Main.initializeOrJoinChannel 8%nat "c1" w1 = (Done tt, w2, t2) /\
    sends t2 = [(8%nat, Main.sessionReady "c1" false)].
Proof.
  intros w.
  destruct (join_during_teardown_is_orphaned (P := node) true (vonage_modelled false)
              (TwilioSource.integration (P := node) false) 7%nat 8%nat "c1" (conv 0 "c1")
              [7%nat] w)
    as (timer & w1 & t1 & w2 & t2 & E1 & E2 & Hs & _);
    [ done | reflexivity | done | reflexivity | reflexivity | reflexivity | reflexivity
    | reflexivity | ].
  by exists timer, w1, t1, w2, t2.
Defined.

(** ** The error replies of [handleMessage] *)

Section Replies.
Context {P : Platform}.
Variable browser_isOn : bool.
Variable vonage : VonageIntegration.
Variable twilio_on : bool.

Lemma NovaSonic_notToClients msg conversation :
  emitsOnly notToClients (Main.tryProcessNovaSonicMessage msg conversation).
Proof.
  unfold Main.tryProcessNovaSonicMessage. confined.
  destruct (Map_get _ _) as [handler | ] eqn:E; [ | by confined].
  apply NovaSonic_handlers_confined; [by intros [] | ].
  apply Map_get_In in E. exact E.
Qed.

Lemma Browser_input_notToClients isOn msg conversation :
  emitsOnly notToClients (Browser.tryProcessAudioInput isOn msg conversation).
Proof.
  unfold Browser.tryProcessAudioInput. destruct isOn; cbn [negb]; by confined.
Qed.

(** X23 -- with consistent registries, "Conversation not found" is out
    of reach.  In the main server with the Twilio integration of the
    sources and Vonage disabled, a frame of a socket bound to a channel
    always reaches the channel's conversation: the handler sends at
    most one frame, to the sender, and it is "Error processing
    message"; a frame of a socket bound to no channel is answered
    "Channel not found".  No socket is closed. *)
Theorem consistent_registries_reach_the_conversation (ws : WebSocket) (msg : Inbound)
    (w : World) :
  consistent (server w) ->
  vonage_isOn vonage = false ->
  let t := trace_of (Main.handleMessage browser_isOn vonage
                       (TwilioSource.integration twilio_on) ws msg w) in
  closes t = [] /\
  match clientChannels (server w) !! ws with
  | None =>
      sends t = [(ws, Main.errorEvent "Channel not found"
                        "No active channel for this connection")]
  | Some _ =>
      sends t = [] \/
      exists e, sends t = [(ws, Main.errorEvent "Error processing message" e)]
  end.
Proof.
  intros (_ & Hclients & Hbound) Hv t. subst t.
  unfold Main.handleMessage. rewrite bind_gets.
  destruct (clientChannels (server w) !! ws) as [c | ] eqn:Hws; [ | done].
  destruct (Hbound ws c Hws) as (Hne & clients & Hcl & _).
  destruct (Hclients c clients Hcl) as (_ & _ & [conversation Hconv] & _).
  assert (truthy_id (Some c) = Some c) as -> by by destruct c.
  rewrite bind_gets, Hconv, Hv. cbn [when].
  match goal with
  | |- context [try_catch ?m _] => set (body := m)
  end.
  assert (emitsOnly notToClients body) as Hq.
  { apply emitsOnly_bind; [ | intros _; apply emitsOnly_bind; [ | intros _ ]].
    - destruct browser_isOn; cbn [when];
        [apply Browser_input_notToClients | apply emitsOnly_ret].
    - apply emitsOnly_ret.
    - apply emitsOnly_bind; [ | intros _; apply NovaSonic_notToClients].
      cbn [TwilioSource.integration twilio_isOn twilio_tryProcessAudioInput].
      destruct twilio_on; cbn [when];
        [apply TwilioSource_input_notToClients | apply emitsOnly_ret]. }
  specialize (Hq w). unfold trace_of, try_catch in *.
  destruct (body w) as [[[[] | e | ] w1] t1]; cbn [snd] in *;
    apply notToClients_sends in Hq as [Hs Hc].
  - split; [done | by left].
  - cbn. rewrite closes_app, sends_app, Hs, Hc. split; [done | right; by exists e].
  - split; [done | by left].
Qed.
End Replies.

Lemma consistent_registries_reach_the_conversation_witness :
  let w := world_of one_client_server (fun _ => true) [] in
  closes (trace_of (Main.handleMessage (P := node) true (vonage_modelled false)
                      (TwilioSource.integration (P := node) true) 7%nat
                      {| raw := []; parsed := None |} w)) = [].
Proof.
  intros w.
  refine (proj1 (consistent_registries_reach_the_conversation (P := node) true
                   (vonage_modelled false) true 7%nat {| raw := []; parsed := None |} w
                   _ _)); [ | reflexivity].
  split; [ | split].
  - intros c conversation H. cbn in H. apply lookup_singleton_Some in H as [<- <-].
    split; [done | ]. by eexists.
  - intros c clients H. cbn in H. apply lookup_singleton_Some in H as [<- <-].
    split; [apply NoDup_singleton | ]. split; [done | ]. split; [by eexists | ].
    intros ws ->%list_elem_of_singleton. reflexivity.
  - intros ws c H. cbn in H. apply lookup_singleton_Some in H as [<- <-].
    split; [done | ]. exists [7%nat]. split; [reflexivity | apply list_elem_of_here].
Defined.

(** ** Round trip through the Genesys integration *)

Section GenesysRoundTrip.
Context {P : Platform}.

(** X24 -- round trip through the Genesys integration.  The audio
    message the output path makes of a frame of [n >= 1] samples, taken
    back by the input path, reaches the engine as one [streamAudio]
    call that carries [(n + 1) / 2] samples, the mu-law image of every
    second sample.  The message made of the empty frame has the empty
    string as payload, which the input path takes for a missing one: it
    prints "Invalid audio payload" and calls nothing.  Nothing is sent
    to any client either way. *)
Theorem genesys_round_trip (frame : list Z) (streamId : option string)
    (session : Conversation) (bytes : list Z) (w : World) :
  let wire := Genesys.encodeOutbound frame streamId in
  let pcm := mulaw_decode (mulaw_encode (resample16kHzTo8kHz frame)) in
  let t := trace_of (Genesys.tryProcessAudioInput true
                       {| raw := bytes; parsed := Some wire |} session w) in
  sends t = [] /\
  match frame with
  | [] => t = [ELog (LGenesysInvalidPayload wire)]
  | _ :: _ =>
      length pcm = ((length frame + 1) / 2)%nat /\
      engine_calls t = [streamAudio (handle session) (bytesOfInt16 pcm)]
  end.
Proof.
  intros wire pcm t.
  assert (t =
          trace_of
            (try_catch
               (if truthy (Some (JStr (toBase64 (mulaw_encode (resample16kHzTo8kHz frame)))))
                then await (streamAudio (handle session) (bytesOfInt16 pcm))
                else log (LGenesysInvalidPayload wire))
               (fun error => log (LGenesysInputError error)) w)) as ->.
  { subst t. unfold Genesys.tryProcessAudioInput. cbn [negb]. f_equal.
    unfold try_catch, JSON_parse. cbn [parsed]. rewrite bind_ret.
    unfold wire, Genesys.encodeOutbound, Genesys.response.
    cbn [prop app]. rewrite !bind_ret.
    cbn [assoc]. rewrite decide_True by done.
    unfold js_or at 1. cbn [truthy]. rewrite bool_decide_eq_false_2 by done. cbn [negb].
    cbn [Map_get Genesys.messageHandlers assoc].
    rewrite decide_False by done. rewrite decide_True by done.
    unfold Genesys.onAudio. cbn [prop]. rewrite bind_ret.
    cbn [assoc]. rewrite decide_False by done. rewrite decide_True by done.
    cbn [truthy prop]. rewrite bind_ret. cbn [assoc].
    rewrite decide_False by done. rewrite decide_True by done.
    cbn [andb default]. fold wire.
    destruct (truthy _) eqn:Ht; cbn [truthy] in Ht; rewrite Ht; [ | reflexivity].
    cbn [Buffer_from_base64]. rewrite bind_ret.
    by rewrite fromBase64_toBase64 by apply mulaw_encode_bytes. }
  destruct frame as [ | s frame].
  - by cbn.
  - assert (mulaw_encode (resample16kHzTo8kHz (s :: frame)) <> []) as Hne.
    { intros H. apply (f_equal length) in H.
      rewrite mulaw_encode_length, resample16kHzTo8kHz_length in H. by cbn in H. }
    cbn [truthy]. rewrite bool_decide_eq_false_2 by by apply toBase64_nonempty.
    cbn [negb]. unfold try_catch, trace_of.
    destruct (await _ w) as [[r w1] t1] eqn:E.
    apply await_inv in E as (-> & _).
    split; [by destruct r | ]. split; [ | by destruct r].
    unfold pcm.
    by rewrite mulaw_decode_length, mulaw_encode_length, resample16kHzTo8kHz_length,
      div2_ceil.
Qed.
End GenesysRoundTrip.

(** ** Malformed input *)

Lemma JSON_parse_cases msg w :
  (exists j, parsed msg = Some j /\ JSON_parse msg w = (Done (Some j), w, [])) \/
  (parsed msg = None /\
   JSON_parse msg w = (Thrown "SyntaxError: Unexpected token in JSON", w, [])).
Proof. unfold JSON_parse. destruct (parsed msg) as [j | ]; eauto. Qed.

Lemma prop_cases v k w :
  (exists a, prop v k w = (Done a, w, [])) \/ (exists e, prop v k w = (Thrown e, w, [])).
Proof. destruct v as [[ | b | n | s | items | fields] | ]; cbn; eauto. Qed.

Lemma try_catch_bind_done {A B} (m : M A) (k : A -> M B) (h : string -> M B) a w :
  m w = (Done a, w, []) -> try_catch (bind m k) h w = try_catch (k a) h w.
Proof.
  intros E. unfold try_catch, bind. rewrite E.
  by destruct (k a w) as [[[b | e | ] w1] t1].
Qed.

Lemma try_catch_bind_thrown {A B} (m : M A) (k : A -> M B) (h : string -> M B) e w :
  m w = (Thrown e, w, []) -> try_catch (bind m k) h w = h e w.
Proof.
  intros E. unfold try_catch, bind. rewrite E. by destruct (h e w) as [[r w1] t1].
Qed.

(** An [await] in a [try] whose [catch] prints: it is silent only when
    the engine has not rejected the call. *)
Lemma try_catch_await_reports c (line : string -> LogLine) w :
  logs (trace_of (try_catch (await c) (fun e => log (line e)) w)) = [] ->
  trace_of (try_catch (await c) (fun e => log (line e)) w) = [EEngine c] /\
  (deadline w = None -> forall d e, outcome_at 0 w <> Rejects d e).
Proof.
  unfold try_catch. destruct (await c w) as [[r w1] t] eqn:E.
  pose proof E as E'. apply await_inv in E' as (-> & _).
  destruct r as [[] | e | ]; cbn; try done.
  all: intros _; split; [done | ]; intros Hd d e Ho;
    rewrite (await_run c w Hd), Ho in E; discriminate.
Qed.

Section Malformed.
Context {P : Platform}.

Lemma Buffer_try_catch_reports v c (line : string -> LogLine) w :
  logs (trace_of (try_catch (audio <- Buffer_from_base64 v;; await (c audio))
                    (fun e => log (line e)) w)) = [] ->
  (exists audio,
     trace_of (try_catch (audio <- Buffer_from_base64 v;; await (c audio))
                 (fun e => log (line e)) w) = [EEngine (c audio)]) /\
  (deadline w = None -> forall d e, outcome_at 0 w <> Rejects d e).
Proof.
  destruct (Buffer_from_base64_cases v w) as [[bytes E] | [e E]].
  - rewrite (try_catch_bind_done _ _ _ _ _ E). intros H.
    apply try_catch_await_reports in H as [H1 H2]. eauto.
  - by rewrite (try_catch_bind_thrown _ _ _ _ _ E).
Qed.

Lemma Browser_input_swallows isOn msg conversation :
  emitsOnly engineOnly (Browser.tryProcessAudioInput isOn msg conversation).
Proof.
  unfold Browser.tryProcessAudioInput. destruct isOn; cbn [negb]; by confined.
Qed.

Lemma NovaSonic_swallows msg conversation :
  emitsOnly engineOnly (Main.tryProcessNovaSonicMessage msg conversation).
Proof.
  unfold Main.tryProcessNovaSonicMessage. confined.
  destruct (Map_get _ _) as [handler | ] eqn:E; [ | by confined].
  apply NovaSonic_handlers_confined; [done | ].
  apply Map_get_In in E. exact E.
Qed.

Lemma Genesys_input_notToClients isOn msg session :
  emitsOnly notToClients (Genesys.tryProcessAudioInput isOn msg session).
Proof.
  unfold Genesys.tryProcessAudioInput. destruct isOn; cbn [negb]; confined; try done.
  destruct (Map_get _ _) as [handler | ] eqn:E; [ | by confined].
  intros w. eapply Forall_impl.
  - eapply Genesys_handlers_confined, Map_get_In, E.
  - by intros [l | c m | c | c | h f v].
Qed.

Lemma Vonage_input_notToClients isOn msg session :
  emitsOnly notToClients (Vonage.processAudioData isOn msg session).
Proof.
  unfold Vonage.processAudioData. destruct isOn; cbn [negb]; by confined.
Qed.

Lemma Genesys_input_reports msg session :
  reportsOrStreams (handle session) (Genesys.tryProcessAudioInput true msg session).
Proof.
  intros w. unfold Genesys.tryProcessAudioInput. cbn [negb].
  destruct (JSON_parse_cases msg w) as [(j & _ & E) | (_ & E)];
    [ | by rewrite (try_catch_bind_thrown _ _ _ _ _ E)].
  rewrite (try_catch_bind_done _ _ _ _ _ E).
  destruct (prop_cases (Some j) "event" w) as [[event E1] | [e E1]];
    [ | by rewrite (try_catch_bind_thrown _ _ _ _ _ E1)].
  rewrite (try_catch_bind_done _ _ _ _ _ E1).
  destruct (prop_cases (Some j) "type" w) as [[type E2] | [e E2]];
    [ | by rewrite (try_catch_bind_thrown _ _ _ _ _ E2)].
  rewrite (try_catch_bind_done _ _ _ _ _ E2). cbn zeta.
  destruct (Map_get Genesys.messageHandlers (js_or event type)) as [handler | ] eqn:Eh;
    [ | done].
  apply Map_get_In in Eh as [k Hk]. cbn in Hk.
  destruct Hk as [[= _ <-] | [[= _ <-] | [[= _ <-] | []]]].
  - unfold Genesys.onConnect.
    destruct (prop_cases (Some j) "streamId" w) as [[streamId E3] | [e E3]];
      [ | by rewrite (try_catch_bind_thrown _ _ _ _ _ E3)].
    rewrite (try_catch_bind_done _ _ _ _ _ E3).
    destruct (prop_cases (Some j) "callId" w) as [[callId E4] | [e E4]];
      [ | by rewrite (try_catch_bind_thrown _ _ _ _ _ E4)].
    by rewrite (try_catch_bind_done _ _ _ _ _ E4).
  - unfold Genesys.onAudio.
    destruct (prop_cases (Some j) "audio" w) as [[audio E3] | [e E3]];
      [ | by rewrite (try_catch_bind_thrown _ _ _ _ _ E3)].
    rewrite (try_catch_bind_done _ _ _ _ _ E3).
    destruct (truthy audio) eqn:Ha.
    + destruct (prop_cases audio "payload" w) as [[payload E4] | [e E4]];
        [ | by rewrite (try_catch_bind_thrown _ _ _ _ _ E4)].
      rewrite (try_catch_bind_done _ _ _ _ _ E4). cbn [andb].
      destruct (truthy payload); [ | done].
      intros H.
      apply (Buffer_try_catch_reports payload
               (fun audioInput =>
                  streamAudio (handle session) (bytesOfInt16 (mulaw_decode audioInput))))
        in H as [[bytes H1] H2].
      eauto.
    + rewrite (try_catch_bind_done _ _ _ audio w) by reflexivity. done.
  - unfold Genesys.onError.
    destruct (prop_cases (Some j) "error" w) as [[error E3] | [e E3]];
      [ | by rewrite (try_catch_bind_thrown _ _ _ _ _ E3)].
    by rewrite (try_catch_bind_done _ _ _ _ _ E3).
Qed.

Lemma Vonage_input_reports msg session :
  reportsOrStreams (handle session) (Vonage.processAudioData true msg session).
Proof.
  intros w. unfold Vonage.processAudioData. cbn [negb]. cbn zeta. intros H.
  apply try_catch_await_reports in H as [H1 H2]. eauto.
Qed.

Lemma TwilioSource_input_reports msg conversation w j :
  parsed msg = Some j ->
  let run := TwilioSource.tryProcessAudioInput true msg conversation w in
  logs (trace_of run) = [] ->
  (exists audio, trace_of run = [EEngine (streamAudio (handle conversation) audio)]) /\
  (deadline w = None -> forall d e, outcome_at 0 w <> Rejects d e).
Proof.
  intros Hj run. subst run. unfold TwilioSource.tryProcessAudioInput, JSON_parse.
  rewrite Hj. cbn [negb]. rewrite bind_ret.
  destruct (prop_cases (Some j) "event" w) as [[event E1] | [e E1]];
    [ | by rewrite (try_catch_bind_thrown _ _ _ _ _ E1)].
  rewrite (try_catch_bind_done _ _ _ _ _ E1).
  destruct (Map_get TwilioSource.messageHandlers event) as [handler | ] eqn:Eh;
    [ | done].
  apply Map_get_In in Eh as [k Hk]. cbn in Hk.
  destruct Hk as [[= _ <-] | [[= _ <-] | []]].
  - unfold TwilioSource.onStart.
    destruct (prop_cases (Some j) "streamSid" w) as [[sid E3] | [e E3]];
      [ | by rewrite (try_catch_bind_thrown _ _ _ _ _ E3)].
    by rewrite (try_catch_bind_done _ _ _ _ _ E3).
  - unfold TwilioSource.onMedia.
    destruct (prop_cases (Some j) "media" w) as [[media E3] | [e E3]];
      [ | by rewrite (try_catch_bind_thrown _ _ _ _ _ E3)].
    rewrite (try_catch_bind_done _ _ _ _ _ E3).
    destruct (prop_cases media "payload" w) as [[payload E4] | [e E4]];
      [ | by rewrite (try_catch_bind_thrown _ _ _ _ _ E4)].
    rewrite (try_catch_bind_done _ _ _ _ _ E4).
    intros H.
    apply (Buffer_try_catch_reports payload
             (fun audioInput =>
                streamAudio (handle conversation) (bytesOfInt16 (mulaw_decode audioInput))))
      in H as [[bytes H1] H2].
    eauto.
Qed.

Lemma TwilioSource_input_noClose isOn msg conversation :
  noClose (TwilioSource.tryProcessAudioInput isOn msg conversation).
Proof.
  intros w. apply (notToClients_sends _ (TwilioSource_input_notToClients isOn msg conversation w)).
Qed.
End Malformed.

(** C8 -- malformed input is contained by [handleMessage], not by every
    adapter.  Whatever the frame and whatever the engine answers:
    - the Browser adapter and the control-message path let no
      exception out and swallow what they catch: their only effects
      are engine calls -- no console line, no frame, no socket closed;
    - the Genesys and Vonage adapters let no exception out, send no
      frame and close no socket, and report what they do not pass on:
      a run that prints no console line has streamed the frame to the
      engine, which has not rejected it;
    - the Twilio adapter parses the frame before its [try]: a frame
      that [JSON.parse] rejects makes it throw past its caller, with no
      effect; a frame that parses is reported like in the Genesys
      adapter, and nothing is let out;
    - [handleMessage] lets no exception out and closes no socket (as
      long as the Vonage adapter it is given closes none); the
      exception of the Twilio adapter is answered to the sender as
      the error event "Error processing message", and the
      control-message path is then skipped. *)
Theorem inbound_errors_are_contained {P : Platform} (msg : Inbound)
    (conversation : Conversation) :
  (forall isOn,
     noThrow (Browser.tryProcessAudioInput isOn msg conversation) /\
     emitsOnly engineOnly (Browser.tryProcessAudioInput isOn msg conversation)) /\
  (noThrow (Main.tryProcessNovaSonicMessage msg conversation) /\
   emitsOnly engineOnly (Main.tryProcessNovaSonicMessage msg conversation)) /\
  (forall isOn,
     noThrow (Genesys.tryProcessAudioInput isOn msg conversation) /\
     emitsOnly notToClients (Genesys.tryProcessAudioInput isOn msg conversation)) /\
  reportsOrStreams (handle conversation)
    (Genesys.tryProcessAudioInput true msg conversation) /\
  (forall isOn,
     noThrow (Vonage.processAudioData isOn msg conversation) /\
     emitsOnly notToClients (Vonage.processAudioData isOn msg conversation)) /\
  reportsOrStreams (handle conversation)
    (Vonage.processAudioData true msg conversation) /\
  (forall isOn,
     emitsOnly notToClients (TwilioSource.tryProcessAudioInput isOn msg conversation)) /\
  (forall w,
     let run := TwilioSource.tryProcessAudioInput true msg conversation w in
     match parsed msg with
     | None => run = (Thrown "SyntaxError: Unexpected token in JSON", w, [])
     | Some _ =>
         (forall e, result_of run <> Thrown e) /\
         (logs (trace_of run) = [] ->
          (exists audio,
             trace_of run = [EEngine (streamAudio (handle conversation) audio)]) /\
          (deadline w = None -> forall d e, outcome_at 0 w <> Rejects d e))
     end) /\
  (forall browser_isOn vonage twilio_on ws,
     noThrow (Main.handleMessage browser_isOn vonage
                (TwilioSource.integration twilio_on) ws msg) /\
     ((forall m c, noClose (vonage_tryProcessAudioInput vonage m c)) ->
      noClose (Main.handleMessage browser_isOn vonage
                 (TwilioSource.integration twilio_on) ws msg))) /\
  (forall browser_isOn vonage ws w conversationId,
     parsed msg = None ->
     vonage_isOn vonage = false ->
     clientChannels (server w) !! ws = Some conversationId ->
     conversationId <> "" ->
     channelConversations (server w) !! conversationId = Some conversation ->
     Main.handleMessage browser_isOn vonage (TwilioSource.integration true) ws msg w =
       (Done tt, w,
        [ELog (LSendingError "Error processing message"
                 "SyntaxError: Unexpected token in JSON");
         ESend ws (Main.errorEvent "Error processing message"
                     "SyntaxError: Unexpected token in JSON")])).
Proof.
  split; [ | split; [ | split; [ | split; [ | split; [ | split; [ | split;
    [ | split; [ | split]]]]]]]].
  - intros isOn. split; [apply Browser_input_noThrow | apply Browser_input_swallows].
  - split; [apply NovaSonic_noThrow | apply NovaSonic_swallows].
  - intros isOn. split; [apply Genesys_input_noThrow | apply Genesys_input_notToClients].
  - apply Genesys_input_reports.
  - intros isOn. split; [apply Vonage_input_noThrow | apply Vonage_input_notToClients].
  - apply Vonage_input_reports.
  - intros isOn. apply TwilioSource_input_notToClients.
  - intros w run. destruct (parsed msg) as [j | ] eqn:Hp.
    + split; [ | by apply (TwilioSource_input_reports msg conversation w j)].
      subst run. unfold TwilioSource.tryProcessAudioInput, JSON_parse.
      rewrite Hp. cbn [negb]. rewrite bind_ret.
      apply noThrow_try_catch. intros e. apply noThrow_log.
    + subst run. unfold TwilioSource.tryProcessAudioInput, JSON_parse. by rewrite Hp.
  - intros browser_isOn vonage twilio_on ws.
    split; [apply handleMessage_noThrow | ].
    intros Hv. apply handleMessage_noClose; [exact Hv | ].
    intros m c. apply TwilioSource_input_noClose.
  - intros browser_isOn vonage ws w conversationId Hp Hv Hws Hne Hconv.
    unfold Main.handleMessage. rewrite bind_gets, Hws.
    assert (truthy_id (Some conversationId) = Some conversationId) as ->
      by by destruct conversationId.
    rewrite bind_gets, Hconv, Hv.
    cbn [twilio_isOn twilio_tryProcessAudioInput TwilioSource.integration when].
    unfold try_catch at 1.
    assert (when browser_isOn (Browser.tryProcessAudioInput browser_isOn msg conversation) w
            = (Done tt, w, [])) as Hb.
    { destruct browser_isOn; [ | reflexivity].
      apply (unparseable_runs msg conversation w Hp). }
    rewrite (bind_done _ _ _ _ _ _ Hb), bind_ret.
    unfold TwilioSource.tryProcessAudioInput, JSON_parse. rewrite Hp. cbn [negb].
    reflexivity.
Qed.

(** [inbound_errors_are_contained] at a frame that [JSON.parse] rejects,
    sent by socket 7 of channel c1: the Browser adapter does nothing
    with it, and with the Twilio integration enabled the sender is
    answered with an error event. *)
Lemma inbound_errors_are_contained_witness :
  let w := world_of one_client_server (fun _ => true) [] in
  parsed garbage = None /\
  noClose (Main.handleMessage (P := node) true (vonage_modelled false)
             (TwilioSource.integration (P := node) true) 7%nat garbage) /\
  sends (trace_of (Main.handleMessage (P := node) true (vonage_modelled false)
                     (TwilioSource.integration (P := node) true) 7%nat garbage w))
  = [(7%nat, Main.errorEvent "Error processing message"
               "SyntaxError: Unexpected token in JSON")].
Proof.
  intros w. split; [reflexivity | ].
  destruct (inbound_errors_are_contained (P := node) garbage (conv 0 "c1"))
    as (_ & _ & _ & _ & _ & _ & _ & _ & Hm & Hr).
  split.
  - apply (Hm true (vonage_modelled false) true 7%nat).
    intros m c. apply Vonage_input_noClose.
  - rewrite (Hr true (vonage_modelled false) 7%nat w "c1");
      [ reflexivity | reflexivity | reflexivity | reflexivity | done | reflexivity ].
Defined.

(** C8 as stated fails, in two ways.  With the Browser adapter alone
    enabled, a frame that does not parse, and a frame that parses but
    has none of the expected fields, go through [handleMessage] without
    a console line and without an error event: the malformed input is
    neither logged nor reported.  And the inbound operation of the
    Twilio adapter throws past its caller on the frame that does not
    parse. *)
Lemma malformed_input_is_not_reported :
  let w := world_of one_client_server (fun _ => true) [] in
  Main.handleMessage (P := node) true (vonage_modelled false)
    (TwilioSource.integration (P := node) false) 7%nat garbage w = (Done tt, w, []) /\
  Main.handleMessage (P := node) true (vonage_modelled false)
    (TwilioSource.integration (P := node) false) 7%nat mismatched w = (Done tt, w, []) /\
  Browser.tryProcessAudioInput (P := node) true garbage (conv 0 "c1") w = (Done tt, w, []) /\
  TwilioSource.tryProcessAudioInput (P := node) true garbage (conv 0 "c1") w
    = (Thrown "SyntaxError: Unexpected token in JSON", w, []).
Proof. vm_compute. repeat split; reflexivity. Qed.
